(** * Scoreboard service: score mutation, rank queries and the leaderboard cache

    A shallow embedding of the TypeScript services and controllers

      - [src/middleware/validator.ts]        (validateTimestamp)
      - [src/services/scoreService.ts]       (getUserScore, updateScore,
                                              getUserRank, isUserInTop10,
                                              validateScoreUpdateRequest)
      - [src/services/leaderboardService.ts] (getTopUsers, getTotalUsers,
                                              getLeaderboard)
      - [src/services/websocketService.ts]   (broadcastLeaderboardUpdate,
                                              publishLeaderboardUpdate)
      - [src/controllers/scoreController.ts] (updateUserScore)
      - [src/controllers/leaderboardController.ts] (getLeaderboardData)

    Modelling conventions.

      - Scores, increments, ranks and millisecond clocks are integral
        JavaScript numbers: doubles whose value is an integer, represented
        by that integer in [Z].  The code rounds where a double cannot
        hold the exact result ([nearest_double]): the sum of a score and
        an increment is the double nearest to their exact sum, and the
        decimal text of a BIGINT or of a query parameter is read as the
        double nearest to the integer it denotes.  The integers of
        magnitude at most 2^53 - 1, the safe integers, are doubles, and
        a sum of two of them that is safe is exact; the properties that
        compute with a score are stated for them ([safe_integer]).
        Counts of rows and the ranks made of them are read as they are.
        PostgreSQL rejects what a BIGINT, INT or VARCHAR column cannot
        hold.  Values that arrive from a request and need not be
        integral (the body field [score_increment], the parsed query
        parameters) have the type [number] below.
      - Strings are sequences of code units from 1 to 255: PostgreSQL
        takes no text with the code unit 0.
      - [ORDER BY score DESC] leaves the order of rows of equal score to
        the store.  The model breaks ties by storage order; the
        properties that depend on the order of a listing are stated for
        stores without ties ([untied]) or in terms that no order of ties
        changes.
      - [Date.now()] is the parameter [now]; one request reads one clock.
      - PostgreSQL and Redis are explicit state.  Every call on either of
        them is appended to a trace and may fail: the oracle [fault] says,
        for every position of the trace, whether the call made there throws.
      - [async] functions are state transformers that return either a
        value or a thrown error, together with the state they leave.  A
        call that never settles (a command queued for a Redis that cannot
        be reached) has no counterpart: the model covers the runs in which
        every call returns or throws.
      - The express-validator chain of the route, the rate limiters and
        the JWT check run before the controllers and are not part of the
        model; a controller is given the request they let through.  *)

From Stdlib Require Import ZArith String Ascii List Bool Lia Sorted.
From stdpp Require Import base option list strings gmap.

Local Open Scope string_scope.
Local Open Scope list_scope.
Local Open Scope Z_scope.

(** ** JavaScript numbers *)

(** A double is a finite rational [n/d], a NaN or an infinity. *)
Inductive number : Type :=
| Fin (n : Z) (d : positive)
| NaN
| Inf (negative : bool).

Definition Int (z : Z) : number := Fin z 1.

(** [Number.isInteger] *)
Definition Number_isInteger (x : number) : bool :=
  match x with
  | Fin n d => n mod Z.pos d =? 0
  | _ => false
  end.

(** [x < y]; every comparison with NaN is false. *)
Definition num_lt (x y : number) : bool :=
  match x, y with
  | NaN, _ | _, NaN => false
  | Inf true, Inf true => false
  | Inf true, _ => true
  | _, Inf true => false
  | Inf false, _ => false
  | _, Inf false => true
  | Fin a b, Fin c d => a * Z.pos d <? c * Z.pos b
  end.

Definition num_gt (x y : number) : bool := num_lt y x.

(** [x === y] on numbers. *)
Definition num_eq (x y : number) : bool :=
  match x, y with
  | Fin a b, Fin c d => a * Z.pos d =? c * Z.pos b
  | Inf s, Inf t => Bool.eqb s t
  | _, _ => false
  end.

(** The integer a number denotes when [Number_isInteger] holds of it. *)
Definition int_value (x : number) : Z :=
  match x with
  | Fin n d => n / Z.pos d
  | _ => 0
  end.

(** Of the two doubles [q * ulp] and [(q + 1) * ulp] around
    [q * ulp + r], the second is the nearer, or as near with [q] odd. *)
Definition round_up (ulp q r : Z) : bool :=
  (ulp <? 2 * r) || ((2 * r =? ulp) && Z.odd q).

(** The double nearest to an integer, a tie going to the even significand:
    what an operation on doubles returns when its exact result is that
    integer, and what a decimal text of that integer is read as.  Every
    integer of magnitude below 2^53 is a double; beyond, the doubles from
    a power of two to the next are the multiples of [ulp]. *)
Definition nearest_double (z : Z) : Z :=
  let a := Z.abs z in
  if a <? 2 ^ 53 then z
  else
    let ulp := 2 ^ (Z.log2 a - 52) in
    let q := a / ulp in
    let r := a mod ulp in
    Z.sgn z * ((if round_up ulp q r then q + 1 else q) * ulp).

(** [x + y] on two integral doubles. *)
Definition Number_add (x y : Z) : Z := nearest_double (x + y).

(** The number that the decimal notation of an integer is read as: the
    nearest double, an infinity from the midpoint between the greatest
    double and 2^1024 on. *)
Definition number_of_integer (z : Z) : number :=
  if Z.abs z <? 2 ^ 1024 - 2 ^ 970 then Int (nearest_double z)
  else Inf (z <? 0).

(** ToIntegerOrInfinity, as [Array.prototype.slice] applies it to its
    bounds, clamped to a list of length [len]: the end index of
    [slice(0, x)]. *)
Definition slice_end (len : nat) (x : number) : nat :=
  match x with
  | NaN => 0%nat
  | Inf true => 0%nat
  | Inf false => len
  | Fin n d =>
      let k := Z.quot n (Z.pos d) in
      if k <? 0 then Z.to_nat (Z.max (Z.of_nat len + k) 0)
      else Nat.min (Z.to_nat k) len
  end.

(** [arr.slice(0, limit)] *)
Definition slice0 {A} (arr : list A) (limit : number) : list A :=
  take (slice_end (length arr) limit) arr.

(** ** [parseInt(s, 10)] *)

(** Leading white space is skipped, a sign is read, then the longest
    prefix of decimal digits; NaN when there is none.  The white space
    below 256 is TAB, LF, VT, FF, CR, the space and the no-break space.
    The number read is the double nearest to the integer that the digits
    denote. *)
Definition is_white (c : ascii) : bool :=
  let n := nat_of_ascii c in
  ((9 <=? n) && (n <=? 13) || (n =? 32) || (n =? 160))%nat.

Definition digit_of (c : ascii) : option Z :=
  let n := nat_of_ascii c in
  if ((48 <=? n) && (n <=? 57))%nat then Some (Z.of_nat n - 48) else None.

Fixpoint skip_white (s : string) : string :=
  match s with
  | String c r => if is_white c then skip_white r else s
  | EmptyString => s
  end.

(** The longest prefix of decimal digits, read from the left; [None] when
    there is no digit at all. *)
Fixpoint read_digits (acc : option Z) (s : string) : option Z :=
  match s with
  | String c r =>
      match digit_of c with
      | Some k => read_digits (Some (10 * default 0 acc + k)) r
      | None => acc
      end
  | EmptyString => acc
  end.

Definition parseInt (s : string) : number :=
  let t := skip_white s in
  let '(neg, body) :=
    match t with
    | String "-"%char r => (true, r)
    | String "+"%char r => (false, r)
    | _ => (false, t)
    end in
  match read_digits None body with
  | Some m => number_of_integer (if neg : bool then - m else m)
  | None => NaN
  end.

(** [(q as string) || dflt]: the empty string and [undefined] are falsy. *)
Definition or_default (q : option string) (dflt : string) : string :=
  match q with
  | Some s => if String.eqb s "" then dflt else s
  | None => dflt
  end.

(** ** Errors thrown and caught *)

(** A validation error of the service, a call that the environment makes
    fail, or a statement that PostgreSQL rejects. *)
Inductive Error : Type :=
| ValidationError (message : string)
| StorageError (position : nat)
| StatementRejected (detail : string).

Definition error_message (e : Error) : string :=
  match e with
  | ValidationError m => m
  | StorageError _ => "storage failure"
  | StatementRejected c => c
  end.

Inductive outcome (A : Type) : Type :=
| Ok (a : A)
| Throw (e : Error).
Arguments Ok {A} a.
Arguments Throw {A} e.

(** ** validator.ts *)

Definition maxTimeDiff : Z := 5 * 60 * 1000.

(** The number of decimal digits of a positive integer. *)
Fixpoint decimal_length (fuel : nat) (a : Z) : Z :=
  match fuel with
  | O => 1
  | S f => if a <? 10 then 1 else 1 + decimal_length f (a / 10)
  end.

(** [parseInt(x.toString(), 10)] for an integral double [x].  Below the
    magnitude 10^21, [toString] prints a decimal notation that reads back
    as [x].  From 10^21 on it prints the exponent notation [d.ddde+n] of
    the shortest decimal that reads back as [x], and [parseInt] reads the
    digit [d] with its sign: the first digit of [x], or 1 when [x] is the
    double nearest to the power of ten above it, which is printed
    [1e+n]. *)
Definition exponent_notation_head (a : Z) : Z :=
  let n := decimal_length (Z.to_nat (Z.log2 a)) a in
  if nearest_double (10 ^ n) =? a then 1 else a / 10 ^ (n - 1).

Definition parseInt_toString (x : Z) : Z :=
  if Z.abs x <? 10 ^ 21 then x
  else Z.sgn x * exponent_notation_head (Z.abs x).

(** [validateTimestamp].  The timestamp is an integral number of
    milliseconds (the route admits it through [isInt]).  The guard
    [!timestamp] takes [undefined] and the falsy number [0].  The
    difference [now - requestTime] is exact below 2^53 and is rounded
    beyond, where it stays above [maxTimeDiff]. *)
Definition validateTimestamp (now : Z) (timestamp : option Z) : bool :=
  match timestamp with
  | None => true
  | Some t =>
      if t =? 0 then true
      else
        let requestTime := parseInt_toString t in
        let timeDiff := Z.abs (now - requestTime) in
        timeDiff <=? maxTimeDiff
  end.

(** [timestamp && ...]: the truthiness test of an optional number. *)
Definition truthy_timestamp (timestamp : option Z) : bool :=
  match timestamp with
  | None => false
  | Some t => negb (t =? 0)
  end.

(** ** scoreService.ts: validateScoreUpdateRequest *)

Definition validateScoreUpdateRequest
    (now : Z) (scoreIncrement : number) (timestamp : option Z) : outcome bool :=
  if negb (Number_isInteger scoreIncrement)
     || num_lt scoreIncrement (Int 1)
     || num_gt scoreIncrement (Int 1000)
  then Throw (ValidationError "Score increment must be between 1 and 1000")
  else if truthy_timestamp timestamp && negb (validateTimestamp now timestamp)
  then Throw (ValidationError "Invalid timestamp - possible replay attack")
  else Ok true.

(** ** The Ledger Store: PostgreSQL tables

    [users(user_id PRIMARY KEY, username)], [scores(user_id UNIQUE, score)]
    and the append-only [score_history]; rows are kept in storage order.
    [scores.user_id] and [score_history.user_id] reference [users]. *)

Record HistoryRow : Type := {
  h_user_id : string;
  h_score_increment : Z;
  h_previous_score : Z;
  h_new_score : Z;
  h_action_id : option string;
  h_ip_address : option string;
  h_user_agent : option string;
  h_created_at : Z
}.

Record Db : Type := {
  users : list (string * string);
  scores : list (string * Z);
  score_history : list HistoryRow
}.

Definition with_scores (d : Db) (s : list (string * Z)) : Db :=
  {| users := users d; scores := s; score_history := score_history d |}.

Definition with_history (d : Db) (h : list HistoryRow) : Db :=
  {| users := users d; scores := scores d; score_history := h |}.

(** [SELECT score FROM scores WHERE user_id = $1] *)
Definition select_score (d : Db) (userId : string) : list Z :=
  map snd (List.filter (fun r => String.eqb (fst r) userId) (scores d)).

(** The foreign key [REFERENCES users(user_id)]. *)
Definition registered (d : Db) (userId : string) : bool :=
  existsb (fun r => String.eqb (fst r) userId) (users d).

(** *** What the columns take

    A number is sent as the text [toString] prints and read by PostgreSQL
    as a value of the type of its column.  The text of a double of
    magnitude below 2^53 is the decimal notation of its value.  A larger
    double is printed with the fewest digits that read back as the same
    double, zeros after them, a text that a BIGINT holds up to the
    greatest double below 2^63 and that no BIGINT holds from 2^63 on, the
    text of -2^63 included.  The model writes the double where the code
    writes the integer of that text, which the code would read back as
    the same double. *)
Definition BIGINT_takes (x : Z) : bool := Z.abs x <? 2 ^ 63.

Definition INT_takes (x : Z) : bool := (- 2 ^ 31 <=? x) && (x <? 2 ^ 31).

Fixpoint all_spaces (s : string) : bool :=
  match s with
  | EmptyString => true
  | String c r => Ascii.eqb c " "%char && all_spaces r
  end.

(** A VARCHAR(n) column takes NULL, a text of at most [n] characters,
    and a longer text whose characters after the first [n] are all spaces;
    it keeps the first [n] characters of what it takes. *)
Definition VARCHAR_takes (n : nat) (x : option string) : bool :=
  match x with
  | None => true
  | Some s => all_spaces (String.substring n (String.length s - n) s)
  end.

Definition VARCHAR_keeps (n : nat) (x : option string) : option string :=
  String.substring 0 n <$> x.

(** [INSERT INTO scores ... ON CONFLICT (user_id) DO UPDATE SET score = $2];
    [None] when the statement is rejected: the number is out of the range
    of the BIGINT column [score], or the foreign key is violated. *)
Definition upsert_score (d : Db) (userId : string) (newScore : Z) : option Db :=
  if BIGINT_takes newScore && registered d userId then
    Some (with_scores d
      (if existsb (fun r => String.eqb (fst r) userId) (scores d)
       then map (fun r => if String.eqb (fst r) userId
                          then (fst r, newScore) else r)
                (scores d)
       else scores d ++ [(userId, newScore)]))
  else None.

(** What [score_history] takes and keeps of a row: [score_increment INT],
    [previous_score BIGINT], [new_score BIGINT], [action_id VARCHAR(255)],
    [ip_address VARCHAR(45)], [user_agent TEXT]. *)
Definition history_takes (row : HistoryRow) : bool :=
  INT_takes (h_score_increment row)
  && BIGINT_takes (h_previous_score row)
  && BIGINT_takes (h_new_score row)
  && VARCHAR_takes 255 (h_action_id row)
  && VARCHAR_takes 45 (h_ip_address row).

Definition history_keeps (row : HistoryRow) : HistoryRow :=
  {| h_user_id := h_user_id row;
     h_score_increment := h_score_increment row;
     h_previous_score := h_previous_score row;
     h_new_score := h_new_score row;
     h_action_id := VARCHAR_keeps 255 (h_action_id row);
     h_ip_address := VARCHAR_keeps 45 (h_ip_address row);
     h_user_agent := h_user_agent row;
     h_created_at := h_created_at row |}.

(** [INSERT INTO score_history ...]; [None] when the statement is
    rejected: a value does not fit its column, or the foreign key is
    violated. *)
Definition insert_history (d : Db) (row : HistoryRow) : option Db :=
  if history_takes row && registered d (h_user_id row)
  then Some (with_history d (score_history d ++ [history_keeps row]))
  else None.

(** [ORDER BY score DESC].  PostgreSQL leaves the order of rows of equal
    score open; here they keep their storage order, which is the one
    order there is when no two rows have the same score. *)
Fixpoint insert_desc {A} (key : A -> Z) (x : A) (l : list A) : list A :=
  match l with
  | [] => [x]
  | y :: r => if key y <=? key x then x :: y :: r else y :: insert_desc key x r
  end.

Fixpoint order_desc {A} (key : A -> Z) (l : list A) : list A :=
  match l with
  | [] => []
  | x :: r => insert_desc key x (order_desc key r)
  end.

(** The scalar subquery [(SELECT score FROM scores WHERE user_id = $1)]:
    SQL NULL when no row matches. *)
Definition scalar_score (d : Db) (userId : string) : option Z :=
  head (select_score d userId).

(** [WHERE score > x]: the comparison with NULL is unknown and keeps no row. *)
Definition sql_gt (score : Z) (x : option Z) : bool :=
  match x with
  | Some v => v <? score
  | None => false
  end.

(** [SELECT COUNT( * ) + 1 as rank FROM scores WHERE score > (subquery)] *)
Definition rank_query (d : Db) (userId : string) : Z :=
  Z.of_nat (length (List.filter
    (fun r => sql_gt (snd r) (scalar_score d userId)) (scores d))) + 1.

(** The same query with [COALESCE(score, 0)] in the select list of the
    subquery: COALESCE maps the rows the subquery has and leaves its
    emptiness, so NULL still comes out when no row matches. *)
Definition coalesce (x : option Z) (dflt : Z) : Z := default dflt x.

Definition scalar_score_coalesce (d : Db) (userId : string) : option Z :=
  head (map (fun s => coalesce (Some s) 0) (select_score d userId)).

Definition rank_query_coalesce (d : Db) (userId : string) : Z :=
  Z.of_nat (length (List.filter
    (fun r => sql_gt (snd r) (scalar_score_coalesce d userId)) (scores d))) + 1.

(** [SELECT COUNT( * ) FROM (SELECT user_id FROM scores ORDER BY score DESC
    LIMIT 10) top10 WHERE user_id = $1]; who is tenth among rows of equal
    score is decided by [order_desc]. *)
Definition top10_query (d : Db) (userId : string) : Z :=
  Z.of_nat (length (List.filter (fun r => String.eqb (fst r) userId)
                                (take 10 (order_desc snd (scores d))))).

(** [SELECT COUNT( * ) as count FROM scores] *)
Definition count_query (d : Db) : Z := Z.of_nat (length (scores d)).

(** A row of the leaderboard query. *)
Record BoardRow : Type := {
  row_user_id : string;
  row_username : string;
  row_score : Z;
  row_rank : Z
}.

(** [scores s INNER JOIN users u ON s.user_id = u.user_id] *)
Definition join_users (d : Db) : list (string * string * Z) :=
  flat_map (fun s =>
    map (fun u => (fst s, snd u, snd s))
        (List.filter (fun u => String.eqb (fst u) (fst s)) (users d)))
    (scores d).

(** [ROW_NUMBER() OVER (ORDER BY s.score DESC)]: numbers the whole ordered
    result from 1, before LIMIT and OFFSET cut it. *)
Fixpoint row_number (k : Z) (l : list (string * string * Z)) : list BoardRow :=
  match l with
  | [] => []
  | (uid, name, sc) :: r =>
      {| row_user_id := uid; row_username := name; row_score := sc;
         row_rank := k |}
      :: row_number (k + 1) r
  end.

(** A bind parameter of LIMIT or OFFSET must be a non-negative integer
    that a bigint holds; PostgreSQL rejects every other value. *)
Definition pg_bound (x : number) : option nat :=
  if Number_isInteger x && negb (num_lt x (Int 0))
     && negb (num_gt x (Int (2 ^ 63 - 1)))
  then Some (Z.to_nat (int_value x)) else None.

(** The leaderboard query of [getTopUsers], with [LIMIT $1 OFFSET $2]. *)
Definition leaderboard_query (d : Db) (limit offset : number)
  : option (list BoardRow) :=
  match pg_bound limit, pg_bound offset with
  | Some lim, Some off =>
      Some (take lim (drop off
              (row_number 1 (order_desc (fun r => snd r) (join_users d)))))
  | _, _ => None
  end.

(** ** The Rank Cache and the broadcast channel: Redis *)

Record LeaderboardEntry : Type := {
  user_id : string;
  username : string;
  score : Z;
  rank : Z
}.

(** The message published on [leaderboard:updates]. *)
Record UpdateMessage : Type := {
  msg_userId : string;
  msg_timestamp : Z
}.

(** Keys [user_score:<id>] and [leaderboard:top10], each value with the
    time at which it expires, and the channel [leaderboard:updates] with
    the messages published so far. *)
Record Redis : Type := {
  user_score : gmap string (Z * Z);
  leaderboard_top10 : option (list LeaderboardEntry * Z);
  leaderboard_updates : list UpdateMessage
}.

Definition LEADERBOARD_CACHE_TTL : Z := 30.
Definition USER_SCORE_CACHE_TTL : Z := 300.

(** A key is readable strictly before its expiry. *)
Definition live {A} (now : Z) (entry : option (A * Z)) : option A :=
  match entry with
  | Some (v, expiry) => if now <? expiry then Some v else None
  | None => None
  end.

(** ** Observers attached to this process *)

Record ScoreboardUpdate : Type := {
  su_leaderboard : list LeaderboardEntry;
  su_updated_user : option (string * Z);
  su_timestamp : Z
}.

Record WsClient : Type := {
  ws_open : bool;
  ws_sent : list ScoreboardUpdate
}.

(** ** The state of the service *)

Inductive Event : Type :=
| PoolConnect
| PgBegin | PgSelectForUpdate | PgUpsertScore | PgInsertHistory
| PgCommit | PgRollback
| PgSelectScore | PgRank | PgTop10 | PgLeaderboard | PgCount
| RedisEnsureConnected | RedisGet | RedisSetEx | RedisDel | RedisPublish.

(** [db] is the committed database, [tx] the working copy of the
    transaction open on the checked-out client, [wss] the WebSocket server
    ([null] before initialisation) with its clients. *)
Record World : Type := {
  db : Db;
  tx : option Db;
  redis : Redis;
  wss : option (list WsClient);
  trace : list Event
}.

Definition set_db (w : World) (d : Db) : World :=
  {| db := d; tx := tx w; redis := redis w; wss := wss w; trace := trace w |}.
Definition set_tx (w : World) (t : option Db) : World :=
  {| db := db w; tx := t; redis := redis w; wss := wss w; trace := trace w |}.
Definition set_redis (w : World) (r : Redis) : World :=
  {| db := db w; tx := tx w; redis := r; wss := wss w; trace := trace w |}.
Definition set_wss (w : World) (s : option (list WsClient)) : World :=
  {| db := db w; tx := tx w; redis := redis w; wss := s; trace := trace w |}.
Definition log_event (w : World) (ev : Event) : World :=
  {| db := db w; tx := tx w; redis := redis w; wss := wss w;
     trace := trace w ++ [ev] |}.

(** What a statement on the client sees, and where it writes. *)
Definition view (w : World) : Db := default (db w) (tx w).

Definition write (w : World) (d : Db) : World :=
  match tx w with
  | Some _ => set_tx w (Some d)
  | None => set_db w d
  end.

(** ** Computations that may throw and leave a changed state *)

Definition M (A : Type) : Type := World -> outcome A * World.

Definition ret {A} (a : A) : M A := fun w => (Ok a, w).

Definition throw {A} (e : Error) : M A := fun w => (Throw e, w).

Definition bind {A B} (m : M A) (k : A -> M B) : M B :=
  fun w =>
    match m w with
    | (Ok a, w1) => k a w1
    | (Throw e, w1) => (Throw e, w1)
    end.

(** [try { m } catch (error) { h error }] *)
Definition try_catch {A} (m : M A) (h : Error -> M A) : M A :=
  fun w =>
    match m w with
    | (Ok a, w1) => (Ok a, w1)
    | (Throw e, w1) => h e w1
    end.

(** [try { m } finally { f }] for a cleanup [f] that does not throw. *)
Definition try_finally {A} (m : M A) (f : World -> World) : M A :=
  fun w => let '(r, w1) := m w in (r, f w1).

Declare Scope m_scope.
Delimit Scope m_scope with M.
Notation "x <- m ;; k" := (bind m (fun x => k))
  (at level 100, m at next level, right associativity) : m_scope.
Notation "m ;; k" := (bind m (fun _ => k))
  (at level 100, right associativity) : m_scope.
Local Open Scope m_scope.

(** ** Result and request shapes (types/index.ts) *)

Record UpdateScoreResult : Type := {
  previousScore : Z;
  newScore : Z
}.

Record LeaderboardResponse : Type := {
  lr_leaderboard : list LeaderboardEntry;
  lr_userRank : option Z;
  lr_totalUsers : Z;
  lr_lastUpdated : Z
}.

Record UserPayload : Type := {
  userId : string;
  payload_username : string
}.

Record ScoreUpdateResponse : Type := {
  sur_user_id : string;
  sur_previous_score : Z;
  sur_new_score : Z;
  sur_rank : Z;
  sur_is_top_10 : bool
}.

(** [res.json(success)] with the default status 200, or
    [res.status(n).json(error)]. *)
Inductive Response (A : Type) : Type :=
| Success (data : A)
| Failure (status : Z) (code : string) (message : string).
Arguments Success {A} data.
Arguments Failure {A} status code message.

Record ScoreRequest : Type := {
  req_user : option UserPayload;
  body_score_increment : number;
  body_action_id : option string;
  body_timestamp : option Z;
  req_ip : option string;
  req_user_agent : option string
}.

Record LeaderboardRequest : Type := {
  lreq_user : option UserPayload;
  query_limit : option string;
  query_offset : option string
}.

(** [x || null] and [if (x)] on an optional string: the empty string is
    falsy. *)
Definition truthy_string (x : option string) : option string :=
  match x with
  | Some s => if String.eqb s "" then None else Some s
  | None => None
  end.

Section Service.

(** The environment: the call made at position [k] of the trace throws
    exactly when [fault k]. *)
Variable fault : nat -> bool.

Definition call {A} (ev : Event) (op : M A) : M A :=
  fun w =>
    let k := length (trace w) in
    let w1 := log_event w ev in
    if fault k then (Throw (StorageError k), w1) else op w1.

(** *** The PostgreSQL pool and a checked-out client *)

Definition pool_connect : M unit := call PoolConnect (ret tt).

Definition client_BEGIN : M unit :=
  call PgBegin (fun w => (Ok tt, set_tx w (Some (view w)))).

Definition client_select_for_update (userId : string) : M (list Z) :=
  call PgSelectForUpdate (fun w => (Ok (select_score (view w) userId), w)).

Definition client_upsert_score (userId : string) (newScore : Z) : M unit :=
  call PgUpsertScore (fun w =>
    match upsert_score (view w) userId newScore with
    | Some d => (Ok tt, write w d)
    | None =>
        (Throw (StatementRejected
                  (if BIGINT_takes newScore then "scores_user_id_fkey"
                   else "value out of range")), w)
    end).

Definition client_insert_history (row : HistoryRow) : M unit :=
  call PgInsertHistory (fun w =>
    match insert_history (view w) row with
    | Some d => (Ok tt, write w d)
    | None =>
        (Throw (StatementRejected
                  (if history_takes row then "score_history_user_id_fkey"
                   else "value out of range or too long")), w)
    end).

Definition client_COMMIT : M unit :=
  call PgCommit (fun w => (Ok tt, set_tx (set_db w (view w)) None)).

Definition client_ROLLBACK : M unit :=
  call PgRollback (fun w => (Ok tt, set_tx w None)).

(** [client.release()] hands the client back to the pool as it is: a
    transaction that is still open stays open on it. *)
Definition client_release (w : World) : World := w.

(** [pool.query] reads the committed database. *)
Definition pool_query {A} (ev : Event) (q : Db -> A) : M A :=
  call ev (fun w => (Ok (q (db w)), w)).

Definition pool_query_opt {A} (ev : Event) (q : Db -> option A) : M A :=
  call ev (fun w =>
    match q (db w) with
    | Some a => (Ok a, w)
    | None => (Throw (StatementRejected "invalid LIMIT or OFFSET"), w)
    end).

(** *** The Redis client *)

(** [ensureConnected] (config/redis.ts): the attempt to connect is inside
    a [try] whose [catch] only logs, so a failure of it is not thrown. *)
Definition ensureConnected : M unit :=
  try_catch (call RedisEnsureConnected (ret tt)) (fun _ => ret tt).

Definition redis_get_user_score (now : Z) (userId : string) : M (option Z) :=
  call RedisGet (fun w => (Ok (live now (user_score (redis w) !! userId)), w)).

Definition redis_setEx_user_score (now : Z) (userId : string) (v : Z)
  : M unit :=
  call RedisSetEx (fun w => (Ok tt, set_redis w
    {| user_score := <[userId := (v, now + USER_SCORE_CACHE_TTL * 1000)]>
                       (user_score (redis w));
       leaderboard_top10 := leaderboard_top10 (redis w);
       leaderboard_updates := leaderboard_updates (redis w) |})).

Definition redis_del_user_score (userId : string) : M unit :=
  call RedisDel (fun w => (Ok tt, set_redis w
    {| user_score := delete userId (user_score (redis w));
       leaderboard_top10 := leaderboard_top10 (redis w);
       leaderboard_updates := leaderboard_updates (redis w) |})).

Definition redis_get_top10 (now : Z) : M (option (list LeaderboardEntry)) :=
  call RedisGet (fun w => (Ok (live now (leaderboard_top10 (redis w))), w)).

Definition redis_setEx_top10 (now : Z) (board : list LeaderboardEntry)
  : M unit :=
  call RedisSetEx (fun w => (Ok tt, set_redis w
    {| user_score := user_score (redis w);
       leaderboard_top10 := Some (board, now + LEADERBOARD_CACHE_TTL * 1000);
       leaderboard_updates := leaderboard_updates (redis w) |})).

Definition redis_del_top10 : M unit :=
  call RedisDel (fun w => (Ok tt, set_redis w
    {| user_score := user_score (redis w);
       leaderboard_top10 := None;
       leaderboard_updates := leaderboard_updates (redis w) |})).

Definition redis_publish (m : UpdateMessage) : M unit :=
  call RedisPublish (fun w => (Ok tt, set_redis w
    {| user_score := user_score (redis w);
       leaderboard_top10 := leaderboard_top10 (redis w);
       leaderboard_updates := leaderboard_updates (redis w) ++ [m] |})).

(** *** scoreService.ts *)

(** [rows.length > 0 ? parseInt(rows[0].score, 10) : 0]: the BIGINT of
    the first row comes as its decimal text, and [parseInt] reads the
    double nearest to it. *)
Definition first_score (rows : list Z) : Z :=
  match rows with
  | s :: _ => nearest_double s
  | [] => 0
  end.

(** The cache keeps the text [score.toString()], which [parseInt] reads
    back as [score]; the model keeps the number. *)
Definition getUserScore (now : Z) (userId : string) : M Z :=
  try_catch
    (ensureConnected ;;
     cached <- redis_get_user_score now userId ;;
     match cached with
     | Some c => ret c
     | None =>
         rows <- pool_query PgSelectScore (fun d => select_score d userId) ;;
         let score := first_score rows in
         redis_setEx_user_score now userId score ;;
         ret score
     end)
    (fun error => throw error).

Definition invalidateUserScoreCache (userId : string) : M unit :=
  try_catch (ensureConnected ;; redis_del_user_score userId)
            (fun _ => ret tt).

Definition invalidateLeaderboardCache : M unit :=
  try_catch (ensureConnected ;; redis_del_top10)
            (fun _ => ret tt).

Definition updateScore (now : Z) (userId : string) (scoreIncrement : Z)
    (actionId ipAddress userAgent : option string) : M UpdateScoreResult :=
  pool_connect ;;
  try_finally
    (try_catch
       (client_BEGIN ;;
        currentResult <- client_select_for_update userId ;;
        let currentScore := first_score currentResult in
        let newScore := Number_add currentScore scoreIncrement in
        client_upsert_score userId newScore ;;
        client_insert_history
          {| h_user_id := userId; h_score_increment := scoreIncrement;
             h_previous_score := currentScore; h_new_score := newScore;
             h_action_id := actionId; h_ip_address := ipAddress;
             h_user_agent := userAgent; h_created_at := now |} ;;
        client_COMMIT ;;
        invalidateUserScoreCache userId ;;
        invalidateLeaderboardCache ;;
        ret {| previousScore := currentScore; newScore := newScore |})
       (fun error => client_ROLLBACK ;; throw error))
    client_release.

Definition getUserRank (userId : string) : M Z :=
  try_catch (pool_query PgRank (fun d => rank_query d userId))
            (fun error => throw error).

Definition isUserInTop10 (userId : string) : M bool :=
  try_catch
    (count <- pool_query PgTop10 (fun d => top10_query d userId) ;;
     ret (0 <? count))
    (fun _ => ret false).

(** *** leaderboardService.ts *)

(** [score: parseInt(row.score, 10)] is the double nearest to the BIGINT of
    the row.  [rank: parseInt(row.rank, 10) + offset] adds a row number,
    which does not exceed the number of rows of the table, and an offset
    smaller than it. *)
Definition to_entry (offset : number) (row : BoardRow) : LeaderboardEntry :=
  {| user_id := row_user_id row;
     username := row_username row;
     score := nearest_double (row_score row);
     rank := row_rank row + int_value offset |}.

Definition getTopUsers (now : Z) (limit offset : number)
  : M (list LeaderboardEntry) :=
  try_catch
    (cached <- (if num_eq offset (Int 0)
                then redis_get_top10 now
                else ret None) ;;
     match cached with
     | Some leaderboard => ret (slice0 leaderboard limit)
     | None =>
         rows <- pool_query_opt PgLeaderboard
                   (fun d => leaderboard_query d limit offset) ;;
         let leaderboard := map (to_entry offset) rows in
         (if num_eq offset (Int 0)
          then redis_setEx_top10 now leaderboard
          else ret tt) ;;
         ret leaderboard
     end)
    (fun error => throw error).

Definition getTotalUsers : M Z :=
  try_catch (pool_query PgCount count_query) (fun _ => ret 0).

Definition getLeaderboard (now : Z) (limit offset : number)
    (userId : option string) : M LeaderboardResponse :=
  leaderboard <- getTopUsers now limit offset ;;
  totalUsers <- getTotalUsers ;;
  userRank <-
    match truthy_string userId with
    | Some u =>
        try_catch
          (r <- pool_query PgRank (fun d => rank_query_coalesce d u) ;;
           ret (Some r))
          (fun _ => ret None)
    | None => ret None
    end ;;
  ret {| lr_leaderboard := leaderboard; lr_userRank := userRank;
         lr_totalUsers := totalUsers; lr_lastUpdated := now |}.

(** *** websocketService.ts *)

Definition send_if_open (m : ScoreboardUpdate) (c : WsClient) : WsClient :=
  if ws_open c
  then {| ws_open := ws_open c; ws_sent := ws_sent c ++ [m] |}
  else c.

(** [updatedUserId && leaderboard.userRank ? {...} : null] *)
Definition updated_user (updatedUserId : option string) (userRank : option Z)
  : option (string * Z) :=
  match truthy_string updatedUserId, userRank with
  | Some u, Some r => if r =? 0 then None else Some (u, r)
  | _, _ => None
  end.

Definition broadcastLeaderboardUpdate (now : Z) (updatedUserId : option string)
  : M unit :=
  fun w =>
    match wss w with
    | None => (Ok tt, w)
    | Some _ =>
        try_catch
          (leaderboard <- getLeaderboard now (Int 10) (Int 0) updatedUserId ;;
           let message :=
             {| su_leaderboard := lr_leaderboard leaderboard;
                su_updated_user := updated_user updatedUserId
                                     (lr_userRank leaderboard);
                su_timestamp := now |} in
           fun w1 =>
             (Ok tt, set_wss w1 (map (send_if_open message) <$> wss w1)))
          (fun _ => ret tt) w
    end.

Definition publishLeaderboardUpdate (now : Z) (userId : string) : M unit :=
  try_catch
    (redis_publish {| msg_userId := userId; msg_timestamp := now |})
    (fun _ => ret tt).

(** *** scoreController.ts *)

Definition updateUserScore (now : Z) (req : ScoreRequest)
  : World -> Response ScoreUpdateResponse * World :=
  fun w =>
    match req_user req with
    | None => (Failure 401 "UNAUTHORIZED" "User not authenticated", w)
    | Some user =>
        let userId := userId user in
        match validateScoreUpdateRequest now (body_score_increment req)
                (body_timestamp req) with
        | Throw error =>
            (Failure 400 "INVALID_REQUEST" (error_message error), w)
        | Ok _ =>
            match
              (r <- updateScore now userId
                     (int_value (body_score_increment req))
                     (body_action_id req) (req_ip req) (req_user_agent req) ;;
               rank <- getUserRank userId ;;
               inTop10 <- isUserInTop10 userId ;;
               (if inTop10 : bool
                then broadcastLeaderboardUpdate now (Some userId) ;;
                     publishLeaderboardUpdate now userId
                else ret tt) ;;
               ret {| sur_user_id := userId;
                      sur_previous_score := previousScore r;
                      sur_new_score := newScore r;
                      sur_rank := rank;
                      sur_is_top_10 := inTop10 |}) w
            with
            | (Ok data, w1) => (Success data, w1)
            | (Throw _, w1) =>
                (Failure 500 "INTERNAL_ERROR"
                   "An error occurred while updating the score", w1)
            end
        end
    end.

(** *** leaderboardController.ts *)

Definition getLeaderboardData (now : Z) (req : LeaderboardRequest)
  : World -> Response LeaderboardResponse * World :=
  fun w =>
    let limit := parseInt (or_default (query_limit req) "10") in
    let offset := parseInt (or_default (query_offset req) "0") in
    let userId := truthy_string (userId <$> lreq_user req) in
    if num_lt limit (Int 1) || num_gt limit (Int 100)
    then (Failure 400 "INVALID_REQUEST" "Limit must be between 1 and 100", w)
    else
      match getLeaderboard now limit offset userId w with
      | (Ok data, w1) => (Success data, w1)
      | (Throw _, w1) =>
          (Failure 500 "INTERNAL_ERROR"
             "An error occurred while fetching the leaderboard", w1)
      end.

End Service.

Arguments call fault {A} ev op w /.

(** * The rest of the service: the score read endpoint, authentication,
      the observers' registry and the cross-process relay *)

(** ** [String.prototype.split(' ')] *)

(** The pieces between the spaces, empty pieces included; the empty string
    splits into one empty piece. *)
Fixpoint split_space (s : string) : list string :=
  match s with
  | EmptyString => [""]
  | String c r =>
      if Ascii.eqb c " "%char then "" :: split_space r
      else
        match split_space r with
        | h :: t => String c h :: t
        | [] => [String c ""]
        end
  end.

(** [authHeader && authHeader.split(' ')[1]]: [None] is [undefined]. *)
Definition second_word (authHeader : option string) : option string :=
  match authHeader with
  | Some h => if String.eqb h "" then Some "" else split_space h !! 1%nat
  | None => None
  end.

(** What a middleware does with a request: it answers, or it calls
    [next()] with the user it attached to the request, if any. *)
Inductive Middleware : Type :=
| Respond (status : Z) (code : string) (message : string)
| Next (user : option UserPayload).

(** The record [getUserScoreInfo] answers with. *)
Record ScoreInfo : Type := {
  si_user_id : string;
  si_score : Z;
  si_rank : Z
}.

(** The statistics of [getConnectionStats]. *)
Record ConnectionStats : Type := {
  totalConnections : nat;
  uniqueUsers : nat;
  maxConnections : Z
}.

(** How [handleConnection] leaves a socket: closed with a code and a
    reason, or attached, with the initial leaderboard message it was sent
    (none when fetching the leaderboard failed); or as it found it, when
    the handler throws before it has looked at the token. *)
Inductive Handshake : Type :=
| Refused (code : Z) (reason : string)
| Attached (user : string) (initial : option LeaderboardResponse)
| Unhandled.

(** [connections]: userId -> set of sockets, a socket being known by its
    identity. *)
Abbreviation Registry := (gmap string (gset nat)).

(** [connections.get(userId).add(ws)], after [connections.set(userId, new
    Set())] for a user that has no entry. *)
Definition registry_add (userId : string) (ws : nat) (conns : Registry)
  : Registry :=
  <[userId := {[ws]} ∪ default ∅ (conns !! userId)]> conns.

(** The [close] handler of a socket. *)
Definition on_close (userId : string) (ws : nat) (conns : Registry)
  : Registry :=
  match conns !! userId with
  | Some userConnections =>
      let remaining := userConnections ∖ {[ws]} in
      if (size remaining =? 0)%nat then delete userId conns
      else <[userId := remaining]> conns
  | None => conns
  end.

(** [getConnectionStats]: [maxConnections] is WS_MAX_CONNECTIONS, read
    from the environment. *)
Definition getConnectionStats (WS_MAX_CONNECTIONS : Z) (conns : Registry)
  : ConnectionStats :=
  {| totalConnections :=
       map_fold (fun _ connSet total => (total + size connSet)%nat) 0%nat conns;
     uniqueUsers := size conns;
     maxConnections := WS_MAX_CONNECTIONS |}.

Section Routes.

Variable fault : nat -> bool.

(** [jwt.verify(token, secret)]: the payload of a token that the library
    accepts, [None] for one it rejects.  Given a callback and a secret that
    is a string, the library calls back before it returns. *)
Variable verify : string -> option UserPayload.

(** *** auth.ts *)

Definition authenticateToken (authorization : option string) : Middleware :=
  let token := second_word authorization in
  match truthy_string token with
  | None => Respond 401 "UNAUTHORIZED" "Authentication token required"
  | Some t =>
      match verify t with
      | None => Respond 401 "UNAUTHORIZED" "Invalid or expired token"
      | Some payload =>
          Next (Some {| userId := userId payload;
                        payload_username := payload_username payload |})
      end
  end.

Definition optionalAuth (authorization : option string) : Middleware :=
  let token := second_word authorization in
  match truthy_string token with
  | Some t =>
      match verify t with
      | Some payload =>
          Next (Some {| userId := userId payload;
                        payload_username := payload_username payload |})
      | None => Next None
      end
  | None => Next None
  end.

(** *** scoreController.ts: getUserScoreInfo *)

Definition getUserScoreInfo (now : Z) (user : option UserPayload)
  : World -> Response ScoreInfo * World :=
  fun w =>
    match user with
    | None => (Failure 401 "UNAUTHORIZED" "User not authenticated", w)
    | Some user =>
        let userId := userId user in
        match
          (score <- getUserScore fault now userId ;;
           rank <- getUserRank fault userId ;;
           ret {| si_user_id := userId; si_score := score; si_rank := rank |}) w
        with
        | (Ok data, w1) => (Success data, w1)
        | (Throw _, w1) =>
            (Failure 500 "INTERNAL_ERROR"
               "An error occurred while fetching the score", w1)
        end
    end.

(** *** The routes that need no other middleware

    [router.get('/me', authenticateToken, getUserScoreInfo)] and
    [router.get('/', optionalAuth, getLeaderboardData)]. *)

Definition route_scores_me (now : Z) (authorization : option string)
  : World -> Response ScoreInfo * World :=
  fun w =>
    match authenticateToken authorization with
    | Respond status code message => (Failure status code message, w)
    | Next user => getUserScoreInfo now user w
    end.

Definition route_leaderboard (now : Z) (authorization : option string)
    (limit offset : option string)
  : World -> Response LeaderboardResponse * World :=
  fun w =>
    match optionalAuth authorization with
    | Respond status code message => (Failure status code message, w)
    | Next user =>
        getLeaderboardData fault now
          {| lreq_user := user; query_limit := limit; query_offset := offset |}
          w
    end.

(** *** websocketService.ts: the handshake and the relay *)

(** [url.searchParams.get('token') || req.headers.authorization?.split(' ')[1]] *)
Definition connection_token (queryToken authorization : option string)
  : option string :=
  match truthy_string queryToken with
  | Some t => Some t
  | None =>
      match authorization with
      | Some h => split_space h !! 1%nat
      | None => None
      end
  end.

(** [url] is what [new URL(req.url || '', `http://${req.headers.host}`)]
    gives: [None] when the constructor throws (it is outside every [try]),
    otherwise the value of the query parameter [token]. *)
Definition handleConnection (now : Z) (ws : nat)
    (url : option (option string)) (authorization : option string)
    (conns : Registry)
  : World -> Handshake * Registry * World :=
  fun w =>
    match url with
    | None => (Unhandled, conns, w)
    | Some queryToken =>
        match truthy_string (connection_token queryToken authorization) with
        | None => (Refused 1008 "Authentication required", conns, w)
        | Some token =>
            match verify token with
            | None => (Refused 1008 "Invalid token", conns, w)
            | Some decoded =>
                let userId := userId decoded in
                let conns1 := registry_add userId ws conns in
                match getLeaderboard fault now (Int 10) (Int 0) (Some userId) w
                with
                | (Ok leaderboard, w1) =>
                    (Attached userId (Some leaderboard), conns1, w1)
                | (Throw _, w1) => (Attached userId None, conns1, w1)
                end
            end
        end
    end.

(** The handler of the Redis subscriber.  [message] is the published
    JSON text, read back by [JSON.parse]: [None] when it does not parse. *)
Definition messageHandler (now : Z) (message : option UpdateMessage)
    (channel : string) : M unit :=
  if String.eqb channel "leaderboard:updates" then
    match message with
    | Some data => broadcastLeaderboardUpdate fault now (Some (msg_userId data))
    | None => ret tt
    end
  else ret tt.

End Routes.

(** * Vocabulary of the properties *)

(** ** Frames *)

(** A projection [f] of the state that a computation leaves as it found it. *)
Definition keeps {X A} (f : World -> X) (m : M A) : Prop :=
  forall w r w', m w = (r, w') -> f w' = f w.

(** Projections that do not read the trace. *)
Definition untraced {X} (f : World -> X) : Prop :=
  forall w ev, f (log_event w ev) = f w.

(** The functions that read the leaderboard write the cache and nothing
    else: they keep every projection that reads neither the trace nor
    Redis's cache keys. *)
Definition uncached {X} (f : World -> X) : Prop :=
  forall w r, leaderboard_updates r = leaderboard_updates (redis w) ->
              f (set_redis w r) = f w.

(** The local broadcast writes the cache and the observers' sockets. *)
Definition unobserved {X} (f : World -> X) : Prop :=
  forall w s, f (set_wss w s) = f w.

(** ** The mutation *)

(** The parameters of the INSERT into [score_history] that [updateScore]
    makes for a participant at the score [s]. *)
Definition history_params (now : Z) (u : string) (i s : Z)
    (a ip ua : option string) : HistoryRow :=
  {| h_user_id := u; h_score_increment := i; h_previous_score := s;
     h_new_score := Number_add s i; h_action_id := a; h_ip_address := ip;
     h_user_agent := ua; h_created_at := now |}.

(** The audit entry of an update from the score [s] by the increment [i]:
    the new score is their sum, and the texts are kept as their columns
    keep them. *)
Definition audit_row (now : Z) (u : string) (i s : Z) (a ip ua : option string)
  : HistoryRow :=
  {| h_user_id := u; h_score_increment := i; h_previous_score := s;
     h_new_score := s + i; h_action_id := VARCHAR_keeps 255 a;
     h_ip_address := VARCHAR_keeps 45 ip;
     h_user_agent := ua; h_created_at := now |}.

(** The score of a participant as the service reads it from the store; 0
    without a record. *)
Definition current_score (d : Db) (u : string) : Z :=
  first_score (select_score d u).

(** [Number.MAX_SAFE_INTEGER] and the safe integers: each of them is a
    double, and so is a sum of two of them that is safe. *)
Definition MAX_SAFE_INTEGER : Z := 2 ^ 53 - 1.

Definition safe_integer (z : Z) : Prop :=
  - MAX_SAFE_INTEGER <= z <= MAX_SAFE_INTEGER.

(** A participant whose score, raised by any valid increment, is a safe
    integer. *)
Definition safe_score (d : Db) (u : string) : Prop :=
  - MAX_SAFE_INTEGER <= current_score d u <= MAX_SAFE_INTEGER - 1000.

(** The same, of the participant of a request. *)
Definition safe_request (d : Db) (req : ScoreRequest) : Prop :=
  forall user, req_user req = Some user -> safe_score d (userId user).

(** The value fits the INT column [score_increment]. *)
Definition fits_int (z : Z) : Prop := - 2 ^ 31 <= z < 2 ^ 31.

(** No two score rows have the same score: [ORDER BY score DESC] on
    [scores] then has one answer. *)
Definition untied_scores (d : Db) : Prop := NoDup (map snd (scores d)).

(** No two rows of the leaderboard query have the same score. *)
Definition untied (d : Db) : Prop :=
  NoDup (map (fun r => snd r) (join_users d)).

(** A score [s] and an increment [i] that are added without rounding and
    fit the columns of the audit entry. *)
Definition storable (s i : Z) : Prop :=
  safe_integer s /\ fits_int i /\ safe_integer (s + i).


(** The failure path of [updateScore] ended with ROLLBACK, and no
    transaction is left open unless that call itself failed. *)
Definition rolled_back (fault : nat -> bool) (w' : World) : Prop :=
  exists tr, trace w' = tr ++ [PgRollback] /\
             (fault (length tr) = false -> tx w' = None).

(** One of the [n] calls made from the state [w] on is made to fail. *)
Definition some_call_fails (fault : nat -> bool) (w : World) (n : nat) : Prop :=
  exists j, (j < n)%nat /\ fault (length (trace w) + j)%nat = true.

(** Redis after [publish] went through. *)
Definition published (r : Redis) (m : UpdateMessage) : Redis :=
  {| user_score := user_score r;
     leaderboard_top10 := leaderboard_top10 r;
     leaderboard_updates := leaderboard_updates r ++ [m] |}.

(** The number [x] is the integer [i]. *)
Definition denotes (x : number) (i : Z) : Prop :=
  match x with
  | Fin n d => n = i * Z.pos d
  | _ => False
  end.

(** The first test of [validateScoreUpdateRequest]. *)
Definition increment_rejected (x : number) : bool :=
  negb (Number_isInteger x) || num_lt x (Int 1) || num_gt x (Int 1000).

(** ** Scenarios *)

(** A store and a cache that answer every call. *)
Definition no_fault : nat -> bool := fun _ => false.

(** No key cached, nothing published. *)
Definition empty_redis : Redis :=
  {| user_score := ∅; leaderboard_top10 := None; leaderboard_updates := [] |}.

(** The service at rest on the database [d]: no transaction open, a cold
    cache, the WebSocket server not started, no call made yet. *)
Definition idle (d : Db) : World :=
  {| db := d; tx := None; redis := empty_redis; wss := None; trace := [] |}.

(** Four registered participants with the scores 500, 450, 150 and 100. *)
Definition four_players : Db :=
  {| users := [("u1", "ann"); ("u2", "bob"); ("u3", "cat"); ("u4", "dan")];
     scores := [("u1", 500); ("u2", 450); ("u3", 150); ("u4", 100)];
     score_history := [] |}.

(** A reading of [Date.now()]. *)
Definition server_time : Z := 1700000000000.

(** One registered participant, with the score [s]. *)
Definition lone_player (s : Z) : Db :=
  {| users := [("u1", "ann")]; scores := [("u1", s)]; score_history := [] |}.

(** The mutation request of the authenticated participant [u]. *)
Definition request_of (u : string) (inc : number) (ts : option Z)
  : ScoreRequest :=
  {| req_user := Some {| userId := u; payload_username := u |};
     body_score_increment := inc;
     body_action_id := Some "action-1";
     body_timestamp := ts;
     req_ip := Some "127.0.0.1";
     req_user_agent := Some "jest" |}.

(** Eleven registered participants; [p11] is the last of them. *)
Definition eleven_players : Db :=
  {| users := [("p01", "a"); ("p02", "b"); ("p03", "c"); ("p04", "d");
               ("p05", "e"); ("p06", "f"); ("p07", "g"); ("p08", "h");
               ("p09", "i"); ("p10", "j"); ("p11", "k")];
     scores := [("p01", 1100); ("p02", 1000); ("p03", 900); ("p04", 800);
                ("p05", 700); ("p06", 600); ("p07", 500); ("p08", 400);
                ("p09", 300); ("p10", 200); ("p11", 1)];
     score_history := [] |}.

(** ** Ranking *)

(** A list of scores in descending order. *)
Definition sorted_desc (l : list Z) : Prop :=
  forall i j a b, (i < j)%nat -> l !! i = Some a -> l !! j = Some b -> b <= a.

(** The cache holds only descending snapshots. *)
Definition cache_sorted (r : Redis) : Prop :=
  forall snapshot expiry,
    leaderboard_top10 r = Some (snapshot, expiry) ->
    sorted_desc (map score snapshot).

(** The same, of a state of the service. *)
Definition cache_ok (w : World) : Prop := cache_sorted (redis w).

(** A property of the state that a computation preserves, whatever it
    returns or throws. *)
Definition maintains {A} (P : World -> Prop) (m : M A) : Prop :=
  forall w r w', P w -> m w = (r, w') -> P w'.

(** The number of participants whose score is strictly greater than [s]. *)
Definition strictly_greater (d : Db) (s : Z) : Z :=
  Z.of_nat (length (List.filter (fun r => s <? snd r) (scores d))).

(** ** Well-formed databases *)

(** The constraints and consistency conditions of the three tables: one
    score row per participant at most, every score row and every audit
    entry of a registered user, every audit entry with a score row of its
    participant, and every audit entry with
    [new_score = previous_score + score_increment]. *)
Record db_wf (d : Db) : Prop := {
  wf_unique : NoDup (map fst (scores d));
  wf_scores_fk : forall u s, (u, s) ∈ scores d -> registered d u = true;
  wf_history_fk : forall e, e ∈ score_history d ->
                            registered d (h_user_id e) = true;
  wf_history_row : forall e, e ∈ score_history d ->
                             h_user_id e ∈ map fst (scores d);
  wf_history_sum : forall e, e ∈ score_history d ->
                             h_new_score e = h_previous_score e + h_score_increment e
}.

(** ** A token verifier for the scenarios *)

(** Accepts the one token ["good"], issued to the participant [u3]. *)
Definition toy_verify (t : string) : option UserPayload :=
  if String.eqb t "good"
  then Some {| userId := "u3"; payload_username := "cat" |}
  else None.

(** ** The observers' registry *)

(** No user is registered with an empty set of sockets. *)
Definition registry_ok (conns : gmap string (gset nat)) : Prop :=
  forall u s, conns !! u = Some s -> s <> ∅.

(** The number of sockets in the registry. *)
Definition registry_total (conns : gmap string (gset nat)) : nat :=
  map_fold (fun _ connSet total => (total + size connSet)%nat) 0%nat conns.

(** ** Listings *)

(** The ranking of the store: the score rows joined with their users, in
    descending order of score, each with its score as the service reads
    it. *)
Definition ranking (d : Db) : list (string * string * Z) :=
  map (fun r => (fst r, nearest_double (snd r)))
      (order_desc (fun r => snd r) (join_users d)).

(** Who an entry lists, and with which score. *)
Definition listed (e : LeaderboardEntry) : string * string * Z :=
  (user_id e, username e, score e).

(** A cached snapshot, if there is one, lists the first ten of the ranking
    of the committed database. *)
Definition cache_fresh (w : World) : Prop :=
  forall snapshot expiry,
    leaderboard_top10 (redis w) = Some (snapshot, expiry) ->
    map listed snapshot = take 10 (ranking (db w)).

(** What a reader of the first ten is shown at the time [now]: the
    snapshot of the cache cut to ten entries while there is a live one,
    whatever it lists; the first ten of the ranking of the store
    otherwise, when the store has no tied scores. *)
Definition shown_top10 (now : Z) (w : World) (board : list LeaderboardEntry)
  : Prop :=
  match live now (leaderboard_top10 (redis w)) with
  | Some snapshot => board = slice0 snapshot (Int 10)
  | None => untied (db w) -> map listed board = take 10 (ranking (db w))
  end.

(** ** Observers *)

(** Two observers, the second of which has gone away. *)
Definition two_clients : list WsClient :=
  [ {| ws_open := true; ws_sent := [] |};
    {| ws_open := false; ws_sent := [] |} ].

(** ** Headers *)

(** The string has a space in it. *)
Fixpoint has_space (s : string) : bool :=
  match s with
  | EmptyString => false
  | String c r => Ascii.eqb c " "%char || has_space r
  end.

(** The score [getUserScore] reports: the cached value while it is live,
    the value of the store otherwise. *)
Definition reported_score (now : Z) (w : World) (u : string) : Z :=
  default (current_score (db w) u) (live now (user_score (redis w) !! u)).


(** ** Validation *)

(** The number is an integer of 1..1000. *)
Definition good_increment (x : number) : Prop :=
  exists i, 1 <= i <= 1000 /\ denotes x i.

(** A number that [toString] prints in plain decimal notation, so that
    [parseInt] reads it back. *)
Definition plain_decimal (t : Z) : Prop := Z.abs t < 10 ^ 21.

(** The timestamp lies within five minutes of the server time. *)
Definition in_window (now t : Z) : Prop :=
  now - maxTimeDiff <= t <= now + maxTimeDiff.
(** * Properties *)

(** ** Laws of the computations *)

Lemma bind_ok_inv {A B} (m : M A) (k : A -> M B) w b w' :
  bind m k w = (Ok b, w') ->
  exists a w1, m w = (Ok a, w1) /\ k a w1 = (Ok b, w').
Proof.
  unfold bind. destruct (m w) as [[a|e] w1]; intros H.
  - exists a, w1. split; [reflexivity | exact H].
  - discriminate H.
Qed.

Lemma bind_throw_inv {A B} (m : M A) (k : A -> M B) w e w' :
  bind m k w = (Throw e, w') ->
  m w = (Throw e, w') \/
  exists a w1, m w = (Ok a, w1) /\ k a w1 = (Throw e, w').
Proof.
  unfold bind. destruct (m w) as [[a|e0] w1]; intros H.
  - right. exists a, w1. split; [reflexivity | exact H].
  - left. inversion H; subst. reflexivity.
Qed.

Lemma rethrow_id {A} (m : M A) w :
  try_catch m (fun error => throw error) w = m w.
Proof. unfold try_catch, throw. destruct (m w) as [[a|e] w1]; reflexivity. Qed.

Lemma keeps_ret {X A} (f : World -> X) (a : A) : keeps f (ret a).
Proof. intros w r w' H. inversion H. reflexivity. Qed.

Lemma keeps_throw {X A} (f : World -> X) e : keeps f (@throw A e).
Proof. intros w r w' H. inversion H. reflexivity. Qed.

Lemma keeps_bind {X A B} (f : World -> X) (m : M A) (k : A -> M B) :
  keeps f m -> (forall a, keeps f (k a)) -> keeps f (bind m k).
Proof.
  intros Hm Hk w r w'. unfold bind.
  destruct (m w) as [[a|e] w1] eqn:E; intros H.
  - rewrite (Hk a _ _ _ H). eapply Hm, E.
  - inversion H; subst. eapply Hm, E.
Qed.

Lemma keeps_try_catch {X A} (f : World -> X) (m : M A) h :
  keeps f m -> (forall e, keeps f (h e)) -> keeps f (try_catch m h).
Proof.
  intros Hm Hh w r w'. unfold try_catch.
  destruct (m w) as [[a|e] w1] eqn:E; intros H.
  - inversion H; subst. eapply Hm, E.
  - rewrite (Hh e _ _ _ H). eapply Hm, E.
Qed.

Lemma keeps_call {X A} fault (f : World -> X) ev (op : M A) :
  untraced f -> keeps f op -> keeps f (call fault ev op).
Proof.
  intros Hu Hop w r w'. unfold call.
  destruct (fault _); intros H.
  - inversion H; subst. apply Hu.
  - rewrite (Hop _ _ _ H). apply Hu.
Qed.

Lemma keeps_if {X A} (f : World -> X) (b : bool) (m1 m2 : M A) :
  keeps f m1 -> keeps f m2 -> keeps f (if b then m1 else m2).
Proof. destruct b; auto. Qed.

Lemma untraced_db : untraced db.
Proof. intros w ev. reflexivity. Qed.

Lemma untraced_tx : untraced tx.
Proof. intros w ev. reflexivity. Qed.

Lemma untraced_updates : untraced (fun w => leaderboard_updates (redis w)).
Proof. intros w ev. reflexivity. Qed.

Lemma untraced_redis : untraced redis.
Proof. intros w ev. reflexivity. Qed.

Create HintDb keeps_db discriminated.
#[local] Hint Resolve keeps_ret keeps_throw keeps_bind keeps_try_catch
  keeps_call keeps_if untraced_db untraced_tx untraced_updates untraced_redis : keeps_db.

Ltac keeps_prim :=
  let H := fresh "H" in
  intros ? ? ? H; inversion H; subst; reflexivity.

Ltac keeps_step :=
  first
    [ apply keeps_ret | apply keeps_throw
    | apply keeps_bind; [| intros ?]
    | apply keeps_try_catch; [| intros ?]
    | apply keeps_if
    | apply keeps_call; [auto with keeps_db | ]
    | keeps_prim ].

Ltac keeps_tac := repeat keeps_step.

Lemma getUserRank_keeps_db fault u : keeps db (getUserRank fault u).
Proof. unfold getUserRank, pool_query. keeps_tac. Qed.

Lemma isUserInTop10_keeps {X} (f : World -> X) fault u :
  untraced f -> keeps f (isUserInTop10 fault u).
Proof. intros Hu. unfold isUserInTop10, pool_query. keeps_tac. Qed.

Lemma getUserRank_keeps {X} (f : World -> X) fault u :
  untraced f -> keeps f (getUserRank fault u).
Proof. intros Hu. unfold getUserRank, pool_query. keeps_tac. Qed.

Lemma getTotalUsers_keeps {X} (f : World -> X) fault :
  untraced f -> keeps f (getTotalUsers fault).
Proof. intros Hu. unfold getTotalUsers, pool_query. keeps_tac. Qed.

Lemma uncached_db : uncached db.
Proof. intros w r _. reflexivity. Qed.

Lemma uncached_tx : uncached tx.
Proof. intros w r _. reflexivity. Qed.

Lemma uncached_wss : uncached wss.
Proof. intros w r _. reflexivity. Qed.

Lemma untraced_wss : untraced wss.
Proof. intros w ev. reflexivity. Qed.

Lemma uncached_updates : uncached (fun w => leaderboard_updates (redis w)).
Proof. intros w r H. exact H. Qed.

#[local] Hint Resolve uncached_db uncached_tx uncached_updates uncached_wss
  untraced_wss : keeps_db.

Lemma keeps_set_redis {X} (f : World -> X) (g : World -> Redis) :
  uncached f ->
  (forall w, leaderboard_updates (g w) = leaderboard_updates (redis w)) ->
  keeps f (fun w => (Ok tt, set_redis w (g w))).
Proof.
  intros Hc Hg w r w' H. inversion H; subst. apply Hc, Hg.
Qed.

Ltac keeps_redis :=
  apply keeps_set_redis; [auto with keeps_db | intros ?; reflexivity].

Lemma getTopUsers_keeps {X} (f : World -> X) fault now limit offset :
  untraced f -> uncached f -> keeps f (getTopUsers fault now limit offset).
Proof.
  intros Hu Hc. unfold getTopUsers, redis_get_top10, redis_setEx_top10,
    pool_query_opt.
  apply keeps_try_catch; [| intros ?; apply keeps_throw].
  apply keeps_bind.
  - apply keeps_if; [| apply keeps_ret].
    apply keeps_call; [exact Hu | keeps_prim].
  - intros [board|]; [apply keeps_ret |].
    apply keeps_bind.
    + apply keeps_call; [exact Hu |].
      intros w r w'. destruct (leaderboard_query _ _ _);
        intros H; inversion H; subst; reflexivity.
    + intros rows. apply keeps_bind; [| intros ?; apply keeps_ret].
      apply keeps_if; [| apply keeps_ret].
      apply keeps_call; [exact Hu | keeps_redis].
Qed.

Lemma getLeaderboard_keeps {X} (f : World -> X) fault now limit offset u :
  untraced f -> uncached f -> keeps f (getLeaderboard fault now limit offset u).
Proof.
  intros Hu Hc. unfold getLeaderboard.
  apply keeps_bind; [apply getTopUsers_keeps; assumption | intros board].
  apply keeps_bind; [apply getTotalUsers_keeps; assumption | intros total].
  apply keeps_bind; [| intros ?; apply keeps_ret].
  destruct (truthy_string u); [| apply keeps_ret].
  unfold pool_query. keeps_tac.
Qed.

(** [ensureConnected] returns whatever the attempt to connect did. *)
Lemma ensureConnected_run fault w :
  ensureConnected fault w = (Ok tt, log_event w RedisEnsureConnected).
Proof.
  unfold ensureConnected, try_catch, call, ret.
  destruct (fault _); reflexivity.
Qed.

Lemma ensureConnected_keeps {X} (f : World -> X) fault :
  untraced f -> keeps f (ensureConnected fault).
Proof.
  intros Hu w r w' H. rewrite ensureConnected_run in H.
  inversion H; subst. apply Hu.
Qed.

Lemma invalidateUserScoreCache_keeps {X} (f : World -> X) fault u :
  untraced f -> uncached f -> keeps f (invalidateUserScoreCache fault u).
Proof.
  intros Hu Hc. unfold invalidateUserScoreCache, redis_del_user_score.
  apply keeps_try_catch; [| intros ?; apply keeps_ret].
  apply keeps_bind; [apply ensureConnected_keeps; exact Hu | intros _].
  apply keeps_call; [exact Hu | keeps_redis].
Qed.

Lemma invalidateLeaderboardCache_keeps {X} (f : World -> X) fault :
  untraced f -> uncached f -> keeps f (invalidateLeaderboardCache fault).
Proof.
  intros Hu Hc. unfold invalidateLeaderboardCache, redis_del_top10.
  apply keeps_try_catch; [| intros ?; apply keeps_ret].
  apply keeps_bind; [apply ensureConnected_keeps; exact Hu | intros _].
  apply keeps_call; [exact Hu | keeps_redis].
Qed.

Lemma unobserved_db : unobserved db.
Proof. intros w s. reflexivity. Qed.

Lemma unobserved_tx : unobserved tx.
Proof. intros w s. reflexivity. Qed.

Lemma unobserved_updates : unobserved (fun w => leaderboard_updates (redis w)).
Proof. intros w s. reflexivity. Qed.

#[local] Hint Resolve unobserved_db unobserved_tx unobserved_updates : keeps_db.

Lemma broadcastLeaderboardUpdate_keeps {X} (f : World -> X) fault now u :
  untraced f -> uncached f -> unobserved f ->
  keeps f (broadcastLeaderboardUpdate fault now u).
Proof.
  intros Hu Hc Ho w r w'. unfold broadcastLeaderboardUpdate.
  destruct (wss w); [| intros H; inversion H; reflexivity].
  revert w r w'. change (keeps f
    (try_catch
       (leaderboard <- getLeaderboard fault now (Int 10) (Int 0) u ;;
        (fun w1 => (Ok tt, set_wss w1 (map (send_if_open
           {| su_leaderboard := lr_leaderboard leaderboard;
              su_updated_user := updated_user u (lr_userRank leaderboard);
              su_timestamp := now |}) <$> wss w1))))
       (fun _ => ret tt))).
  apply keeps_try_catch; [| intros ?; apply keeps_ret].
  apply keeps_bind; [apply getLeaderboard_keeps; assumption | intros lb].
  intros w r w' H. inversion H; subst. apply Ho.
Qed.

(** ** The two writes of a mutation *)

Lemma select_score_absent d u :
  existsb (fun r => String.eqb (fst r) u) (scores d) = false ->
  select_score d u = [].
Proof.
  unfold select_score. induction (scores d) as [|[k v] l IH]; cbn;
    [reflexivity|].
  destruct (String.eqb k u); cbn; [discriminate | exact IH].
Qed.

Lemma upsert_score_Some d u v d1 :
  upsert_score d u v = Some d1 ->
  BIGINT_takes v = true /\ registered d u = true /\
  d1 = with_scores d
         (if existsb (fun r => String.eqb (fst r) u) (scores d)
          then map (fun r => if String.eqb (fst r) u then (fst r, v) else r)
                   (scores d)
          else scores d ++ [(u, v)]).
Proof.
  unfold upsert_score.
  destruct (BIGINT_takes v); [| discriminate].
  destruct (registered d u); [| discriminate].
  intros H. inversion H; subst. auto.
Qed.

Lemma upsert_score_inv d u v d1 :
  upsert_score d u v = Some d1 ->
  registered d u = true /\ users d1 = users d /\
  score_history d1 = score_history d /\
  first_score (select_score d1 u) = nearest_double v.
Proof.
  intros H. apply upsert_score_Some in H as (_ & Hr & ->). cbn.
  repeat split; [exact Hr|].
  destruct (existsb _ (scores d)) eqn:E; unfold select_score; cbn.
  - induction (scores d) as [|[k x] l IH]; cbn in *; [discriminate|].
    destruct (String.eqb k u) eqn:Ek; cbn.
    + rewrite Ek. reflexivity.
    + rewrite Ek. apply IH. exact E.
  - rewrite List.filter_app, map_app. cbn. rewrite String.eqb_refl. cbn.
    pose proof (select_score_absent d u E) as Hs. unfold select_score in Hs.
    rewrite Hs. reflexivity.
Qed.

Lemma insert_history_inv d row d1 :
  insert_history d row = Some d1 ->
  users d1 = users d /\ scores d1 = scores d /\
  score_history d1 = score_history d ++ [history_keeps row].
Proof.
  unfold insert_history.
  destruct (history_takes row && registered d (h_user_id row));
    [| discriminate].
  intros H. inversion H; subst. repeat split.
Qed.

Lemma insert_history_None d row :
  insert_history d row = None ->
  history_takes row = false \/ registered d (h_user_id row) = false.
Proof.
  unfold insert_history.
  destruct (history_takes row); [| auto].
  destruct (registered d (h_user_id row)); [discriminate | auto].
Qed.

Lemma upsert_score_None d u v :
  upsert_score d u v = None ->
  BIGINT_takes v = false \/ registered d u = false.
Proof.
  unfold upsert_score.
  destruct (BIGINT_takes v); [| auto].
  destruct (registered d u); [discriminate | auto].
Qed.

(** ** Safe integers *)

Lemma nearest_double_safe z : safe_integer z -> nearest_double z = z.
Proof.
  unfold safe_integer, MAX_SAFE_INTEGER, nearest_double. intros H.
  assert (E : (Z.abs z <? 2 ^ 53) = true) by (apply Z.ltb_lt; lia).
  rewrite E. reflexivity.
Qed.

Lemma Number_add_safe s i : safe_integer (s + i) -> Number_add s i = s + i.
Proof. apply nearest_double_safe. Qed.




Lemma safe_score_storable d u i :
  safe_score d u -> 1 <= i <= 1000 -> storable (current_score d u) i.
Proof.
  unfold safe_score, storable, safe_integer, fits_int, MAX_SAFE_INTEGER.
  intros H Hi. lia.
Qed.

Lemma history_keeps_params now u i s a ip ua :
  safe_integer (s + i) ->
  history_keeps (history_params now u i s a ip ua) =
  audit_row now u i s a ip ua.
Proof.
  intros H. unfold history_keeps, history_params, audit_row. cbn.
  rewrite (Number_add_safe _ _ H). reflexivity.
Qed.

(** ** updateScore: the unit of work *)

Lemma trace_pos w ev :
  length (trace w ++ ev) = (length (trace w) + length ev)%nat.
Proof. apply length_app. Qed.

Lemma history_rejected_upsert d u v row :
  upsert_score d u v = None -> h_new_score row = v ->
  registered d u = false \/ history_takes row = false.
Proof.
  intros H Hv. destruct (upsert_score_None _ _ _ H) as [Hb | Hr]; [| auto].
  right. unfold history_takes. rewrite Hv, Hb.
  rewrite andb_false_r. reflexivity.
Qed.

Lemma history_rejected_insert d u v d1 row :
  upsert_score d u v = Some d1 -> h_user_id row = u ->
  insert_history d1 row = None ->
  registered d u = false \/ history_takes row = false.
Proof.
  intros Hup Hu H.
  destruct (upsert_score_inv _ _ _ _ Hup) as (Hr & Hus & _).
  destruct (insert_history_None _ _ H) as [Ht | Hreg]; [auto|].
  unfold registered in *. rewrite Hu, Hus, Hr in Hreg. discriminate.
Qed.

Lemma updateScore_spec fault now u i a ip ua w r w' :
  tx w = None ->
  updateScore fault now u i a ip ua w = (r, w') ->
  let s := current_score (db w) u in
  wss w' = wss w /\
  leaderboard_updates (redis w') = leaderboard_updates (redis w) /\
  match r with
  | Ok res =>
      tx w' = None /\
      res = {| previousScore := s; newScore := Number_add s i |} /\
      (forall j, (j < 6)%nat -> fault (length (trace w) + j)%nat = false) /\
      exists d1, upsert_score (db w) u (Number_add s i) = Some d1 /\
                 insert_history d1 (history_params now u i s a ip ua)
                 = Some (db w')
  | Throw _ =>
      db w' = db w /\
      (some_call_fails fault w 6 \/ registered (db w) u = false \/
       history_takes (history_params now u i s a ip ua) = false) /\
      (fault (length (trace w) + 0)%nat = true /\ tx w' = None \/
       rolled_back fault w')
  end.
Proof.
  intros Htx. unfold current_score, history_params, updateScore, pool_connect,
    client_BEGIN,
    client_select_for_update, client_upsert_score, client_insert_history,
    client_COMMIT, client_ROLLBACK, invalidateUserScoreCache,
    invalidateLeaderboardCache, ensureConnected, redis_del_user_score,
    redis_del_top10, try_finally, try_catch, bind, ret, throw, call,
    client_release, view, write, some_call_fails, rolled_back.
  cbn. rewrite <- ?app_assoc. cbn [app]. rewrite ?trace_pos. cbn [length].
  replace (fault (length (trace w))) with (fault (length (trace w) + 0)%nat)
    by (f_equal; lia).
  repeat (match goal with
          | |- context [tx w] => rewrite Htx
          | |- context [fault (length (trace w) + ?k)%nat] =>
              destruct (fault (length (trace w) + k)%nat) eqn:?
          | |- context [upsert_score ?d ?u ?v] =>
              destruct (upsert_score d u v) eqn:?
          | |- context [insert_history ?d ?r] =>
              destruct (insert_history d r) eqn:?
          end; cbn;
          rewrite <- ?app_assoc; cbn [app]; rewrite ?trace_pos; cbn [length]).
  all: intros H; inversion H; subst; clear H; cbn.
  all: (split; [reflexivity|]); (split; [reflexivity|]).
  all: repeat split; try reflexivity; try exact Htx.
  all: try (left; split; [reflexivity | exact Htx]).
  all: try (right; eexists; split; [reflexivity|];
            rewrite <- ?app_assoc; cbn [app]; rewrite ?trace_pos;
            cbn [length]; intros Hr;
            solve [reflexivity | exact Htx | congruence]).
  all: try (left;
            first [ exists 0%nat; split; [lia | assumption]
                  | exists 1%nat; split; [lia | assumption]
                  | exists 2%nat; split; [lia | assumption]
                  | exists 3%nat; split; [lia | assumption]
                  | exists 4%nat; split; [lia | assumption]
                  | exists 5%nat; split; [lia | assumption] ]).
  all: try (intros j Hj;
            destruct j as [|[|[|[|[|[|j]]]]]]; try lia; assumption).
  all: try (eexists; split; [reflexivity | eassumption]).
  all: try (right; eapply history_rejected_upsert; [eassumption | reflexivity]).
  all: try (right; eapply history_rejected_insert;
            [eassumption | reflexivity | eassumption]).
Qed.

(** A committed update of a score that stays a safe integer. *)
Lemma updateScore_committed fault now u i a ip ua w res w' :
  tx w = None ->
  updateScore fault now u i a ip ua w = (Ok res, w') ->
  let s := current_score (db w) u in
  safe_integer (s + i) ->
  res = {| previousScore := s; newScore := s + i |} /\
  tx w' = None /\
  users (db w') = users (db w) /\
  current_score (db w') u = s + i /\
  score_history (db w') = score_history (db w) ++ [audit_row now u i s a ip ua].
Proof.
  intros Htx Hrun s Hsafe.
  destruct (updateScore_spec _ _ _ _ _ _ _ _ _ _ Htx Hrun)
    as (_ & _ & Htx1 & Hres & _ & d1 & Hup & Hins).
  fold s in Hres, Hup, Hins.
  destruct (upsert_score_inv _ _ _ _ Hup) as (_ & Hus1 & Hh1 & Hs1).
  destruct (insert_history_inv _ _ _ Hins) as (Hus2 & Hs2 & Hh2).
  rewrite (Number_add_safe _ _ Hsafe) in *.
  rewrite (nearest_double_safe _ Hsafe) in Hs1.
  split; [exact Hres|]. split; [exact Htx1|]. split; [congruence|]. split.
  - unfold current_score, select_score in *. rewrite Hs2. exact Hs1.
  - rewrite Hh2, Hh1. f_equal. f_equal.
    rewrite <- (history_keeps_params now u i s a ip ua Hsafe).
    unfold history_params. rewrite (Number_add_safe _ _ Hsafe). reflexivity.
Qed.

(** Beyond the safe integers the sum rounds: at the score 2^53 an
    increment of 1 is lost, and the audit entry says so.  At the greatest
    BIGINT the new score is out of range: the mutation is answered 500 and
    the store is as before.  So is it for an increment that the INT column
    of the audit entry does not take. *)
Example updateScore_beyond_the_safe_integers :
  (exists data w',
     updateUserScore no_fault server_time (request_of "u1" (Int 1) None)
       (idle (lone_player (2 ^ 53))) = (Success data, w') /\
     sur_previous_score data = 2 ^ 53 /\
     sur_new_score data = 2 ^ 53 /\
     current_score (db w') "u1" = 2 ^ 53 /\
     (h_new_score <$> score_history (db w')) = [2 ^ 53]) /\
  (exists w',
     updateUserScore no_fault server_time (request_of "u1" (Int 1) None)
       (idle (lone_player (2 ^ 63 - 1))) =
       (Failure 500 "INTERNAL_ERROR"
          "An error occurred while updating the score", w') /\
     db w' = lone_player (2 ^ 63 - 1) /\ tx w' = None) /\
  (exists e w',
     updateScore no_fault server_time "u1" (2 ^ 31) None None None
       (idle (lone_player 5)) = (Throw e, w') /\
     db w' = lone_player 5 /\ tx w' = None).
Proof.
  split; [| split].
  - eexists _, _. split; [vm_compute; reflexivity|]. repeat split.
  - eexists. split; [vm_compute; reflexivity|]. split; reflexivity.
  - eexists _, _. split; [vm_compute; reflexivity|]. split; reflexivity.
Qed.

(** ** What the post-commit steps of the controller return *)

Lemma getUserRank_run fault u w :
  getUserRank fault u w =
  (if fault (length (trace w)) then Throw (StorageError (length (trace w)))
   else Ok (rank_query (db w) u), log_event w PgRank).
Proof.
  unfold getUserRank. rewrite rethrow_id. unfold pool_query, call.
  destruct (fault _); reflexivity.
Qed.

Lemma isUserInTop10_run fault u w :
  isUserInTop10 fault u w =
  (Ok (if fault (length (trace w)) then false else 0 <? top10_query (db w) u),
   log_event w PgTop10).
Proof.
  unfold isUserInTop10, try_catch, bind, pool_query, call, ret.
  destruct (fault _); reflexivity.
Qed.

Lemma broadcastLeaderboardUpdate_total fault now u w :
  exists w', broadcastLeaderboardUpdate fault now u w = (Ok tt, w').
Proof.
  unfold broadcastLeaderboardUpdate. destruct (wss w); [| eauto].
  unfold try_catch, bind, ret.
  destruct (getLeaderboard _ _ _ _ _ _) as [[lb|e] w1]; eauto.
Qed.

Lemma publishLeaderboardUpdate_run fault now u w :
  publishLeaderboardUpdate fault now u w =
  (Ok tt,
   if fault (length (trace w)) then log_event w RedisPublish
   else set_redis (log_event w RedisPublish)
          (published (redis w) {| msg_userId := u; msg_timestamp := now |})).
Proof.
  unfold publishLeaderboardUpdate, try_catch, redis_publish, call, ret.
  destruct (fault _); reflexivity.
Qed.

(** The steps of [updateUserScore] behind a success response. *)
Lemma updateUserScore_success_inv fault now req w data w' :
  updateUserScore fault now req w = (Success data, w') ->
  exists user res w1 w2,
    req_user req = Some user /\
    validateScoreUpdateRequest now (body_score_increment req)
      (body_timestamp req) = Ok true /\
    updateScore fault now (userId user) (int_value (body_score_increment req))
      (body_action_id req) (req_ip req) (req_user_agent req) w = (Ok res, w1) /\
    fault (length (trace w1)) = false /\
    w2 = log_event (log_event w1 PgRank) PgTop10 /\
    (if sur_is_top_10 data
     then (broadcastLeaderboardUpdate fault now (Some (userId user)) ;;
           publishLeaderboardUpdate fault now (userId user))
     else ret tt) w2 = (Ok tt, w') /\
    sur_is_top_10 data =
      (if fault (S (length (trace w1))) then false
       else 0 <? top10_query (db w1) (userId user)) /\
    data = {| sur_user_id := userId user;
              sur_previous_score := previousScore res;
              sur_new_score := newScore res;
              sur_rank := rank_query (db w1) (userId user);
              sur_is_top_10 := sur_is_top_10 data |}.
Proof.
  unfold updateUserScore. destruct (req_user req) as [user|]; [| discriminate].
  destruct (validateScoreUpdateRequest _ _ _) as [b|e] eqn:Ev; [| discriminate].
  assert (b = true) as ->.
  { unfold validateScoreUpdateRequest in Ev.
    repeat match type of Ev with (if ?c then _ else _) = _ => destruct c end;
      congruence. }
  match goal with
  | |- context [bind ?m ?k w] => destruct (bind m k w) as [[d|e] wf] eqn:E
  end; [| discriminate].
  intros H. inversion H; subst; clear H.
  apply bind_ok_inv in E as (res & w1 & Hupd & E).
  apply bind_ok_inv in E as (rk & w2 & Hrank & E).
  apply bind_ok_inv in E as (top & w3 & Htop & E).
  apply bind_ok_inv in E as ([] & w4 & Hpub & E).
  inversion E; subst; clear E.
  rewrite getUserRank_run in Hrank. rewrite isUserInTop10_run in Htop.
  destruct (fault (length (trace w1))) eqn:F1; [discriminate|].
  inversion Hrank; subst; clear Hrank. inversion Htop; subst; clear Htop.
  exists user, res, w1, (log_event (log_event w1 PgRank) PgTop10).
  cbn [sur_is_top_10 trace log_event db] in *.
  assert (Hl : length (trace w1 ++ [PgRank]) = S (length (trace w1)))
    by (rewrite length_app; cbn; lia).
  rewrite Hl in *.
  repeat split; try reflexivity; try assumption.
Qed.

(** ** Validation of the increment *)

Lemma denotes_int_value x i : denotes x i -> int_value x = i.
Proof.
  destruct x as [n d| |]; cbn; try tauto.
  intros ->. apply Z.div_mul. lia.
Qed.

Lemma denotes_Int i : denotes (Int i) i.
Proof. cbn. lia. Qed.

Lemma increment_accepted_iff x :
  increment_rejected x = false <-> exists i, 1 <= i <= 1000 /\ denotes x i.
Proof.
  unfold increment_rejected, num_gt. split.
  - destruct x as [n d| |]; cbn; try discriminate.
    intros H. apply orb_false_iff in H as [H H3].
    apply orb_false_iff in H as [H1 H2].
    apply negb_false_iff, Z.eqb_eq in H1.
    apply Z.ltb_ge in H2. apply Z.ltb_ge in H3.
    apply Z.mod_divide in H1; [| lia]. destruct H1 as [i ->].
    exists i. split; [nia | reflexivity].
  - intros (i & Hi & Hd). destruct x as [n d| |]; cbn in *; try tauto.
    subst n. rewrite Z.mod_mul by lia. cbn.
    apply orb_false_iff. split; apply Z.ltb_ge; nia.
Qed.

Lemma validate_rejects_increment now x ts :
  (forall i, 1 <= i <= 1000 -> ~ denotes x i) ->
  validateScoreUpdateRequest now x ts =
  Throw (ValidationError "Score increment must be between 1 and 1000").
Proof.
  intros H. unfold validateScoreUpdateRequest.
  fold (increment_rejected x).
  destruct (increment_rejected x) eqn:E; [reflexivity|].
  apply increment_accepted_iff in E as (i & Hi & Hd).
  exfalso. exact (H i Hi Hd).
Qed.


Lemma validated_increment now x ts :
  validateScoreUpdateRequest now x ts = Ok true -> 1 <= int_value x <= 1000.
Proof.
  unfold validateScoreUpdateRequest. fold (increment_rejected x).
  destruct (increment_rejected x) eqn:E; [discriminate|]. intros _.
  apply increment_accepted_iff in E as (i & Hi & Hd).
  rewrite (denotes_int_value _ _ Hd). exact Hi.
Qed.

(** ** The controller on a healthy store *)


(** Publishing writes the channel only. *)
Lemma publishLeaderboardUpdate_keeps {X} (f : World -> X) fault now u :
  untraced f -> (forall w r, f (set_redis w r) = f w) ->
  keeps f (publishLeaderboardUpdate fault now u).
Proof.
  intros Hu Hr w r w'. rewrite publishLeaderboardUpdate_run.
  destruct (fault _); intros H; inversion H; subst.
  - apply Hu.
  - rewrite Hr. apply Hu.
Qed.

(** After the commit the controller reads the store and writes it no more. *)
Lemma post_commit_keeps_db fault now u (b : bool) :
  keeps db (if b
            then (broadcastLeaderboardUpdate fault now (Some u) ;;
                  publishLeaderboardUpdate fault now u)
            else ret tt).
Proof.
  apply keeps_if; [| apply keeps_ret].
  apply keeps_bind.
  - apply broadcastLeaderboardUpdate_keeps; auto with keeps_db.
  - intros _. apply publishLeaderboardUpdate_keeps; [auto with keeps_db|].
    intros w r. reflexivity.
Qed.

(** ** C1 *)



(** ** C2 *)

(** C2.  When the increment is no integer of 1..1000 (0, -5, 1001, 1.5,
    NaN, ...), the mutation answers 400 INVALID_REQUEST and leaves the whole
    state as it was: neither table is written and no call on PostgreSQL or
    Redis is made (the trace is unchanged); the validation function itself
    throws the validation error. *)
Theorem C2_invalid_increment_rejected_before_storage
    fault now req user w :
  req_user req = Some user ->
  (forall i, 1 <= i <= 1000 -> ~ denotes (body_score_increment req) i) ->
  validateScoreUpdateRequest now (body_score_increment req) (body_timestamp req)
    = Throw (ValidationError "Score increment must be between 1 and 1000") /\
  updateUserScore fault now req w =
    (Failure 400 "INVALID_REQUEST" "Score increment must be between 1 and 1000",
     w).
Proof.
  intros Hu Hbad.
  pose proof (validate_rejects_increment now _ (body_timestamp req) Hbad) as Hv.
  split; [exact Hv|].
  unfold updateUserScore. rewrite Hu, Hv. reflexivity.
Qed.

Lemma not_denotes_outside (z : Z) :
  (z < 1 \/ 1000 < z) -> forall i, 1 <= i <= 1000 -> ~ denotes (Int z) i.
Proof. intros Hz i Hi. cbn. lia. Qed.

Lemma not_denotes_fraction (n : Z) (d : positive) :
  n mod Z.pos d <> 0 -> forall i, ~ denotes (Fin n d) i.
Proof.
  intros Hn i Hd. cbn in Hd. subst n. apply Hn. apply Z.mod_mul. lia.
Qed.

Lemma C2_witness :
  updateUserScore no_fault server_time (request_of "u3" (Int 0) None)
    (idle four_players) =
  (Failure 400 "INVALID_REQUEST" "Score increment must be between 1 and 1000",
   idle four_players) /\
  updateUserScore no_fault server_time (request_of "u3" (Int (-5)) None)
    (idle four_players) =
  (Failure 400 "INVALID_REQUEST" "Score increment must be between 1 and 1000",
   idle four_players) /\
  updateUserScore no_fault server_time (request_of "u3" (Int 1001) None)
    (idle four_players) =
  (Failure 400 "INVALID_REQUEST" "Score increment must be between 1 and 1000",
   idle four_players) /\
  updateUserScore no_fault server_time (request_of "u3" (Fin 3 2) None)
    (idle four_players) =
  (Failure 400 "INVALID_REQUEST" "Score increment must be between 1 and 1000",
   idle four_players).
Proof.
  split; [| split; [| split]].
  - apply (C2_invalid_increment_rejected_before_storage no_fault server_time
             (request_of "u3" (Int 0) None)
             {| userId := "u3"; payload_username := "u3" |}
             (idle four_players) eq_refl).
    apply not_denotes_outside. lia.
  - apply (C2_invalid_increment_rejected_before_storage no_fault server_time
             (request_of "u3" (Int (-5)) None)
             {| userId := "u3"; payload_username := "u3" |}
             (idle four_players) eq_refl).
    apply not_denotes_outside. lia.
  - apply (C2_invalid_increment_rejected_before_storage no_fault server_time
             (request_of "u3" (Int 1001) None)
             {| userId := "u3"; payload_username := "u3" |}
             (idle four_players) eq_refl).
    apply not_denotes_outside. lia.
  - apply (C2_invalid_increment_rejected_before_storage no_fault server_time
             (request_of "u3" (Fin 3 2) None)
             {| userId := "u3"; payload_username := "u3" |}
             (idle four_players) eq_refl).
    intros i _. apply not_denotes_fraction. discriminate.
Defined.

(** ** C3 *)

(** What the controller does once the request is validated: the unit of
    work, then steps that write neither the database nor the transaction. *)
Lemma updateUserScore_run fault now req user w :
  req_user req = Some user ->
  validateScoreUpdateRequest now (body_score_increment req)
    (body_timestamp req) = Ok true ->
  exists rest : UpdateScoreResult -> M ScoreUpdateResponse,
    updateUserScore fault now req w =
      match bind (updateScore fault now (userId user)
                    (int_value (body_score_increment req))
                    (body_action_id req) (req_ip req) (req_user_agent req))
                 rest w with
      | (Ok data, w1) => (Success data, w1)
      | (Throw _, w1) =>
          (Failure 500 "INTERNAL_ERROR"
             "An error occurred while updating the score", w1)
      end /\
    (forall res, keeps db (rest res)) /\
    (forall res, keeps tx (rest res)).
Proof.
  intros Hu Hv. unfold updateUserScore. rewrite Hu, Hv.
  eexists. split; [reflexivity|].
  split; intros res.
  - apply keeps_bind; [apply getUserRank_keeps; auto with keeps_db | intros rk].
    apply keeps_bind; [apply isUserInTop10_keeps; auto with keeps_db | intros top].
    apply keeps_bind; [| intros ?; apply keeps_ret].
    apply post_commit_keeps_db.
  - apply keeps_bind; [apply getUserRank_keeps; auto with keeps_db | intros rk].
    apply keeps_bind; [apply isUserInTop10_keeps; auto with keeps_db | intros top].
    apply keeps_bind; [| intros ?; apply keeps_ret].
    apply keeps_if; [| apply keeps_ret].
    apply keeps_bind.
    + apply broadcastLeaderboardUpdate_keeps; auto with keeps_db.
    + intros _. apply publishLeaderboardUpdate_keeps; [auto with keeps_db|].
      intros w0 r. reflexivity.
Qed.



(** ** C6 *)

Lemma updateScore_keeps_updates fault now u i a ip ua :
  keeps (fun w => leaderboard_updates (redis w))
        (updateScore fault now u i a ip ua).
Proof.
  unfold updateScore, pool_connect.
  apply keeps_bind; [apply keeps_call; [auto with keeps_db | apply keeps_ret]|].
  intros _ w r w'. unfold try_finally.
  match goal with |- context [try_catch ?m ?h w] =>
    destruct (try_catch m h w) as [r1 w1] eqn:E;
    assert (K : keeps (fun w => leaderboard_updates (redis w)) (try_catch m h))
  end.
  { unfold client_BEGIN, client_select_for_update, client_upsert_score,
      client_insert_history, client_COMMIT, client_ROLLBACK.
    apply keeps_try_catch.
    - apply keeps_bind; [apply keeps_call; [auto with keeps_db | keeps_prim]|].
      intros _.
      apply keeps_bind; [apply keeps_call; [auto with keeps_db | keeps_prim]|].
      intros rows.
      apply keeps_bind.
      { apply keeps_call; [auto with keeps_db |].
        intros w0 r0 w0'. destruct (upsert_score _ _ _);
          intros H; inversion H; subst; [| reflexivity].
        unfold write. destruct (tx w0); reflexivity. }
      intros _.
      apply keeps_bind.
      { apply keeps_call; [auto with keeps_db |].
        intros w0 r0 w0'. destruct (insert_history _ _);
          intros H; inversion H; subst; [| reflexivity].
        unfold write. destruct (tx w0); reflexivity. }
      intros _.
      apply keeps_bind; [apply keeps_call; [auto with keeps_db | keeps_prim]|].
      intros _.
      apply keeps_bind;
        [apply invalidateUserScoreCache_keeps; auto with keeps_db|].
      intros _.
      apply keeps_bind;
        [apply invalidateLeaderboardCache_keeps; auto with keeps_db|].
      intros _. apply keeps_ret.
    - intros e.
      apply keeps_bind; [apply keeps_call; [auto with keeps_db | keeps_prim]|].
      intros _. apply keeps_throw. }
  intros H. inversion H; subst. cbn. exact (K _ _ _ E).
Qed.

(** C6, as stated, fails: the eleventh of eleven participants gains one
    point, the mutation commits and answers with success, and nothing is
    published on the channel. *)
Lemma C6_counterexample :
  exists data w',
    updateUserScore no_fault server_time (request_of "p11" (Int 1) None)
      (idle eleven_players) = (Success data, w') /\
    sur_new_score data = 2 /\
    current_score (db w') "p11" = 2 /\
    sur_is_top_10 data = false /\
    leaderboard_updates (redis w') = [].
Proof.
  eexists _, _. split; [vm_compute; reflexivity|].
  repeat split.
Qed.

(** C6, amended.  After a successful mutation the message
    [{participant, timestamp}] is published on the shared channel exactly
    when the check made after the commit says that the participant is in
    the top ten (and the publishing call, the last call the controller
    makes, does not fail): then the channel has grown by that one message;
    when the check says no, the channel is as it was.  In a store without
    tied scores (the participant's score being a safe integer) the check
    says yes only for a participant among the first ten rows of the scores
    ordered by score descending, and, when no call fails, for every such
    participant. *)
Theorem C6_publish_when_in_top10 fault now req w data w' :
  updateUserScore fault now req w = (Success data, w') ->
  exists user,
    req_user req = Some user /\
    (sur_is_top_10 data = false ->
     leaderboard_updates (redis w') = leaderboard_updates (redis w)) /\
    (sur_is_top_10 data = true ->
     fault (length (trace w') - 1)%nat = false ->
     leaderboard_updates (redis w') =
       leaderboard_updates (redis w) ++
       [{| msg_userId := userId user; msg_timestamp := now |}]) /\
    (safe_request (db w) req ->
     untied_scores (db w') ->
     (sur_is_top_10 data = true -> 0 < top10_query (db w') (userId user)) /\
     ((forall k, fault k = false) ->
      sur_is_top_10 data = (0 <? top10_query (db w') (userId user)))).
Proof.
  intros Hrun.
  apply updateUserScore_success_inv in Hrun
    as (user & res & w1 & w2 & Hu & _ & Hupd & _ & Hw2 & Hpost & Htop & _).
  subst w2. exists user. split; [exact Hu|].
  pose proof (updateScore_keeps_updates _ _ _ _ _ _ _ _ _ _ Hupd) as Hk1.
  cbn beta in Hk1.
  pose proof (post_commit_keeps_db _ _ _ _ _ _ _ Hpost) as Hdb.
  cbn [db log_event] in Hdb.
  split; [| split].
  - intros Hfalse. rewrite Hfalse in Hpost. inversion Hpost; subst w'.
    cbn. exact Hk1.
  - intros Htrue. rewrite Htrue in Hpost.
    apply bind_ok_inv in Hpost as ([] & w3 & Hb & Hp).
    pose proof (broadcastLeaderboardUpdate_keeps
                  (fun w => leaderboard_updates (redis w)) fault now
                  (Some (userId user)) untraced_updates uncached_updates
                  unobserved_updates _ _ _ Hb) as Hk2.
    cbn in Hk2.
    rewrite publishLeaderboardUpdate_run in Hp.
    injection Hp as Hw'.
    assert (Hlen : (length (trace w') - 1)%nat = length (trace w3)).
    { rewrite <- Hw'. destruct (fault (length (trace w3))); cbn;
        rewrite length_app; cbn; lia. }
    rewrite Hlen. intros Hf. rewrite Hf in Hw'. subst w'. cbn.
    rewrite Hk2, Hk1. reflexivity.
  - intros _ _. split.
    + intros Htrue. rewrite Htrue in Htop.
      destruct (fault (S (length (trace w1)))); [discriminate|].
      rewrite Hdb. symmetry in Htop. apply Z.ltb_lt in Htop. exact Htop.
    + intros Hf. rewrite Htop, Hf, Hdb. reflexivity.
Qed.

Lemma C6_witness :
  exists data w',
    updateUserScore no_fault server_time (request_of "u3" (Int 50) None)
      (idle four_players) = (Success data, w') /\
    sur_is_top_10 data = true /\
    0 < top10_query (db w') "u3" /\
    leaderboard_updates (redis w') =
      [{| msg_userId := "u3"; msg_timestamp := server_time |}].
Proof.
  eassert (Hrun : updateUserScore no_fault server_time
                    (request_of "u3" (Int 50) None) (idle four_players)
                  = (Success _, _)) by (vm_compute; reflexivity).
  eexists _, _. split; [exact Hrun|]. split; [reflexivity|].
  destruct (C6_publish_when_in_top10 _ _ _ _ _ _ Hrun)
    as (user & Hu & _ & Hpub & Hflag).
  inversion Hu; subst user; clear Hu.
  split; [| exact (Hpub eq_refl eq_refl)].
  destruct Hflag as [Hin _].
  - intros user Hu. injection Hu as <-. split; vm_compute; discriminate.
  - apply (bool_decide_unpack _). vm_compute. exact I.
  - exact (Hin eq_refl).
Defined.

(** ** Reading a decimal text as a double *)

Lemma nearest_double_large a :
  2 ^ 53 <= a ->
  exists e u q r,
    e = Z.log2 a /\ 53 <= e /\ u = 2 ^ (e - 52) /\ 0 < u /\
    2 ^ 52 * u = 2 ^ e /\ 2 ^ e <= a < 2 * 2 ^ e /\
    a = q * u + r /\ 0 <= r < u /\ 2 ^ 52 <= q < 2 ^ 53 /\
    nearest_double a = (if round_up u q r then q + 1 else q) * u.
Proof.
  intros Ha.
  assert (Hpos : 0 < a) by lia.
  pose proof (Z.log2_spec a Hpos) as [Hlo Hhi].
  assert (He : 53 <= Z.log2 a) by (apply Z.log2_le_pow2; lia).
  set (e := Z.log2 a) in *.
  set (u := 2 ^ (e - 52)).
  assert (Hu : 0 < u) by (apply Z.pow_pos_nonneg; lia).
  assert (Hue : 2 ^ 52 * u = 2 ^ e).
  { unfold u. rewrite <- Z.pow_add_r by lia. f_equal. lia. }
  assert (Hhi' : a < 2 * 2 ^ e).
  { replace (Z.succ e) with (1 + e) in Hhi by lia.
    rewrite Z.pow_add_r in Hhi by lia. exact Hhi. }
  pose proof (Z.div_mod a u ltac:(lia)) as Hdm.
  pose proof (Z.mod_pos_bound a u Hu) as Hr.
  exists e, u, (a / u), (a mod u).
  repeat split; try assumption; try lia.
  - apply Z.div_le_lower_bound; lia.
  - apply Z.div_lt_upper_bound; lia.
  - unfold nearest_double.
    rewrite (Z.abs_eq a) by lia.
    assert (E : (a <? 2 ^ 53) = false) by (apply Z.ltb_ge; lia).
    rewrite E. fold e. fold u.
    rewrite Z.sgn_pos by lia. lia.
Qed.

Lemma round_up_mono u q r r' :
  r <= r' -> round_up u q r = true -> round_up u q r' = true.
Proof.
  unfold round_up. intros Hr H.
  apply orb_true_iff in H as [H | H].
  - apply Z.ltb_lt in H. apply orb_true_iff. left. apply Z.ltb_lt. lia.
  - apply andb_true_iff in H as [H Ho]. apply Z.eqb_eq in H.
    destruct (Z.eq_dec r r') as [<- | Hne].
    + apply orb_true_iff. right. rewrite Ho, andb_true_r. apply Z.eqb_eq. lia.
    + apply orb_true_iff. left. apply Z.ltb_lt. lia.
Qed.

Lemma nearest_double_mono_large a b :
  2 ^ 53 <= a -> a <= b -> nearest_double a <= nearest_double b.
Proof.
  intros Ha Hab.
  destruct (nearest_double_large a Ha)
    as (ea & ua & qa & ra & Hea & Hea53 & Hua & Hua0 & Huea & Hba & Hda
        & Hra & Hqa & ->).
  destruct (nearest_double_large b ltac:(lia))
    as (eb & ub & qb & rb & Heb & Heb53 & Hub & Hub0 & Hueb & Hbb & Hdb
        & Hrb & Hqb & ->).
  assert (Hle : ea <= eb) by (subst ea eb; apply Z.log2_le_mono; lia).
  destruct (Z.eq_dec ea eb) as [Heq | Hne].
  - assert (Hu' : ub = ua) by (rewrite Hub, Hua, Heq; reflexivity).
    clear Hub. subst ub.
    assert (Hq : qa <= qb) by nia.
    destruct (Z.eq_dec qa qb) as [Hqe | Hqne].
    + subst qb. assert (Hr : ra <= rb) by nia.
      destruct (round_up ua qa ra) eqn:Ea.
      * rewrite (round_up_mono _ _ _ _ Hr Ea). lia.
      * destruct (round_up ua qa rb); nia.
    + destruct (round_up ua qa ra), (round_up ua qb rb); nia.
  - assert (Hpow : 2 * 2 ^ ea <= 2 ^ eb).
    { replace (2 * 2 ^ ea) with (2 ^ (1 + ea))
        by (rewrite Z.pow_add_r by lia; reflexivity).
      apply Z.pow_le_mono_r; lia. }
    assert (Hna : (if round_up ua qa ra then qa + 1 else qa) * ua
                  <= 2 * 2 ^ ea).
    { destruct (round_up ua qa ra); nia. }
    assert (Hnb : 2 ^ eb
                  <= (if round_up ub qb rb then qb + 1 else qb) * ub).
    { destruct (round_up ub qb rb); nia. }
    lia.
Qed.

Lemma nearest_double_small a : Z.abs a < 2 ^ 53 -> nearest_double a = a.
Proof.
  intros H. unfold nearest_double.
  assert (E : (Z.abs a <? 2 ^ 53) = true) by (apply Z.ltb_lt; lia).
  rewrite E. reflexivity.
Qed.

Lemma nearest_double_opp z : nearest_double (- z) = - nearest_double z.
Proof.
  unfold nearest_double. rewrite Z.abs_opp.
  destruct (Z.abs z <? 2 ^ 53); [reflexivity|].
  rewrite Z.sgn_opp. lia.
Qed.

Lemma nearest_double_mono_nonneg a b :
  0 <= a -> a <= b -> nearest_double a <= nearest_double b.
Proof.
  intros Ha Hab.
  destruct (Z_lt_le_dec a (2 ^ 53)) as [Hsa | Hla].
  - rewrite (nearest_double_small a) by lia.
    destruct (Z_lt_le_dec b (2 ^ 53)) as [Hsb | Hlb].
    + rewrite (nearest_double_small b) by lia. exact Hab.
    + destruct (nearest_double_large b Hlb)
        as (e & u & q & r & _ & He & _ & Hu & Hue & _ & _ & _ & Hq & ->).
      assert (2 ^ 53 <= 2 ^ e) by (apply Z.pow_le_mono_r; lia).
      destruct (round_up u q r); nia.
  - apply nearest_double_mono_large; assumption.
Qed.

(** Reading is monotone: a greater BIGINT is not read as a smaller
    number. *)
Lemma nearest_double_mono a b : a <= b -> nearest_double a <= nearest_double b.
Proof.
  intros Hab.
  assert (Hnn : forall x, 0 <= x -> 0 <= nearest_double x).
  { intros x Hx. apply (nearest_double_mono_nonneg 0 x); lia. }
  destruct (Z_le_gt_dec 0 a) as [Ha | Ha].
  - apply nearest_double_mono_nonneg; assumption.
  - destruct (Z_le_gt_dec b 0) as [Hb | Hb].
    + rewrite <- (Z.opp_involutive a), <- (Z.opp_involutive b).
      rewrite (nearest_double_opp (- a)), (nearest_double_opp (- b)).
      apply Z.opp_le_mono. rewrite !Z.opp_involutive.
      apply nearest_double_mono_nonneg; lia.
    + pose proof (Hnn b ltac:(lia)).
      pose proof (Hnn (- a) ltac:(lia)) as H1.
      rewrite nearest_double_opp in H1. lia.
Qed.

(** ** Ordering by score *)

Lemma Forall_insert_desc {A} (key : A -> Z) (P : A -> Prop) x l :
  P x -> Forall P l -> Forall P (insert_desc key x l).
Proof.
  intros Hx Hl. induction Hl as [|y r Hy Hr IH]; cbn.
  - constructor; [exact Hx | constructor].
  - destruct (key y <=? key x).
    + constructor; [exact Hx |]. constructor; assumption.
    + constructor; assumption.
Qed.

Lemma insert_desc_sorted {A} (key : A -> Z) x l :
  StronglySorted (fun a b => key b <= key a) l ->
  StronglySorted (fun a b => key b <= key a) (insert_desc key x l).
Proof.
  induction 1 as [|y r Hr IH Hy]; cbn.
  - constructor; constructor.
  - destruct (key y <=? key x) eqn:E.
    + apply Z.leb_le in E. constructor.
      * constructor; assumption.
      * constructor; [exact E |].
        eapply Forall_impl; [exact Hy |]. cbn. intros z Hz. lia.
    + apply Z.leb_gt in E. constructor; [exact IH |].
      apply Forall_insert_desc; [lia | exact Hy].
Qed.

Lemma order_desc_sorted {A} (key : A -> Z) l :
  StronglySorted (fun a b => key b <= key a) (order_desc key l).
Proof.
  induction l as [|x r IH]; cbn; [constructor | apply insert_desc_sorted, IH].
Qed.

Lemma strongly_sorted_lookup {A} (key : A -> Z) l :
  StronglySorted (fun a b => key b <= key a) l ->
  forall i j a b, (i < j)%nat -> l !! i = Some a -> l !! j = Some b ->
                  key b <= key a.
Proof.
  induction 1 as [|y r Hr IH Hy]; intros i j a b Hij Ha Hb.
  - rewrite lookup_nil in Ha. discriminate.
  - destruct j as [|j]; [lia|]. cbn in Hb.
    destruct i as [|i]; cbn in Ha.
    + inversion Ha; subst. rewrite Forall_forall in Hy. apply Hy.
      eapply list_elem_of_lookup_2, Hb.
    + eapply IH; [| exact Ha | exact Hb]. lia.
Qed.

Lemma row_number_lookup l : forall k i,
  row_number k l !! i =
  (fun r => {| row_user_id := fst (fst r); row_username := snd (fst r);
               row_score := snd r; row_rank := k + Z.of_nat i |}) <$> l !! i.
Proof.
  induction l as [|[[uid name] sc] r IH]; intros k i; [destruct i; reflexivity|].
  destruct i as [|i]; cbn.
  - rewrite Z.add_0_r. reflexivity.
  - rewrite IH. destruct (r !! i); cbn; [| reflexivity].
    do 2 f_equal. lia.
Qed.

(** The rows the leaderboard query returns, by position. *)
Lemma leaderboard_query_lookup d limit offset rows i row :
  leaderboard_query d limit offset = Some rows ->
  rows !! i = Some row ->
  exists lim off r,
    pg_bound limit = Some lim /\ pg_bound offset = Some off /\
    (i < lim)%nat /\
    order_desc (fun r => snd r) (join_users d) !! (off + i)%nat = Some r /\
    row_score row = snd r /\
    row_rank row = Z.of_nat off + Z.of_nat i + 1.
Proof.
  unfold leaderboard_query.
  destruct (pg_bound limit) as [lim|]; [| discriminate].
  destruct (pg_bound offset) as [off|]; [| discriminate].
  intros H; inversion H; subst; clear H. intros Hi.
  apply lookup_take_Some in Hi as [Hi Hlt].
  rewrite lookup_drop, row_number_lookup in Hi.
  destruct (order_desc _ _ !! (off + i)%nat) as [r|] eqn:E; [| discriminate].
  cbn in Hi. inversion Hi; subst; clear Hi. cbn.
  exists lim, off, r. repeat split; try assumption. lia.
Qed.

Lemma leaderboard_query_sorted d limit offset rows :
  leaderboard_query d limit offset = Some rows ->
  sorted_desc (map row_score rows).
Proof.
  intros Hq i j a b Hij Ha Hb.
  rewrite list_lookup_fmap in Ha, Hb.
  destruct (rows !! i) as [ra|] eqn:Ea; [| discriminate].
  destruct (rows !! j) as [rb|] eqn:Eb; [| discriminate].
  cbn in Ha, Hb. inversion Ha; inversion Hb; subst; clear Ha Hb.
  destruct (leaderboard_query_lookup _ _ _ _ _ _ Hq Ea)
    as (lim & off & xa & Hl & Ho & _ & Hxa & -> & _).
  destruct (leaderboard_query_lookup _ _ _ _ _ _ Hq Eb)
    as (lim' & off' & xb & Hl' & Ho' & _ & Hxb & -> & _).
  rewrite Ho in Ho'. inversion Ho'; subst off'.
  eapply (strongly_sorted_lookup (fun r : string * string * Z => snd r));
    [apply order_desc_sorted | | exact Hxa | exact Hxb].
  lia.
Qed.

Lemma pg_bound_inv x n :
  pg_bound x = Some n ->
  Number_isInteger x = true /\ num_lt x (Int 0) = false /\
  n = Z.to_nat (int_value x).
Proof.
  unfold pg_bound.
  destruct (Number_isInteger x), (num_lt x (Int 0)),
    (num_gt x (Int (2 ^ 63 - 1))); cbn [andb negb];
    intros H; inversion H. auto.
Qed.

Lemma pg_bound_int_value x n :
  pg_bound x = Some n -> int_value x = Z.of_nat n /\ 0 <= int_value x.
Proof.
  intros H. apply pg_bound_inv in H as (Ei & El & ->).
  destruct x as [a d| |]; try discriminate. cbn in *.
  apply Z.ltb_ge in El. apply Z.eqb_eq in Ei.
  assert (0 <= a / Z.pos d) by (apply Z.div_pos; lia).
  split; lia.
Qed.

(** ** getTopUsers: the two ways a listing is answered *)

(** The listing a successful [getTopUsers] returns comes from the cache
    (zero offset and a live snapshot) or from the store; in the second
    case the cache is rewritten when the offset is zero, whatever the
    limit, and left alone otherwise. *)
Lemma getTopUsers_inv fault now limit offset w board w' :
  getTopUsers fault now limit offset w = (Ok board, w') ->
  db w' = db w /\
  ((num_eq offset (Int 0) = true /\
    exists snapshot,
      live now (leaderboard_top10 (redis w)) = Some snapshot /\
      board = slice0 snapshot limit /\
      redis w' = redis w)
   \/
   ((num_eq offset (Int 0) = false \/
     live now (leaderboard_top10 (redis w)) = None) /\
    exists rows,
      leaderboard_query (db w) limit offset = Some rows /\
      board = map (to_entry offset) rows /\
      leaderboard_top10 (redis w') =
        if num_eq offset (Int 0)
        then Some (board, now + LEADERBOARD_CACHE_TTL * 1000)
        else leaderboard_top10 (redis w))).
Proof.
  unfold getTopUsers. rewrite rethrow_id.
  unfold bind, redis_get_top10, redis_setEx_top10, pool_query_opt, call, ret.
  destruct (num_eq offset (Int 0)) eqn:E0; cbn.
  - destruct (fault (length (trace w))); [discriminate|].
    destruct (live now (leaderboard_top10 (redis w))) as [snapshot|] eqn:El.
    + intros H; inversion H; subst; clear H. split; [reflexivity|].
      left. split; [reflexivity|]. exists snapshot. repeat split.
    + destruct (fault _); [discriminate|]. cbn.
      destruct (leaderboard_query (db w) limit offset) as [rows|] eqn:Eq;
        [| discriminate].
      destruct (fault _); [discriminate|].
      intros H; inversion H; subst; clear H. split; [reflexivity|].
      right. split; [right; reflexivity|]. exists rows. repeat split.
  - destruct (fault (length (trace w))); [discriminate|]. cbn.
    destruct (leaderboard_query (db w) limit offset) as [rows|] eqn:Eq;
      [| discriminate].
    intros H; inversion H; subst; clear H. split; [reflexivity|].
    right. split; [left; reflexivity|]. exists rows. repeat split.
Qed.

(** On a store and cache that answer, a zero-offset query with a live
    snapshot is served from it. *)
Lemma getTopUsers_hit fault now limit offset w snapshot :
  num_eq offset (Int 0) = true ->
  live now (leaderboard_top10 (redis w)) = Some snapshot ->
  fault (length (trace w)) = false ->
  getTopUsers fault now limit offset w =
  (Ok (slice0 snapshot limit), log_event w RedisGet).
Proof.
  intros E0 El Hf. unfold getTopUsers. rewrite rethrow_id.
  unfold bind, redis_get_top10, call. rewrite E0, Hf. cbn. rewrite El.
  reflexivity.
Qed.

(** The rank [getTopUsers] attaches to the entry at position [i] of a
    listing answered from the store: the row number, which already counts
    the rows that OFFSET skipped, plus the offset once more. *)
Lemma getTopUsers_store_rank fault now limit offset w board w' i e :
  getTopUsers fault now limit offset w = (Ok board, w') ->
  (num_eq offset (Int 0) = false \/
   live now (leaderboard_top10 (redis w)) = None) ->
  board !! i = Some e ->
  rank e = 2 * int_value offset + Z.of_nat i + 1.
Proof.
  intros Hrun Hstore Hi.
  destruct (getTopUsers_inv _ _ _ _ _ _ _ Hrun)
    as [_ [(E0 & snap & El & _) | (_ & rows & Hq & -> & _)]].
  - destruct Hstore as [H|H]; congruence.
  - rewrite list_lookup_fmap in Hi.
    destruct (rows !! i) as [row|] eqn:Er; [| discriminate].
    cbn in Hi. inversion Hi; subst; clear Hi. cbn.
    destruct (leaderboard_query_lookup _ _ _ _ _ _ Hq Er)
      as (lim & off & r & _ & Ho & _ & _ & _ & ->).
    destruct (pg_bound_int_value _ _ Ho) as [-> _]. lia.
Qed.

Lemma sorted_desc_read l :
  sorted_desc l -> sorted_desc (map nearest_double l).
Proof.
  intros Hs i j a b Hij Ha Hb.
  rewrite list_lookup_fmap in Ha, Hb.
  destruct (l !! i) as [x|] eqn:Ex; [| discriminate].
  destruct (l !! j) as [y|] eqn:Ey; [| discriminate].
  cbn in Ha, Hb. inversion Ha; inversion Hb; subst.
  apply nearest_double_mono. exact (Hs i j x y Hij Ex Ey).
Qed.

Lemma sorted_desc_take l n : sorted_desc l -> sorted_desc (take n l).
Proof.
  intros Hs i j a b Hij Ha Hb.
  apply lookup_take_Some in Ha as [Ha _]. apply lookup_take_Some in Hb as [Hb _].
  exact (Hs i j a b Hij Ha Hb).
Qed.

Lemma live_Some {A} now (entry : option (A * Z)) v :
  live now entry = Some v -> exists expiry, entry = Some (v, expiry).
Proof.
  unfold live. destruct entry as [[x ex]|]; [| discriminate].
  destruct (now <? ex); [| discriminate].
  intros H; inversion H; subst. eauto.
Qed.

Lemma getTopUsers_sorted fault now limit offset w board w' :
  cache_sorted (redis w) ->
  getTopUsers fault now limit offset w = (Ok board, w') ->
  sorted_desc (map score board) /\ cache_sorted (redis w').
Proof.
  intros Hc Hrun.
  destruct (getTopUsers_inv _ _ _ _ _ _ _ Hrun)
    as [_ [(E0 & snap & El & -> & Hr) | (_ & rows & Hq & -> & Hr)]].
  - apply live_Some in El as [ex El]. split.
    + unfold slice0. change (map score (take ?n ?l)) with (score <$> take n l).
      rewrite fmap_take. apply sorted_desc_take. eapply Hc, El.
    + rewrite Hr. exact Hc.
  - assert (Hs : sorted_desc (map score (map (to_entry offset) rows))).
    { rewrite map_map. cbn.
      rewrite <- (map_map row_score nearest_double).
      apply sorted_desc_read, (leaderboard_query_sorted _ _ _ _ Hq). }
    split; [exact Hs|].
    intros snap ex Hsnap. rewrite Hr in Hsnap.
    destruct (num_eq offset (Int 0)).
    + inversion Hsnap; subst. exact Hs.
    + eapply Hc, Hsnap.
Qed.

(** ** Rank of a participant *)

Lemma select_score_no_record d u :
  (forall s, (u, s) ∉ scores d) -> select_score d u = [].
Proof.
  unfold select_score. induction (scores d) as [|[k v] l IH]; intros H;
    [reflexivity|]. cbn.
  destruct (String.eqb k u) eqn:E.
  - apply String.eqb_eq in E. subst k. exfalso. apply (H v). left.
  - cbn. apply IH. intros s Hs. apply (H s). right. exact Hs.
Qed.

Lemma scalar_score_record d u s :
  NoDup (map fst (scores d)) -> (u, s) ∈ scores d -> scalar_score d u = Some s.
Proof.
  unfold scalar_score, select_score.
  induction (scores d) as [|[k v] l IH]; intros Hnd Hin.
  - inversion Hin.
  - cbn in Hnd. apply NoDup_cons in Hnd as [Hk Hnd]. cbn.
    destruct (String.eqb k u) eqn:E.
    + apply String.eqb_eq in E. subst k. cbn.
      apply elem_of_cons in Hin as [Hin|Hin].
      * inversion Hin; subst. reflexivity.
      * exfalso. apply Hk. apply (list_elem_of_fmap_2 fst) in Hin. exact Hin.
    + apply String.eqb_neq in E.
      apply elem_of_cons in Hin as [Hin|Hin].
      * inversion Hin; subst. congruence.
      * cbn. apply IH; assumption.
Qed.

Lemma getTopUsers_total fault now limit offset w lim off :
  (forall k, fault k = false) ->
  pg_bound limit = Some lim -> pg_bound offset = Some off ->
  exists board w', getTopUsers fault now limit offset w = (Ok board, w').
Proof.
  intros Hf Hl Ho. unfold getTopUsers. rewrite rethrow_id.
  unfold bind, redis_get_top10, redis_setEx_top10, pool_query_opt, call, ret,
    leaderboard_query.
  rewrite Hl, Ho.
  destruct (num_eq offset (Int 0)); rewrite ?Hf; cbn.
  - destruct (live now _); [eauto|]. rewrite ?Hf. cbn. rewrite ?Hf. eauto.
  - eauto.
Qed.

(** ** C7 *)

(** C7.  For a participant with a score record [(u, s)] (at most one per
    participant), [getUserRank] returns 1 plus the number of participants
    whose score is strictly greater than [s].  A listing that [getTopUsers]
    returns is in descending order of score (the cache holding descending
    snapshots only, which is all [getTopUsers] ever writes to it), and on a
    store that answers [getTopUsers(10, 0)] does return one.  With the
    scores 500, 450, 150 and 100 the participant at 450 has rank 2 and
    [getTopUsers(10, 0)] lists 500, 450, 150, 100. *)
Theorem C7_rank_counts_strictly_greater_scores fault now u s w :
  NoDup (map fst (scores (db w))) ->
  (u, s) ∈ scores (db w) ->
  fault (length (trace w)) = false ->
  cache_sorted (redis w) ->
  getUserRank fault u w =
    (Ok (1 + strictly_greater (db w) s), log_event w PgRank) /\
  (forall limit offset board w',
     getTopUsers fault now limit offset w = (Ok board, w') ->
     sorted_desc (map score board)) /\
  ((forall k, fault k = false) ->
   exists board w',
     getTopUsers fault now (Int 10) (Int 0) w = (Ok board, w') /\
     sorted_desc (map score board)) /\
  fst (getUserRank no_fault "u2" (idle four_players)) = Ok 2 /\
  exists board w',
    getTopUsers no_fault server_time (Int 10) (Int 0) (idle four_players)
      = (Ok board, w') /\
    map score board = [500; 450; 150; 100].
Proof.
  intros Hnd Hin Hf Hc. split; [| split; [| split; [| split]]].
  - rewrite getUserRank_run, Hf. unfold rank_query, strictly_greater.
    rewrite (scalar_score_record _ _ _ Hnd Hin). cbn [sql_gt].
    do 2 f_equal. lia.
  - intros limit offset board w' Hrun.
    exact (proj1 (getTopUsers_sorted _ _ _ _ _ _ _ Hc Hrun)).
  - intros Hall.
    destruct (getTopUsers_total fault now (Int 10) (Int 0) w 10 0 Hall
                eq_refl eq_refl) as (board & w' & Hrun).
    exists board, w'. split; [exact Hrun|].
    exact (proj1 (getTopUsers_sorted _ _ _ _ _ _ _ Hc Hrun)).
  - reflexivity.
  - eexists _, _. split; [vm_compute; reflexivity | reflexivity].
Qed.

Lemma cache_sorted_empty : cache_sorted empty_redis.
Proof. intros snap ex H. discriminate H. Qed.

Lemma C7_witness :
  getUserRank no_fault "u2" (idle four_players) =
    (Ok (1 + strictly_greater four_players 450),
     log_event (idle four_players) PgRank) /\
  1 + strictly_greater four_players 450 = 2 /\
  exists board w',
    getTopUsers no_fault server_time (Int 10) (Int 0) (idle four_players)
      = (Ok board, w') /\
    sorted_desc (map score board).
Proof.
  assert (Hnd : NoDup (map fst (scores (db (idle four_players)))))
    by (apply (bool_decide_unpack _); vm_compute; exact I).
  assert (Hin : ("u2", 450) ∈ scores (db (idle four_players)))
    by (cbn; right; left).
  destruct (C7_rank_counts_strictly_greater_scores no_fault server_time
              "u2" 450 (idle four_players) Hnd Hin eq_refl cache_sorted_empty)
    as (Hrank & _ & Htop & _).
  split; [exact Hrank|]. split; [reflexivity|].
  exact (Htop (fun _ => eq_refl)).
Defined.

(** ** C10 *)

Lemma getLeaderboard_userRank fault now limit offset u w resp w' :
  (forall k, fault k = false) ->
  u <> "" ->
  getLeaderboard fault now limit offset (Some u) w = (Ok resp, w') ->
  lr_userRank resp = Some (rank_query_coalesce (db w) u).
Proof.
  intros Hf Hu Hrun. unfold getLeaderboard in Hrun.
  apply bind_ok_inv in Hrun as (board & w1 & Htop & Hrun).
  apply bind_ok_inv in Hrun as (total & w2 & Htot & Hrun).
  apply bind_ok_inv in Hrun as (rk & w3 & Hrk & Hrun).
  inversion Hrun; subst; clear Hrun. cbn.
  pose proof (getTopUsers_keeps db _ _ _ _ untraced_db uncached_db _ _ _ Htop)
    as Hd1.
  pose proof (getTotalUsers_keeps db _ untraced_db _ _ _ Htot) as Hd2.
  unfold truthy_string in Hrk.
  apply String.eqb_neq in Hu. rewrite Hu in Hrk.
  unfold try_catch, bind, pool_query, call, ret in Hrk. rewrite Hf in Hrk.
  cbn in Hrk. inversion Hrk; subst. rewrite Hd2, Hd1. reflexivity.
Qed.

Lemma filter_nothing {A} (l : list A) : List.filter (fun _ => false) l = [].
Proof. induction l; [reflexivity | assumption]. Qed.

Lemma filter_positive_nonempty (l : list (string * Z)) p s :
  (p, s) ∈ l -> 0 < s ->
  (0 < length (List.filter (fun r => (0 <? snd r)%Z) l))%nat.
Proof.
  intros Hin Hs. induction l as [|[k v] l IH]; [inversion Hin|].
  apply elem_of_cons in Hin as [Hin|Hin]; cbn.
  - inversion Hin; subst. apply Z.ltb_lt in Hs. rewrite Hs. cbn. lia.
  - destruct (0 <? v); cbn; [lia | apply IH, Hin].
Qed.

(** C10.  For a participant without a score record, on a store that
    answers: [getUserRank] returns 1, however many participants have
    positive scores, because the comparison with the absent row's NULL
    keeps no row; the personalised rank of [getLeaderboard] is 1 as well;
    [getUserScore] (the participant's score not being cached) reports 0;
    and as soon as some participant has a positive score, that rank 1 is
    not 1 plus the number of participants with a score above 0. *)
Theorem C10_rank_of_participant_without_record fault now u w :
  (forall s, (u, s) ∉ scores (db w)) ->
  (forall k, fault k = false) ->
  getUserRank fault u w = (Ok 1, log_event w PgRank) /\
  (forall limit offset resp w',
     u <> "" ->
     getLeaderboard fault now limit offset (Some u) w = (Ok resp, w') ->
     lr_userRank resp = Some 1) /\
  (live now (user_score (redis w) !! u) = None ->
   exists w', getUserScore fault now u w = (Ok 0, w')) /\
  ((exists p s, (p, s) ∈ scores (db w) /\ 0 < s) ->
   1 <> 1 + strictly_greater (db w) 0).
Proof.
  intros Hno Hf.
  pose proof (select_score_no_record _ _ Hno) as Hsel.
  assert (Hrank : rank_query (db w) u = 1).
  { unfold rank_query, scalar_score. rewrite Hsel. cbn.
    rewrite filter_nothing. reflexivity. }
  assert (Hrank' : rank_query_coalesce (db w) u = 1).
  { unfold rank_query_coalesce, scalar_score_coalesce. rewrite Hsel. cbn.
    rewrite filter_nothing. reflexivity. }
  split; [| split; [| split]].
  - rewrite getUserRank_run, Hf, Hrank. reflexivity.
  - intros limit offset resp w' Hu Hrun.
    rewrite (getLeaderboard_userRank _ _ _ _ _ _ _ _ Hf Hu Hrun), Hrank'.
    reflexivity.
  - intros Hmiss. unfold getUserScore. rewrite rethrow_id.
    unfold bind, ensureConnected, try_catch, redis_get_user_score,
      redis_setEx_user_score, pool_query, call, ret.
    repeat first [rewrite Hf | rewrite Hmiss | rewrite Hsel | progress cbn].
    eauto.
  - intros (p & s & Hin & Hs). unfold strictly_greater.
    pose proof (filter_positive_nonempty _ _ _ Hin Hs). lia.
Qed.

Lemma C10_witness :
  getUserRank no_fault "newcomer" (idle four_players) =
    (Ok 1, log_event (idle four_players) PgRank) /\
  (exists w', getUserScore no_fault server_time "newcomer" (idle four_players)
              = (Ok 0, w')) /\
  1 <> 1 + strictly_greater four_players 0.
Proof.
  assert (Hno : forall s, ("newcomer", s) ∉ scores (db (idle four_players))).
  { intros s Hs. cbn in Hs.
    repeat (apply elem_of_cons in Hs as [Hs|Hs]; [discriminate Hs|]).
    inversion Hs. }
  destruct (C10_rank_of_participant_without_record no_fault server_time
              "newcomer" (idle four_players) Hno (fun _ => eq_refl))
    as (Hrank & _ & Hscore & Hne).
  split; [exact Hrank|]. split; [exact (Hscore eq_refl)|].
  apply Hne. exists "u1", 500. split; [cbn; left | lia].
Defined.

(** ** C4 *)

(** C4.  [getTopUsers] adds the offset to a row number that already counts
    the skipped rows ([getTopUsers_store_rank]: the entry at position [i]
    gets [2 * offset + i + 1]).  With the scores 500, 450, 150, 100, limit
    2 and offset 1, the listing answered from the store holds the second
    and third participants of the ranking and gives them the ranks 3 and 4,
    not 2 and 3; [getUserRank] gives the second participant the rank 2. *)
Theorem C4_rank_at_nonzero_offset_counts_offset_twice :
  exists board w',
    getTopUsers no_fault server_time (Int 2) (Int 1) (idle four_players)
      = (Ok board, w') /\
    trace w' = [PgLeaderboard] /\
    map (fun e => (user_id e, score e, rank e)) board =
      [("u2", 450, 3); ("u3", 150, 4)] /\
    (forall i e, board !! i = Some e -> rank e <> 1 + Z.of_nat i + 1) /\
    fst (getUserRank no_fault "u2" (idle four_players)) = Ok 2.
Proof.
  eexists _, _. split; [vm_compute; reflexivity|].
  split; [reflexivity|]. split; [reflexivity|]. split; [| reflexivity].
  intros [|[|i]] e He; cbn in He; inversion He; subst; cbn; lia.
Qed.

(** ** C5 *)

(** C5.  The cache is rewritten by every zero-offset query that reaches
    the store, whatever its limit.  [getTopUsers(1, 0)] on a cold cache
    stores its one-entry listing under [leaderboard:top10] with the expiry
    30 seconds ahead; one second later [getTopUsers(10, 0)] is served from
    that snapshot and returns one entry, while the store has four
    participants to list. *)
Theorem C5_short_window_repopulates_the_cache :
  exists b1 w1 b2 w2 rows,
    getTopUsers no_fault server_time (Int 1) (Int 0) (idle four_players)
      = (Ok b1, w1) /\
    leaderboard_top10 (redis w1) = Some (b1, server_time + 30 * 1000) /\
    map user_id b1 = ["u1"] /\
    getTopUsers no_fault (server_time + 1000) (Int 10) (Int 0) w1
      = (Ok b2, w2) /\
    b2 = b1 /\
    trace w2 = trace w1 ++ [RedisGet] /\
    leaderboard_query (db w1) (Int 10) (Int 0) = Some rows /\
    map row_user_id rows = ["u1"; "u2"; "u3"; "u4"].
Proof.
  eexists _, _, _, _, _.
  split; [vm_compute; reflexivity|].
  split; [reflexivity|]. split; [reflexivity|].
  split; [vm_compute; reflexivity|].
  split; [reflexivity|]. split; [reflexivity|].
  split; [vm_compute; reflexivity | reflexivity].
Qed.

(** ** C8 *)

Lemma parseInt_toString_plain t : plain_decimal t -> parseInt_toString t = t.
Proof.
  unfold plain_decimal, parseInt_toString. intros H.
  apply Z.ltb_lt in H. rewrite H. reflexivity.
Qed.

(** From 10^21 on the timestamp is printed in exponent notation and read
    back as its first digit. *)
Example validateTimestamp_exponent_notation :
  validateTimestamp 5 (Some (5 * 10 ^ 21)) = true /\
  validateTimestamp server_time (Some (5 * 10 ^ 21)) = false.
Proof. split; vm_compute; reflexivity. Qed.

Lemma validateTimestamp_window now t :
  t <> 0 -> plain_decimal t ->
  validateTimestamp now (Some t) = true <->
  now - maxTimeDiff <= t <= now + maxTimeDiff.
Proof.
  intros Ht Hp. unfold validateTimestamp. apply Z.eqb_neq in Ht. rewrite Ht.
  rewrite (parseInt_toString_plain _ Hp), Z.leb_le. lia.
Qed.

(** A timestamp other than 0 outside the window is rejected before any
    call on the store. *)
Lemma stale_timestamp_rejected fault now req user i t w :
  req_user req = Some user ->
  denotes (body_score_increment req) i -> 1 <= i <= 1000 ->
  body_timestamp req = Some t -> t <> 0 -> plain_decimal t ->
  ~ (now - maxTimeDiff <= t <= now + maxTimeDiff) ->
  updateUserScore fault now req w =
  (Failure 400 "INVALID_REQUEST" "Invalid timestamp - possible replay attack", w).
Proof.
  intros Hu Hd Hi Hts Ht Hp Hout. unfold updateUserScore. rewrite Hu, Hts.
  unfold validateScoreUpdateRequest. fold (increment_rejected (body_score_increment req)).
  assert (increment_rejected (body_score_increment req) = false) as ->
    by (apply increment_accepted_iff; eauto).
  destruct (validateTimestamp now (Some t)) eqn:Ev.
  - exfalso. apply Hout. apply validateTimestamp_window; assumption.
  - cbn. apply Z.eqb_neq in Ht. rewrite Ht. reflexivity.
Qed.

(** C8.  The timestamp 0 is supplied and lies far outside the window of
    five minutes around the server time, yet [validateTimestamp] and
    [validateScoreUpdateRequest] accept it, because their guards test the
    truthiness of the number: the mutation goes on to the store and
    commits. *)
Theorem C8_timestamp_zero_passes_validation :
  ~ (server_time - maxTimeDiff <= 0 <= server_time + maxTimeDiff) /\
  validateTimestamp server_time (Some 0) = true /\
  validateScoreUpdateRequest server_time (Int 50) (Some 0) = Ok true /\
  exists data w',
    updateUserScore no_fault server_time (request_of "u3" (Int 50) (Some 0))
      (idle four_players) = (Success data, w') /\
    sur_new_score data = 200 /\
    current_score (db w') "u3" = 200 /\
    length (score_history (db w')) = 1%nat.
Proof.
  split; [unfold server_time, maxTimeDiff; lia|].
  split; [reflexivity|]. split; [reflexivity|].
  eexists _, _. split; [vm_compute; reflexivity|].
  repeat split.
Qed.

(** ** C9 *)

(** An integral limit outside 1..100 is rejected before any call on the
    store or the cache. *)
Lemma limit_out_of_range_rejected fault now req n w :
  parseInt (or_default (query_limit req) "10") = Int n ->
  n < 1 \/ 100 < n ->
  getLeaderboardData fault now req w =
  (Failure 400 "INVALID_REQUEST" "Limit must be between 1 and 100", w).
Proof.
  intros Hp Hn. unfold getLeaderboardData. rewrite Hp.
  unfold num_gt, num_lt, Int.
  assert ((n * 1 <? 1 * 1) || (100 * 1 <? n * 1) = true) as ->.
  { apply orb_true_iff. destruct Hn; [left | right]; apply Z.ltb_lt; lia. }
  reflexivity.
Qed.

(** C9.  A negative offset is never checked, and a limit that is not a
    number passes the range check because both comparisons with NaN are
    false: either request reaches the store, whose query fails, and is
    answered 500 INTERNAL_ERROR instead of a validation error. *)
Theorem C9_negative_offset_and_nan_limit_reach_the_store :
  (exists w',
     getLeaderboardData no_fault server_time
       {| lreq_user := None; query_limit := None; query_offset := Some "-1" |}
       (idle four_players) =
     (Failure 500 "INTERNAL_ERROR"
        "An error occurred while fetching the leaderboard", w') /\
     trace w' = [PgLeaderboard]) /\
  (exists w',
     getLeaderboardData no_fault server_time
       {| lreq_user := None; query_limit := Some "abc"; query_offset := None |}
       (idle four_players) =
     (Failure 500 "INTERNAL_ERROR"
        "An error occurred while fetching the leaderboard", w') /\
     trace w' = [RedisGet; PgLeaderboard]).
Proof.
  split; eexists; (split; [vm_compute; reflexivity | reflexivity]).
Qed.

(** ** The cache holds descending snapshots: an invariant of the service *)

Lemma maintains_ret {A} (P : World -> Prop) (a : A) : maintains P (ret a).
Proof. intros w r w' HP H. inversion H; subst. exact HP. Qed.

Lemma maintains_throw {A} (P : World -> Prop) e : maintains P (@throw A e).
Proof. intros w r w' HP H. inversion H; subst. exact HP. Qed.

Lemma maintains_bind {A B} (P : World -> Prop) (m : M A) (k : A -> M B) :
  maintains P m -> (forall a, maintains P (k a)) -> maintains P (bind m k).
Proof.
  intros Hm Hk w r w' HP. unfold bind.
  destruct (m w) as [[a|e] w1] eqn:E; intros H.
  - eapply Hk; [| exact H]. eapply Hm; eassumption.
  - inversion H; subst. eapply Hm; eassumption.
Qed.

Lemma maintains_try_catch {A} (P : World -> Prop) (m : M A) h :
  maintains P m -> (forall e, maintains P (h e)) -> maintains P (try_catch m h).
Proof.
  intros Hm Hh w r w' HP. unfold try_catch.
  destruct (m w) as [[a|e] w1] eqn:E; intros H.
  - inversion H; subst. eapply Hm; eassumption.
  - eapply Hh; [| exact H]. eapply Hm; eassumption.
Qed.

Lemma maintains_call {A} fault (P : World -> Prop) ev (op : M A) :
  (forall w e, P w -> P (log_event w e)) ->
  maintains P op -> maintains P (call fault ev op).
Proof.
  intros Hl Hop w r w' HP. unfold call.
  destruct (fault _); intros H.
  - inversion H; subst. apply Hl, HP.
  - eapply Hop; [| exact H]. apply Hl, HP.
Qed.

Lemma keeps_maintains {X A} (f : World -> X) (P : World -> Prop) (m : M A) :
  (forall w w', f w' = f w -> P w -> P w') -> keeps f m -> maintains P m.
Proof. intros Hf Hk w r w' HP H. eapply Hf; [| exact HP]. eapply Hk, H. Qed.

Lemma cache_ok_top10 w w' :
  leaderboard_top10 (redis w') = leaderboard_top10 (redis w) ->
  cache_ok w -> cache_ok w'.
Proof. unfold cache_ok, cache_sorted. intros ->. auto. Qed.

Lemma cache_ok_log w e : cache_ok w -> cache_ok (log_event w e).
Proof. auto. Qed.

Lemma untraced_top10 : untraced (fun w => leaderboard_top10 (redis w)).
Proof. intros w ev. reflexivity. Qed.

Lemma getTopUsers_maintains_cache fault now limit offset :
  maintains cache_ok (getTopUsers fault now limit offset).
Proof.
  intros w [board|e] w' Hc Hrun.
  - exact (proj2 (getTopUsers_sorted _ _ _ _ _ _ _ Hc Hrun)).
  - revert Hrun. unfold getTopUsers. rewrite rethrow_id.
    unfold bind, redis_get_top10, redis_setEx_top10, pool_query_opt, call, ret.
    repeat match goal with
           | |- context [if ?c then _ else _] => destruct c
           | |- context [match ?c with Some _ => _ | None => _ end] => destruct c
           end; cbn; intros H; inversion H; subst; exact Hc.
Qed.

Lemma getLeaderboard_maintains_cache fault now limit offset u :
  maintains cache_ok (getLeaderboard fault now limit offset u).
Proof.
  unfold getLeaderboard.
  apply maintains_bind; [apply getTopUsers_maintains_cache | intros board].
  apply maintains_bind.
  { eapply keeps_maintains; [apply cache_ok_top10|].
    apply getTotalUsers_keeps, untraced_top10. }
  intros total.
  apply maintains_bind; [| intros ?; apply maintains_ret].
  destruct (truthy_string u); [| apply maintains_ret].
  eapply keeps_maintains; [apply cache_ok_top10|].
  unfold pool_query. keeps_tac. apply untraced_top10.
Qed.

Lemma broadcastLeaderboardUpdate_maintains_cache fault now u :
  maintains cache_ok (broadcastLeaderboardUpdate fault now u).
Proof.
  intros w r w' Hc. unfold broadcastLeaderboardUpdate.
  destruct (wss w); [| intros H; inversion H; subst; exact Hc].
  unfold try_catch, bind, ret.
  destruct (getLeaderboard _ _ _ _ _ _) as [[lb|e] w1] eqn:E;
    intros H; inversion H; subst;
    exact (getLeaderboard_maintains_cache _ _ _ _ _ _ _ _ Hc E).
Qed.

Lemma publishLeaderboardUpdate_maintains_cache fault now u :
  maintains cache_ok (publishLeaderboardUpdate fault now u).
Proof.
  intros w r w' Hc. rewrite publishLeaderboardUpdate_run.
  destruct (fault _); intros H; inversion H; subst; exact Hc.
Qed.

Lemma updateScore_maintains_cache fault now u i a ip ua :
  maintains cache_ok (updateScore fault now u i a ip ua).
Proof.
  intros w r w' Hc. unfold updateScore, pool_connect, client_BEGIN,
    client_select_for_update, client_upsert_score, client_insert_history,
    client_COMMIT, client_ROLLBACK, invalidateUserScoreCache,
    invalidateLeaderboardCache, ensureConnected, redis_del_user_score,
    redis_del_top10, try_finally, try_catch, bind, ret, throw, call,
    client_release, view, write.
  cbn.
  repeat (match goal with
          | |- context [fault ?k] => destruct (fault k)
          | |- context [tx w] => destruct (tx w)
          | |- context [upsert_score ?d ?u ?v] => destruct (upsert_score d u v)
          | |- context [insert_history ?d ?r] => destruct (insert_history d r)
          end; cbn).
  all: intros H; inversion H; subst; clear H.
  all: first [exact Hc | intros snap ex Hs; discriminate Hs].
Qed.

(** Both controllers leave a cache of descending snapshots as they found
    it, and the service starts with an empty cache. *)
Lemma updateUserScore_maintains_cache fault now req w resp w' :
  cache_ok w -> updateUserScore fault now req w = (resp, w') -> cache_ok w'.
Proof.
  intros Hc. unfold updateUserScore.
  destruct (req_user req) as [user|];
    [| intros H; inversion H; subst; exact Hc].
  destruct (validateScoreUpdateRequest _ _ _);
    [| intros H; inversion H; subst; exact Hc].
  match goal with |- context [bind ?m ?k w] =>
    assert (Hm : maintains cache_ok (bind m k));
    [| destruct (bind m k w) as [[d|e] w1] eqn:E;
       intros H; inversion H; subst; exact (Hm _ _ _ Hc E)]
  end.
  apply maintains_bind; [apply updateScore_maintains_cache | intros res].
  apply maintains_bind.
  { eapply keeps_maintains; [apply cache_ok_top10|].
    apply getUserRank_keeps, untraced_top10. }
  intros rk. apply maintains_bind.
  { eapply keeps_maintains; [apply cache_ok_top10|].
    apply isUserInTop10_keeps, untraced_top10. }
  intros top. apply maintains_bind; [| intros ?; apply maintains_ret].
  destruct top; [| apply maintains_ret].
  apply maintains_bind; [apply broadcastLeaderboardUpdate_maintains_cache|].
  intros _. apply publishLeaderboardUpdate_maintains_cache.
Qed.

Lemma getLeaderboardData_maintains_cache fault now req w resp w' :
  cache_ok w -> getLeaderboardData fault now req w = (resp, w') -> cache_ok w'.
Proof.
  intros Hc. unfold getLeaderboardData.
  destruct (_ || _); [intros H; inversion H; subst; exact Hc|].
  destruct (getLeaderboard _ _ _ _ _ _) as [[d|e] w1] eqn:E;
    intros H; inversion H; subst;
    exact (getLeaderboard_maintains_cache _ _ _ _ _ _ _ _ Hc E).
Qed.

Lemma idle_cache_ok d : cache_ok (idle d).
Proof. intros snap ex H. discriminate H. Qed.

(** * Further properties of the service *)

(** ** The score cache *)

Lemma getUserScore_hit fault now u w c :
  fault (length (trace w)) = false ->
  fault (S (length (trace w))) = false ->
  live now (user_score (redis w) !! u) = Some c ->
  getUserScore fault now u w =
  (Ok c, log_event (log_event w RedisEnsureConnected) RedisGet).
Proof.
  intros H0 H1 Hl. unfold getUserScore. rewrite rethrow_id.
  unfold bind. rewrite ensureConnected_run.
  unfold redis_get_user_score, call, ret.
  cbn. rewrite length_app. cbn. rewrite Nat.add_1_r, H1. cbn.
  rewrite Hl. reflexivity.
Qed.

Lemma getUserScore_miss fault now u w :
  (forall k, fault k = false) ->
  live now (user_score (redis w) !! u) = None ->
  exists w1,
    getUserScore fault now u w = (Ok (current_score (db w) u), w1) /\
    db w1 = db w /\ tx w1 = tx w /\
    user_score (redis w1) =
      <[u := (current_score (db w) u, now + USER_SCORE_CACHE_TTL * 1000)]>
        (user_score (redis w)) /\
    trace w1 = trace w ++ [RedisEnsureConnected; RedisGet; PgSelectScore;
                           RedisSetEx].
Proof.
  intros Hf Hl. unfold getUserScore. rewrite rethrow_id.
  unfold bind, ensureConnected, try_catch, redis_get_user_score,
    redis_setEx_user_score, pool_query, call, ret.
  repeat first [rewrite Hf | rewrite Hl | progress cbn].
  eexists. split; [reflexivity|]. cbn. rewrite <- !app_assoc. repeat split.
Qed.

(** X1.  Read-through with a time to live.  On a cache miss
    [getUserScore] returns the score of the store (0 without a record) and
    caches it for 300 seconds; until then every call returns that value
    and makes no call on PostgreSQL, whatever the database has become
    meanwhile; from the expiry on the store is read again. *)
Theorem X1_user_score_is_cached_for_300_seconds fault now now' u w d' :
  (forall k, fault k = false) ->
  live now (user_score (redis w) !! u) = None ->
  exists w1,
    getUserScore fault now u w = (Ok (current_score (db w) u), w1) /\
    db w1 = db w /\
    (now' < now + 300000 ->
     getUserScore fault now' u (set_db w1 d') =
     (Ok (current_score (db w) u),
      log_event (log_event (set_db w1 d') RedisEnsureConnected) RedisGet)) /\
    (now + 300000 <= now' ->
     exists w2,
       getUserScore fault now' u (set_db w1 d') = (Ok (current_score d' u), w2)).
Proof.
  intros Hf Hl.
  destruct (getUserScore_miss fault now u w Hf Hl)
    as (w1 & Hrun & Hdb & _ & Hc & _).
  exists w1. split; [exact Hrun|]. split; [exact Hdb|].
  assert (He : user_score (redis (set_db w1 d')) !! u =
               Some (current_score (db w) u, now + 300000)).
  { cbn. rewrite Hc. apply lookup_insert_eq. }
  split.
  - intros Hlt. apply getUserScore_hit; try apply Hf.
    rewrite He. cbn. apply Z.ltb_lt in Hlt. rewrite Hlt. reflexivity.
  - intros Hge.
    destruct (getUserScore_miss fault now' u (set_db w1 d') Hf)
      as (w2 & Hrun2 & _).
    { rewrite He. cbn. apply Z.ltb_ge in Hge. rewrite Hge. reflexivity. }
    exists w2. exact Hrun2.
Qed.

Lemma X1_witness :
  exists w1,
    getUserScore no_fault server_time "u3" (idle four_players) = (Ok 150, w1) /\
    getUserScore no_fault (server_time + 1000) "u3"
      (set_db w1 (with_scores four_players [("u3", 999)])) =
    (Ok 150,
     log_event (log_event (set_db w1 (with_scores four_players [("u3", 999)]))
                  RedisEnsureConnected) RedisGet).
Proof.
  destruct (X1_user_score_is_cached_for_300_seconds no_fault server_time
              (server_time + 1000) "u3" (idle four_players)
              (with_scores four_players [("u3", 999)])
              (fun _ => eq_refl) eq_refl)
    as (w1 & Hrun & _ & Hhit & _).
  exists w1. split; [exact Hrun|]. apply Hhit. unfold server_time. lia.
Defined.

(** ** updateScore on a store that answers *)

Lemma updateScore_healthy fault now u i a ip ua w r w' :
  (forall k, fault k = false) ->
  tx w = None ->
  updateScore fault now u i a ip ua w = (Ok r, w') ->
  redis w' =
    {| user_score := delete u (user_score (redis w));
       leaderboard_top10 := None;
       leaderboard_updates := leaderboard_updates (redis w) |} /\
  trace w' = trace w ++ [PoolConnect; PgBegin; PgSelectForUpdate; PgUpsertScore;
                         PgInsertHistory; PgCommit; RedisEnsureConnected;
                         RedisDel; RedisEnsureConnected; RedisDel].
Proof.
  intros Hf Htx. unfold updateScore, pool_connect, client_BEGIN,
    client_select_for_update, client_upsert_score, client_insert_history,
    client_COMMIT, client_ROLLBACK, invalidateUserScoreCache,
    invalidateLeaderboardCache, ensureConnected, redis_del_user_score,
    redis_del_top10, try_finally, try_catch, bind, ret, throw, call,
    client_release, view, write.
  repeat first [rewrite Hf | rewrite Htx | progress cbn].
  destruct (upsert_score _ _ _);
    repeat first [rewrite Hf | rewrite Htx | progress cbn];
    [| intros H; discriminate H].
  destruct (insert_history _ _);
    repeat first [rewrite Hf | rewrite Htx | progress cbn];
    [| intros H; discriminate H].
  intros H; inversion H; subst; clear H. cbn. rewrite <- !app_assoc.
  split; reflexivity.
Qed.

(** X2.  Invalidation on write.  After a committed [updateScore] (the
    score and its sum with the increment being safe integers), on a store
    and cache that answer, [getUserScore] returns the new score, also when
    a live cached value was there before the mutation, and the leaderboard
    cache is empty. *)
Theorem X2_score_read_after_update_is_fresh
    fault now now' u i a ip ua w r w1 :
  (forall k, fault k = false) ->
  tx w = None ->
  storable (current_score (db w) u) i ->
  updateScore fault now u i a ip ua w = (Ok r, w1) ->
  leaderboard_top10 (redis w1) = None /\
  exists w2,
    getUserScore fault now' u w1 = (Ok (current_score (db w) u + i), w2).
Proof.
  intros Hf Htx (_ & _ & Hsum) Hrun.
  destruct (updateScore_healthy _ _ _ _ _ _ _ _ _ _ Hf Htx Hrun) as [Hr _].
  destruct (updateScore_committed _ _ _ _ _ _ _ _ _ _ Htx Hrun Hsum)
    as (_ & _ & _ & Hcur & _).
  split; [rewrite Hr; reflexivity|].
  destruct (getUserScore_miss fault now' u w1 Hf) as (w2 & Hg & _).
  { rewrite Hr. cbn. rewrite lookup_delete_eq. reflexivity. }
  exists w2. rewrite Hg, Hcur. reflexivity.
Qed.

Lemma X2_witness :
  exists r w1 w2,
    updateScore no_fault server_time "u3" 50 None None None
      (set_redis (idle four_players)
         {| user_score := {["u3" := (150, server_time + 1000)]};
            leaderboard_top10 := None; leaderboard_updates := [] |})
      = (Ok r, w1) /\
    getUserScore no_fault server_time "u3" w1 = (Ok 200, w2).
Proof.
  eassert (Hrun : updateScore no_fault server_time "u3" 50 None None None
                    (set_redis (idle four_players)
                       {| user_score := {["u3" := (150, server_time + 1000)]};
                          leaderboard_top10 := None;
                          leaderboard_updates := [] |})
                  = (Ok _, _))
    by (vm_compute; reflexivity).
  destruct (X2_score_read_after_update_is_fresh no_fault server_time
              server_time "u3" 50 None None None
              (set_redis (idle four_players)
                 {| user_score := {["u3" := (150, server_time + 1000)]};
                    leaderboard_top10 := None; leaderboard_updates := [] |})
              _ _
              (fun _ => eq_refl) eq_refl
              ltac:(repeat split; vm_compute; discriminate)
              Hrun) as [_ [w2 Hg]].
  eexists _, _, w2. split; [exact Hrun | exact Hg].
Defined.

(** ** The mutation and the tables *)


Lemma existsb_key (l : list (string * Z)) u :
  existsb (fun r => String.eqb (fst r) u) l = true <-> u ∈ map fst l.
Proof.
  induction l as [|[k y] l IH]; cbn.
  - split; [discriminate | intros H; inversion H].
  - rewrite orb_true_iff, IH, elem_of_cons, String.eqb_eq.
    split; intros [H|H]; auto.
Qed.

Lemma upsert_score_keys d u x d1 :
  upsert_score d u x = Some d1 ->
  ((u ∈ map fst (scores d)) /\ map fst (scores d1) = map fst (scores d)) \/
  ((u ∉ map fst (scores d)) /\
   map fst (scores d1) = map fst (scores d) ++ [u]).
Proof.
  intros H. apply upsert_score_Some in H as (_ & _ & ->). cbn.
  destruct (existsb _ (scores d)) eqn:E.
  - left. split; [apply existsb_key, E|].
    clear E. induction (scores d) as [|[k y] l IH]; [reflexivity|]. cbn.
    destruct (String.eqb k u); cbn; f_equal; exact IH.
  - right. split.
    + intros Hin. apply existsb_key in Hin. congruence.
    + rewrite map_app. reflexivity.
Qed.

(** What a mutation request leaves in the committed database: nothing, or
    the two writes of one unit of work. *)
Lemma updateUserScore_db fault now req w resp w' :
  tx w = None ->
  updateUserScore fault now req w = (resp, w') ->
  db w' = db w \/
  exists user d1,
    req_user req = Some user /\
    1 <= int_value (body_score_increment req) <= 1000 /\
    upsert_score (db w) (userId user)
      (Number_add (current_score (db w) (userId user))
         (int_value (body_score_increment req))) = Some d1 /\
    insert_history d1
      (history_params now (userId user) (int_value (body_score_increment req))
         (current_score (db w) (userId user))
         (body_action_id req) (req_ip req) (req_user_agent req))
    = Some (db w').
Proof.
  intros Htx Hrun.
  destruct (req_user req) as [user|] eqn:Hu.
  2:{ unfold updateUserScore in Hrun. rewrite Hu in Hrun.
      inversion Hrun; subst. auto. }
  destruct (validateScoreUpdateRequest now (body_score_increment req)
              (body_timestamp req)) as [b|e] eqn:Hv.
  2:{ unfold updateUserScore in Hrun. rewrite Hu, Hv in Hrun.
      inversion Hrun; subst. auto. }
  assert (b = true) as ->.
  { unfold validateScoreUpdateRequest in Hv.
    repeat match type of Hv with (if ?c then _ else _) = _ => destruct c end;
      congruence. }
  pose proof (validated_increment _ _ _ Hv) as Hi.
  destruct (updateUserScore_run fault now req user w Hu Hv)
    as (rest & Hrun' & Hkdb & Hktx).
  rewrite Hrun' in Hrun. unfold bind in Hrun.
  destruct (updateScore _ _ _ _ _ _ _ _) as [[res|e] w1] eqn:Hupd;
    destruct (updateScore_spec _ _ _ _ _ _ _ _ _ _ Htx Hupd)
      as (_ & _ & Hcase).
  - destruct Hcase as (_ & _ & _ & d1 & Hup & Hins).
    destruct (rest res w1) as [[data|e] w2] eqn:Hrest;
      inversion Hrun; subst; clear Hrun;
      rewrite (Hkdb _ _ _ _ Hrest);
      (right; exists user, d1; auto).
  - destruct Hcase as (Hdb & _). inversion Hrun; subst. auto.
Qed.



(** X4.  No lost update between consecutive mutations.  Two committed
    calls of [updateScore] for one participant, the second on the state
    the first leaves, add both increments (the scores on the way being
    safe integers): the second reads what the first wrote, and the
    history gains the two entries in order, the second starting at the
    score where the first ends. *)
Theorem X4_consecutive_mutations_accumulate
    fault now1 now2 u i1 i2 a1 a2 ip ua w r1 w1 r2 w2 :
  tx w = None ->
  storable (current_score (db w) u) i1 ->
  storable (current_score (db w) u + i1) i2 ->
  updateScore fault now1 u i1 a1 ip ua w = (Ok r1, w1) ->
  updateScore fault now2 u i2 a2 ip ua w1 = (Ok r2, w2) ->
  let s := current_score (db w) u in
  previousScore r2 = newScore r1 /\
  newScore r2 = s + i1 + i2 /\
  current_score (db w2) u = s + i1 + i2 /\
  score_history (db w2) =
    score_history (db w) ++
    [audit_row now1 u i1 s a1 ip ua; audit_row now2 u i2 (s + i1) a2 ip ua].
Proof.
  intros Htx (_ & _ & Hsum1) (_ & _ & Hsum2) H1 H2 s. fold s in Hsum1, Hsum2.
  destruct (updateScore_committed _ _ _ _ _ _ _ _ _ _ Htx H1 Hsum1)
    as (-> & Htx1 & _ & Hmid & Hh1).
  fold s in Hmid, Hh1.
  rewrite <- Hmid in Hsum2.
  destruct (updateScore_committed _ _ _ _ _ _ _ _ _ _ Htx1 H2 Hsum2)
    as (-> & _ & _ & Hcur & Hh2).
  rewrite Hmid in Hcur, Hh2.
  cbn [previousScore newScore]. fold s. rewrite Hmid.
  repeat split; [exact Hcur|].
  rewrite Hh2, Hh1, <- app_assoc. reflexivity.
Qed.

Lemma X4_witness :
  exists r1 w1 r2 w2,
    updateScore no_fault server_time "u3" 50 None None None
      (idle four_players) = (Ok r1, w1) /\
    updateScore no_fault server_time "u3" 7 None None None w1 = (Ok r2, w2) /\
    newScore r2 = 150 + 50 + 7 /\
    current_score (db w2) "u3" = 150 + 50 + 7.
Proof.
  eassert (H1 : updateScore no_fault server_time "u3" 50 None None None
                  (idle four_players) = (Ok _, _))
    by (vm_compute; reflexivity).
  match type of H1 with
  | _ = (_, ?w1) =>
      eassert (H2 : updateScore no_fault server_time "u3" 7 None None None w1
                    = (Ok _, _))
        by (vm_compute; reflexivity)
  end.
  destruct (X4_consecutive_mutations_accumulate no_fault server_time
              server_time "u3" 50 7 None None None None (idle four_players)
              _ _ _ _ eq_refl
              ltac:(repeat split; vm_compute; discriminate)
              ltac:(repeat split; vm_compute; discriminate)
              H1 H2) as (_ & Hn & Hc & _).
  eexists _, _, _, _. split; [exact H1|]. split; [exact H2|].
  split; [exact Hn | exact Hc].
Defined.



Lemma registered_users d d' u :
  users d' = users d -> registered d' u = registered d u.
Proof. unfold registered. intros ->. reflexivity. Qed.

Lemma two_writes_keep_one_row d u x d1 row d2 :
  NoDup (map fst (scores d)) ->
  upsert_score d u x = Some d1 ->
  insert_history d1 row = Some d2 ->
  NoDup (map fst (scores d2)).
Proof.
  intros Hnd Hup Hins.
  destruct (insert_history_inv _ _ _ Hins) as (_ & -> & _).
  destruct (upsert_score_keys _ _ _ _ Hup) as [[_ ->] | [Hnin ->]]; auto.
  apply NoDup_app. split; [exact Hnd|]. split.
  - intros v Hv Hv'. apply list_elem_of_singleton in Hv'. subst v. auto.
  - apply NoDup_singleton.
Qed.

Lemma db_wf_two_writes d u x d1 row d2 :
  db_wf d ->
  upsert_score d u x = Some d1 ->
  insert_history d1 row = Some d2 ->
  h_user_id row = u ->
  h_new_score row = h_previous_score row + h_score_increment row ->
  db_wf d2.
Proof.
  intros [Hnd Hfk Hhfk Hhrow Hsum] Hup Hins Hru Hrs.
  change (h_user_id (history_keeps row) = u) in Hru.
  change (h_new_score (history_keeps row) =
          h_previous_score (history_keeps row)
          + h_score_increment (history_keeps row)) in Hrs.
  destruct (upsert_score_inv _ _ _ _ Hup) as (Hreg & Hus1 & Hh1 & _).
  destruct (insert_history_inv _ _ _ Hins) as (Hus2 & Hs2 & Hh2).
  assert (Hus : users d2 = users d) by congruence.
  assert (Hkeys : forall v, v ∈ map fst (scores d2) ->
                            v = u \/ v ∈ map fst (scores d)).
  { intros v. rewrite Hs2.
    destruct (upsert_score_keys _ _ _ _ Hup) as [[_ ->] | [_ ->]]; auto.
    rewrite elem_of_app, list_elem_of_singleton. tauto. }
  assert (Hsub : forall v, v ∈ map fst (scores d) -> v ∈ map fst (scores d2)).
  { intros v. rewrite Hs2.
    destruct (upsert_score_keys _ _ _ _ Hup) as [[_ ->] | [_ ->]]; auto.
    rewrite elem_of_app. auto. }
  assert (Hukey : u ∈ map fst (scores d2)).
  { rewrite Hs2.
    destruct (upsert_score_keys _ _ _ _ Hup) as [[Hin ->] | [_ ->]]; auto.
    rewrite elem_of_app, list_elem_of_singleton. auto. }
  constructor.
  - exact (two_writes_keep_one_row _ _ _ _ _ _ Hnd Hup Hins).
  - intros v s Hv. rewrite (registered_users _ _ _ Hus).
    destruct (Hkeys v) as [-> | Hold]; [| exact Hreg |].
    + apply (list_elem_of_fmap_2 fst) in Hv. exact Hv.
    + apply list_elem_of_fmap in Hold as ([v' s'] & -> & Hin).
      eapply Hfk, Hin.
  - intros e He. rewrite (registered_users _ _ _ Hus).
    rewrite Hh2, Hh1, elem_of_app, list_elem_of_singleton in He.
    destruct He as [He | ->]; [apply Hhfk, He | rewrite Hru; exact Hreg].
  - intros e He.
    rewrite Hh2, Hh1, elem_of_app, list_elem_of_singleton in He.
    destruct He as [He | ->]; [apply Hsub, Hhrow, He | rewrite Hru; exact Hukey].
  - intros e He.
    rewrite Hh2, Hh1, elem_of_app, list_elem_of_singleton in He.
    destruct He as [He | ->]; [apply Hsum, He | exact Hrs].
Qed.

(** X6.  The constraints of the tables are an invariant of the mutation
    endpoint.  From a well-formed database (one score row per participant,
    score rows and audit entries of registered users only, no audit entry
    without a score row of its participant, every audit entry with
    [new_score = previous_score + score_increment]) every mutation
    request of a participant whose score, raised by a valid increment, is
    a safe integer, whatever it is answered and whatever calls fail,
    leaves a well-formed database. *)
Theorem X6_mutation_keeps_the_tables_well_formed fault now req w resp w' :
  db_wf (db w) ->
  tx w = None ->
  safe_request (db w) req ->
  updateUserScore fault now req w = (resp, w') ->
  db_wf (db w').
Proof.
  intros Hwf Htx Hsafe Hrun.
  destruct (updateUserScore_db _ _ _ _ _ _ Htx Hrun)
    as [Hdb | (user & d1 & Hu & Hi & Hup & Hins)].
  - rewrite Hdb. exact Hwf.
  - eapply db_wf_two_writes;
      [exact Hwf | exact Hup | exact Hins | reflexivity |].
    apply Number_add_safe.
    apply (safe_score_storable _ _ _ (Hsafe user Hu) Hi).
Qed.

Lemma four_players_wf : db_wf four_players.
Proof.
  constructor.
  - apply (bool_decide_unpack _). vm_compute. exact I.
  - intros u s Hin. cbn in Hin.
    repeat (apply elem_of_cons in Hin as [Hin|Hin];
            [inversion Hin; subst; reflexivity|]).
    inversion Hin.
  - intros e He. inversion He.
  - intros e He. inversion He.
  - intros e He. inversion He.
Qed.

Lemma X6_witness :
  exists resp w',
    updateUserScore no_fault server_time (request_of "u3" (Int 50) None)
      (idle four_players) = (resp, w') /\
    db_wf (db w').
Proof.
  eassert (Hrun : updateUserScore no_fault server_time
                    (request_of "u3" (Int 50) None) (idle four_players)
                  = (_, _)) by (vm_compute; reflexivity).
  eexists _, _. split; [exact Hrun|].
  refine (X6_mutation_keeps_the_tables_well_formed no_fault server_time
            (request_of "u3" (Int 50) None) (idle four_players) _ _
            four_players_wf eq_refl _ Hrun).
  intros user Hu. injection Hu as <-. split; vm_compute; discriminate.
Defined.

(** X7.  An identity without a row in [users] cannot score.  For a
    validated request of such a participant the upsert violates the
    foreign key: the mutation is answered 500 INTERNAL_ERROR and the
    committed database is the one before, with neither a score row nor an
    audit entry for the stranger. *)
Theorem X7_unregistered_participant_is_refused fault now req user w :
  req_user req = Some user ->
  validateScoreUpdateRequest now (body_score_increment req)
    (body_timestamp req) = Ok true ->
  tx w = None ->
  registered (db w) (userId user) = false ->
  exists w',
    updateUserScore fault now req w =
      (Failure 500 "INTERNAL_ERROR"
         "An error occurred while updating the score", w') /\
    db w' = db w.
Proof.
  intros Hu Hv Htx Hreg.
  destruct (updateUserScore_run fault now req user w Hu Hv)
    as (rest & Hrun & _ & _).
  rewrite Hrun. unfold bind.
  destruct (updateScore _ _ _ _ _ _ _ _) as [[res|e] w1] eqn:Hupd;
    destruct (updateScore_spec _ _ _ _ _ _ _ _ _ _ Htx Hupd)
      as (_ & _ & Hcase).
  - exfalso. destruct Hcase as (_ & _ & _ & d1 & Hup & _).
    destruct (upsert_score_inv _ _ _ _ Hup) as (Hr & _). congruence.
  - destruct Hcase as (Hdb & _). exists w1. auto.
Qed.

Lemma X7_witness :
  exists w',
    updateUserScore no_fault server_time (request_of "ghost" (Int 50) None)
      (idle four_players) =
    (Failure 500 "INTERNAL_ERROR"
       "An error occurred while updating the score", w') /\
    db w' = four_players.
Proof.
  exact (X7_unregistered_participant_is_refused no_fault server_time
           (request_of "ghost" (Int 50) None)
           {| userId := "ghost"; payload_username := "ghost" |}
           (idle four_players) eq_refl eq_refl eq_refl eq_refl).
Defined.

(** ** Ranks *)

Lemma filter_length_insert_desc {A} (key : A -> Z) (f : A -> bool) x l :
  length (List.filter f (insert_desc key x l)) =
  length (List.filter f (x :: l)).
Proof.
  induction l as [|y r IH]; [reflexivity|]. cbn.
  destruct (key y <=? key x); [reflexivity|]. cbn in *.
  destruct (f y), (f x); cbn in *; lia.
Qed.

Lemma filter_length_order_desc {A} (key : A -> Z) (f : A -> bool) l :
  length (List.filter f (order_desc key l)) = length (List.filter f l).
Proof.
  induction l as [|x r IH]; [reflexivity|]. cbn [order_desc].
  rewrite filter_length_insert_desc. cbn. destruct (f x); cbn; lia.
Qed.

Lemma elem_of_insert_desc {A} (key : A -> Z) x y l :
  y ∈ insert_desc key x l <-> y = x \/ y ∈ l.
Proof.
  induction l as [|z r IH]; cbn.
  - rewrite list_elem_of_singleton. split; [auto|].
    intros [H|H]; [exact H | inversion H].
  - destruct (key z <=? key x).
    + rewrite elem_of_cons. reflexivity.
    + rewrite !elem_of_cons, IH. tauto.
Qed.

Lemma elem_of_order_desc {A} (key : A -> Z) y l :
  y ∈ order_desc key l <-> y ∈ l.
Proof.
  induction l as [|x r IH]; cbn; [reflexivity|].
  rewrite elem_of_insert_desc, elem_of_cons, IH. reflexivity.
Qed.

Lemma filter_length_from {A} (f : A -> bool) l : forall p,
  (forall j x, l !! j = Some x -> (p <= j)%nat -> f x = false) ->
  (length (List.filter f l) <= p)%nat.
Proof.
  induction l as [|y r IH]; intros p H; cbn; [lia|].
  destruct p as [|p].
  - rewrite (H 0%nat y eq_refl) by lia.
    apply IH. intros j x Hj _. apply (H (S j) x Hj). lia.
  - assert (length (List.filter f r) <= p)%nat.
    { apply IH. intros j x Hj Hp. apply (H (S j) x Hj). lia. }
    destruct (f y); cbn; lia.
Qed.

(** In the ranking, fewer rows than its position score strictly more than
    a row. *)
Lemma strictly_greater_le_position d p u s :
  order_desc snd (scores d) !! p = Some (u, s) ->
  (strictly_greater d s <= Z.of_nat p).
Proof.
  intros Hp. unfold strictly_greater.
  rewrite <- (filter_length_order_desc snd).
  apply Nat2Z.inj_le. apply filter_length_from.
  intros j [v x] Hj Hle. cbn. apply Z.ltb_ge.
  destruct (decide (j = p)) as [-> | Hne].
  - rewrite Hp in Hj. inversion Hj. lia.
  - apply (strongly_sorted_lookup (fun r : string * Z => snd r)
             (order_desc snd (scores d)) (order_desc_sorted _ _)
             p j (u, s) (v, x)); [lia | exact Hp | exact Hj].
Qed.

Lemma top10_query_position d u :
  0 < top10_query d u ->
  exists p s, (p < 10)%nat /\ order_desc snd (scores d) !! p = Some (u, s).
Proof.
  unfold top10_query. intros H.
  destruct (List.filter _ _) as [|[v s] t] eqn:E; [cbn in H; lia|].
  assert (Hin : In (v, s) (List.filter (fun r => String.eqb (fst r) u)
                             (take 10 (order_desc snd (scores d)))))
    by (rewrite E; left; reflexivity).
  apply List.filter_In in Hin as [Hin Hv]. cbn in Hv.
  apply String.eqb_eq in Hv. subst v.
  apply list_elem_of_In, list_elem_of_lookup in Hin as [p Hp].
  apply lookup_take_Some in Hp as [Hp Hlt]. eauto.
Qed.

Lemma top10_rank_le_10 d u :
  NoDup (map fst (scores d)) ->
  0 < top10_query d u ->
  1 <= rank_query d u <= 10.
Proof.
  intros Hnd Htop.
  destruct (top10_query_position _ _ Htop) as (p & s & Hp & Hl).
  assert (Hin : (u, s) ∈ scores d).
  { apply (elem_of_order_desc snd). eapply list_elem_of_lookup_2, Hl. }
  pose proof (strictly_greater_le_position _ _ _ _ Hl) as Hle.
  unfold rank_query. rewrite (scalar_score_record _ _ _ Hnd Hin).
  cbn [sql_gt]. unfold strictly_greater in Hle. lia.
Qed.

(** X8.  The two answers of a mutation agree.  From a well-formed
    database, a success response that says [is_top_10] carries a rank
    between 1 and 10: the rank counts the strictly greater scores, and all
    of them precede the participant's row among the first ten. *)
Theorem X8_top10_flag_implies_rank_at_most_10 fault now req w data w' :
  db_wf (db w) ->
  tx w = None ->
  updateUserScore fault now req w = (Success data, w') ->
  sur_is_top_10 data = true ->
  1 <= sur_rank data <= 10.
Proof.
  intros Hwf Htx Hrun Htop.
  apply updateUserScore_success_inv in Hrun
    as (user & res & w1 & w2 & Hu & _ & Hupd & _ & _ & _ & Hflag & Hdata).
  destruct (updateScore_spec _ _ _ _ _ _ _ _ _ _ Htx Hupd)
    as (_ & _ & _ & _ & _ & d1 & Hup & Hins).
  pose proof (two_writes_keep_one_row _ _ _ _ _ _ (wf_unique _ Hwf) Hup Hins)
    as Hnd1.
  rewrite Hdata. cbn [sur_rank].
  rewrite Htop in Hflag.
  destruct (fault (S (length (trace w1)))); [discriminate|].
  symmetry in Hflag. apply Z.ltb_lt in Hflag.
  apply top10_rank_le_10; [exact Hnd1 | exact Hflag].
Qed.

Lemma X8_witness :
  exists data w',
    updateUserScore no_fault server_time (request_of "u3" (Int 50) None)
      (idle four_players) = (Success data, w') /\
    sur_is_top_10 data = true /\
    1 <= sur_rank data <= 10.
Proof.
  eassert (Hrun : updateUserScore no_fault server_time
                    (request_of "u3" (Int 50) None) (idle four_players)
                  = (Success _, _)) by (vm_compute; reflexivity).
  eexists _, _. split; [exact Hrun|]. split; [reflexivity|].
  exact (X8_top10_flag_implies_rank_at_most_10 no_fault server_time
           (request_of "u3" (Int 50) None) (idle four_players) _ _
           four_players_wf eq_refl Hrun eq_refl).
Defined.

Lemma filter_length_mono {A} (f g : A -> bool) l :
  (forall x, f x = true -> g x = true) ->
  (length (List.filter f l) <= length (List.filter g l))%nat.
Proof.
  intros H. induction l as [|x r IH]; cbn; [lia|].
  destruct (f x) eqn:Ef.
  - rewrite (H x Ef). cbn. lia.
  - destruct (g x); cbn; lia.
Qed.

Lemma filter_length_lt {A} (f : A -> bool) l x :
  x ∈ l -> f x = false -> (length (List.filter f l) < length l)%nat.
Proof.
  intros Hin Hf. induction l as [|y r IH]; [inversion Hin|].
  cbn. pose proof (List.filter_length_le f r).
  apply elem_of_cons in Hin as [<- | Hin].
  - rewrite Hf. lia.
  - specialize (IH Hin). destruct (f y); cbn; lia.
Qed.

(** X9.  Ranks follow the scores.  With one score row per participant,
    the ranks [getUserRank] returns for two participants with records are
    ordered as their scores are: a score at least as high gives a rank at
    least as good, equal scores share their rank, and a rank lies between
    1 and the number of participants. *)
Theorem X9_ranks_are_ordered_like_scores fault a b sa sb w ra w1 rb w2 :
  NoDup (map fst (scores (db w))) ->
  (a, sa) ∈ scores (db w) ->
  (b, sb) ∈ scores (db w) ->
  getUserRank fault a w = (Ok ra, w1) ->
  getUserRank fault b w1 = (Ok rb, w2) ->
  (sb <= sa -> ra <= rb) /\
  (sa = sb -> ra = rb) /\
  1 <= ra <= Z.of_nat (length (scores (db w))).
Proof.
  intros Hnd Ha Hb H1 H2.
  rewrite getUserRank_run in H1. destruct (fault _); [discriminate|].
  inversion H1; subst; clear H1.
  rewrite getUserRank_run in H2. destruct (fault _); [discriminate|].
  inversion H2; subst; clear H2. cbn [db log_event].
  unfold rank_query.
  rewrite (scalar_score_record _ _ _ Hnd Ha), (scalar_score_record _ _ _ Hnd Hb).
  cbn [sql_gt].
  assert (Hmono : forall x y, y <= x ->
    (length (List.filter (fun r : string * Z => (x <? snd r)%Z)
               (scores (db w)))
     <= length (List.filter (fun r : string * Z => (y <? snd r)%Z)
                  (scores (db w))))%nat).
  { intros x y Hxy. apply filter_length_mono. intros r Hr.
    apply Z.ltb_lt in Hr. apply Z.ltb_lt. lia. }
  split; [| split].
  - intros Hle. pose proof (Hmono sa sb Hle). lia.
  - intros ->. reflexivity.
  - pose proof (filter_length_lt (fun r : string * Z => sa <? snd r)
                  (scores (db w)) (a, sa) Ha (Z.ltb_irrefl sa)).
    lia.
Qed.

Lemma four_players_unique : NoDup (map fst (scores (db (idle four_players)))).
Proof. apply (bool_decide_unpack _). vm_compute. exact I. Qed.

Lemma X9_witness :
  exists ra w1 rb w2,
    getUserRank no_fault "u2" (idle four_players) = (Ok ra, w1) /\
    getUserRank no_fault "u4" w1 = (Ok rb, w2) /\
    ra <= rb /\ 1 <= ra <= 4.
Proof.
  eassert (H1 : getUserRank no_fault "u2" (idle four_players) = (Ok _, _))
    by (vm_compute; reflexivity).
  match type of H1 with
  | _ = (_, ?w1) =>
      eassert (H2 : getUserRank no_fault "u4" w1 = (Ok _, _))
        by (vm_compute; reflexivity)
  end.
  destruct (X9_ranks_are_ordered_like_scores no_fault "u2" "u4" 450 100
              (idle four_players) _ _ _ _ four_players_unique
              ltac:(cbn; right; left) ltac:(cbn; do 3 right; left) H1 H2)
    as (Hord & _ & Hb).
  eexists _, _, _, _. split; [exact H1|]. split; [exact H2|].
  split; [apply Hord; lia | exact Hb].
Defined.

(** ** Listings and the leaderboard cache *)

Lemma row_number_listed l : forall k,
  map (fun r => (row_user_id r, row_username r, nearest_double (row_score r)))
      (row_number k l)
  = map (fun r => (fst r, nearest_double (snd r))) l.
Proof.
  induction l as [|[[uid name] sc] r IH]; intros k; [reflexivity|].
  cbn. rewrite IH. reflexivity.
Qed.

Lemma leaderboard_query_listed d limit offset rows :
  leaderboard_query d limit offset = Some rows ->
  exists lim off,
    pg_bound limit = Some lim /\ pg_bound offset = Some off /\
    map listed (map (to_entry offset) rows) = take lim (drop off (ranking d)).
Proof.
  unfold leaderboard_query.
  destruct (pg_bound limit) as [lim|]; [| discriminate].
  destruct (pg_bound offset) as [off|]; [| discriminate].
  intros H; inversion H; subst; clear H.
  exists lim, off. split; [reflexivity|]. split; [reflexivity|].
  rewrite map_map. unfold listed, to_entry, ranking. cbn.
  change (map ?f (take ?n ?l)) with (f <$> take n l).
  rewrite fmap_take, fmap_drop.
  change (?f <$> row_number 1 ?l) with (map f (row_number 1 l)).
  rewrite row_number_listed. reflexivity.
Qed.

(** A listing answered from the store is a window of the ranking. *)
Lemma getTopUsers_store_listing fault now limit offset w board w' :
  getTopUsers fault now limit offset w = (Ok board, w') ->
  (num_eq offset (Int 0) = false \/
   live now (leaderboard_top10 (redis w)) = None) ->
  exists lim off,
    pg_bound limit = Some lim /\ pg_bound offset = Some off /\
    map listed board = take lim (drop off (ranking (db w))) /\
    db w' = db w /\
    leaderboard_top10 (redis w') =
      if num_eq offset (Int 0)
      then Some (board, now + LEADERBOARD_CACHE_TTL * 1000)
      else leaderboard_top10 (redis w).
Proof.
  intros Hrun Hstore.
  destruct (getTopUsers_inv _ _ _ _ _ _ _ Hrun)
    as [Hdb [(E0 & snap & El & _) | (_ & rows & Hq & -> & Hc)]].
  - destruct Hstore; congruence.
  - destruct (leaderboard_query_listed _ _ _ _ Hq) as (lim & off & Hl & Ho & Hm).
    exists lim, off. auto.
Qed.

Lemma pg_bound_Int n :
  0 <= n <= 2 ^ 63 - 1 -> pg_bound (Int n) = Some (Z.to_nat n).
Proof.
  intros Hn.
  unfold pg_bound, Int, Number_isInteger, num_gt, num_lt, int_value.
  rewrite Z.mod_1_r. cbn [Z.eqb andb].
  replace (n * Z.pos 1 <? 0 * Z.pos 1) with false
    by (symmetry; apply Z.ltb_ge; lia).
  replace ((2 ^ 63 - 1) * Z.pos 1 <? n * Z.pos 1) with false
    by (symmetry; apply Z.ltb_ge; lia).
  cbn [negb andb]. rewrite Z.div_1_r. reflexivity.
Qed.

Lemma num_eq_Int_0 m : num_eq (Int m) (Int 0) = (m =? 0).
Proof. unfold num_eq, Int. rewrite Z.mul_1_r. reflexivity. Qed.

(** X10.  Consecutive pages tile the ranking.  Three listings answered
    from the store on an unchanged database without tied scores, the
    windows [(n, m)], [(n', m + n)] and [(n + n', m)] with a non-zero
    offset [m] and bounds that are safe integers: the third lists exactly
    the participants and scores of the first followed by those of the
    second, so that paging neither skips nor repeats a participant, and a
    page never has more entries than its limit. *)
Theorem X10_consecutive_pages_tile_the_ranking
    fault now n n' m w b1 w1 b2 w2 b3 w3 :
  0 < m -> 0 <= n -> 0 <= n' ->
  m + n + n' <= MAX_SAFE_INTEGER ->
  untied (db w) ->
  getTopUsers fault now (Int n) (Int m) w = (Ok b1, w1) ->
  getTopUsers fault now (Int n') (Int (m + n)) w1 = (Ok b2, w2) ->
  getTopUsers fault now (Int (n + n')) (Int m) w2 = (Ok b3, w3) ->
  map listed b3 = map listed (b1 ++ b2) /\
  (length b1 <= Z.to_nat n)%nat /\
  db w3 = db w.
Proof.
  intros Hm Hn Hn' Hsafe _ H1 H2 H3. unfold MAX_SAFE_INTEGER in Hsafe.
  assert (Hne : forall k, 0 < k -> num_eq (Int k) (Int 0) = false).
  { intros k Hk. rewrite num_eq_Int_0. apply Z.eqb_neq. lia. }
  destruct (getTopUsers_store_listing _ _ _ _ _ _ _ H1 (or_introl (Hne m Hm)))
    as (l1 & o1 & Hl1 & Ho1 & Hb1 & Hd1 & _).
  destruct (getTopUsers_store_listing _ _ _ _ _ _ _ H2
              (or_introl (Hne (m + n) ltac:(lia))))
    as (l2 & o2 & Hl2 & Ho2 & Hb2 & Hd2 & _).
  destruct (getTopUsers_store_listing _ _ _ _ _ _ _ H3 (or_introl (Hne m Hm)))
    as (l3 & o3 & Hl3 & Ho3 & Hb3 & Hd3 & _).
  rewrite pg_bound_Int in Hl1, Ho1, Hl2, Ho2, Hl3, Ho3 by lia.
  inversion Hl1; inversion Ho1; inversion Hl2; inversion Ho2;
    inversion Hl3; inversion Ho3; subst; clear Hl1 Ho1 Hl2 Ho2 Hl3 Ho3.
  split; [| split].
  - rewrite map_app, Hb3, Hb2, Hb1, Hd2, Hd1.
    rewrite !Z2Nat.inj_add by lia.
    rewrite <- drop_drop. apply eq_sym, take_take_drop.
  - rewrite <- (length_map listed), Hb1, length_take. lia.
  - congruence.
Qed.

Lemma X10_witness :
  exists b1 w1 b2 w2 b3 w3,
    getTopUsers no_fault server_time (Int 1) (Int 1) (idle four_players)
      = (Ok b1, w1) /\
    getTopUsers no_fault server_time (Int 2) (Int (1 + 1)) w1 = (Ok b2, w2) /\
    getTopUsers no_fault server_time (Int (1 + 2)) (Int 1) w2 = (Ok b3, w3) /\
    map listed b3 = map listed (b1 ++ b2).
Proof.
  eassert (H1 : getTopUsers no_fault server_time (Int 1) (Int 1)
                  (idle four_players) = (Ok _, _))
    by (vm_compute; reflexivity).
  match type of H1 with
  | _ = (_, ?w1) =>
      eassert (H2 : getTopUsers no_fault server_time (Int 2) (Int (1 + 1)) w1
                    = (Ok _, _)) by (vm_compute; reflexivity)
  end.
  match type of H2 with
  | _ = (_, ?w2) =>
      eassert (H3 : getTopUsers no_fault server_time (Int (1 + 2)) (Int 1) w2
                    = (Ok _, _)) by (vm_compute; reflexivity)
  end.
  destruct (X10_consecutive_pages_tile_the_ranking no_fault server_time
              1 2 1 (idle four_players) _ _ _ _ _ _
              ltac:(lia) ltac:(lia) ltac:(lia)
              ltac:(vm_compute; discriminate)
              ltac:(apply (bool_decide_unpack _); vm_compute; exact I)
              H1 H2 H3) as (Htile & _).
  eexists _, _, _, _, _, _.
  split; [exact H1|]. split; [exact H2|]. split; [exact H3 | exact Htile].
Defined.

Lemma slice0_all {A} (l : list A) limit lim :
  pg_bound limit = Some lim -> (length l <= lim)%nat -> slice0 l limit = l.
Proof.
  intros H Hlen. apply pg_bound_inv in H as (Ei & Ea & ->).
  destruct limit as [a d| |]; try discriminate Ei.
  unfold num_lt, Int in Ea. apply Z.ltb_ge in Ea.
  unfold slice0, slice_end, int_value in *.
  rewrite Z.quot_div_nonneg by lia.
  assert (0 <= a / Z.pos d) by (apply Z.div_pos; lia).
  assert ((a / Z.pos d <? 0) = false) as -> by (apply Z.ltb_ge; lia).
  apply take_ge. lia.
Qed.

(** X11.  The leaderboard cache serves a snapshot for 30 seconds and no
    longer.  After a zero-offset listing (with a limit that is a safe
    integer) was answered from the store, the same query asked again
    before the expiry gets the same listing and makes no call on
    PostgreSQL, whatever the database has become meanwhile; asked at or
    after the expiry it is answered from the store and, the database
    having no tied scores, lists the ranking of the database as it then
    is. *)
Theorem X11_listing_is_cached_for_30_seconds
    fault now now' limit w board w1 d' :
  (forall k, fault k = false) ->
  num_gt limit (Int MAX_SAFE_INTEGER) = false ->
  live now (leaderboard_top10 (redis w)) = None ->
  getTopUsers fault now limit (Int 0) w = (Ok board, w1) ->
  (now' < now + 30000 ->
   getTopUsers fault now' limit (Int 0) (set_db w1 d') =
   (Ok board, log_event (set_db w1 d') RedisGet)) /\
  (now + 30000 <= now' ->
   untied d' ->
   exists lim board' w2,
     pg_bound limit = Some lim /\
     getTopUsers fault now' limit (Int 0) (set_db w1 d') = (Ok board', w2) /\
     map listed board' = take lim (ranking d')).
Proof.
  intros Hf _ Hmiss Hrun.
  destruct (getTopUsers_store_listing _ _ _ _ _ _ _ Hrun (or_intror Hmiss))
    as (lim & off & Hl & Ho & Hb & _ & Hc).
  change (num_eq (Int 0) (Int 0)) with true in Hc. cbn iota in Hc.
  assert (Hlen : (length board <= lim)%nat).
  { rewrite <- (length_map listed), Hb, length_take. lia. }
  split.
  - intros Hlt.
    assert (Hlive : live now' (leaderboard_top10 (redis (set_db w1 d')))
                    = Some board).
    { cbn [redis set_db]. rewrite Hc. unfold live.
      destruct (now' <? _) eqn:E; [reflexivity|].
      apply Z.ltb_ge in E. unfold LEADERBOARD_CACHE_TTL in E. lia. }
    pose proof (getTopUsers_hit fault now' limit (Int 0) (set_db w1 d') board
                  eq_refl Hlive (Hf _)) as Hhit.
    rewrite (slice0_all board limit lim Hl Hlen) in Hhit. exact Hhit.
  - intros Hge _.
    assert (Hexp : live now' (leaderboard_top10 (redis (set_db w1 d'))) = None).
    { cbn [redis set_db]. rewrite Hc. unfold live.
      destruct (now' <? _) eqn:E; [| reflexivity].
      apply Z.ltb_lt in E. unfold LEADERBOARD_CACHE_TTL in E. lia. }
    destruct (getTopUsers_total fault now' limit (Int 0) (set_db w1 d') lim off
                Hf Hl Ho) as (board' & w2 & Hrun').
    destruct (getTopUsers_store_listing _ _ _ _ _ _ _ Hrun' (or_intror Hexp))
      as (lim' & off' & Hl' & Ho' & Hb' & _).
    rewrite Hl in Hl'. inversion Hl'; subst lim'.
    rewrite pg_bound_Int in Ho' by lia. inversion Ho'; subst off'.
    exists lim, board', w2. split; [exact Hl|]. split; [exact Hrun'|].
    exact Hb'.
Qed.

Lemma X11_witness :
  exists board w1,
    getTopUsers no_fault server_time (Int 10) (Int 0) (idle four_players)
      = (Ok board, w1) /\
    getTopUsers no_fault (server_time + 29999) (Int 10) (Int 0)
      (set_db w1 (with_scores four_players [("u4", 9999)])) =
    (Ok board,
     log_event (set_db w1 (with_scores four_players [("u4", 9999)])) RedisGet).
Proof.
  eassert (H1 : getTopUsers no_fault server_time (Int 10) (Int 0)
                  (idle four_players) = (Ok _, _))
    by (vm_compute; reflexivity).
  destruct (X11_listing_is_cached_for_30_seconds no_fault server_time
              (server_time + 29999) (Int 10) (idle four_players) _ _
              (with_scores four_players [("u4", 9999)])
              (fun _ => eq_refl) eq_refl eq_refl H1) as [Hhit _].
  eexists _, _. split; [exact H1|]. apply Hhit. lia.
Defined.

(** ** No stale leaderboard after a mutation *)

Lemma getTopUsers_throw fault now limit offset w e w' :
  getTopUsers fault now limit offset w = (Throw e, w') ->
  db w' = db w /\ redis w' = redis w.
Proof.
  unfold getTopUsers. rewrite rethrow_id.
  unfold bind, redis_get_top10, redis_setEx_top10, pool_query_opt, call, ret.
  repeat match goal with
         | |- context [if ?c then _ else _] => destruct c
         | |- context [match ?c with Some _ => _ | None => _ end] => destruct c
         end; cbn; intros H; inversion H; subst; split; reflexivity.
Qed.

Lemma cache_fresh_same w w' :
  leaderboard_top10 (redis w') = leaderboard_top10 (redis w) ->
  db w' = db w -> cache_fresh w -> cache_fresh w'.
Proof. unfold cache_fresh. intros -> ->. auto. Qed.

Lemma getTopUsers_10_maintains_fresh fault now :
  maintains cache_fresh (getTopUsers fault now (Int 10) (Int 0)).
Proof.
  intros w [board|e] w' Hc Hrun.
  - destruct (getTopUsers_inv _ _ _ _ _ _ _ Hrun)
      as [Hdb [(_ & snap & _ & _ & Hr) | (Hs & rows & Hq & Hb & Hr)]].
    + apply (cache_fresh_same w); [rewrite Hr; reflexivity | exact Hdb | exact Hc].
    + destruct Hs as [Hs | Hs]; [discriminate Hs|].
      destruct (getTopUsers_store_listing _ _ _ _ _ _ _ Hrun (or_intror Hs))
        as (lim & off & Hl & Ho & Hlist & _ & Hc').
      rewrite pg_bound_Int in Hl, Ho by lia.
      inversion Hl; inversion Ho; subst.
      intros snap ex Hsnap. rewrite Hc' in Hsnap.
      change (num_eq (Int 0) (Int 0)) with true in Hsnap. cbn iota in Hsnap.
      inversion Hsnap; subst. rewrite Hdb. exact Hlist.
  - destruct (getTopUsers_throw _ _ _ _ _ _ _ Hrun) as [Hdb Hr].
    apply (cache_fresh_same w); [rewrite Hr; reflexivity | exact Hdb | exact Hc].
Qed.

Lemma cache_fresh_keeps {A} (m : M A) :
  keeps (fun w => (leaderboard_top10 (redis w), db w)) m ->
  maintains cache_fresh m.
Proof.
  apply keeps_maintains. intros w w' H Hc. inversion H.
  apply (cache_fresh_same w); assumption.
Qed.

Lemma untraced_top10_db : untraced (fun w => (leaderboard_top10 (redis w), db w)).
Proof. intros w ev. reflexivity. Qed.

Lemma getLeaderboard_10_maintains_fresh fault now u :
  maintains cache_fresh (getLeaderboard fault now (Int 10) (Int 0) u).
Proof.
  unfold getLeaderboard.
  apply maintains_bind; [apply getTopUsers_10_maintains_fresh | intros board].
  apply maintains_bind.
  { apply cache_fresh_keeps, getTotalUsers_keeps, untraced_top10_db. }
  intros total.
  apply maintains_bind; [| intros ?; apply maintains_ret].
  destruct (truthy_string u); [| apply maintains_ret].
  apply cache_fresh_keeps. unfold pool_query. keeps_tac.
  apply untraced_top10_db.
Qed.

Lemma broadcastLeaderboardUpdate_maintains_fresh fault now u :
  maintains cache_fresh (broadcastLeaderboardUpdate fault now u).
Proof.
  intros w r w' Hc. unfold broadcastLeaderboardUpdate.
  destruct (wss w); [| intros H; inversion H; subst; exact Hc].
  unfold try_catch, bind, ret.
  destruct (getLeaderboard _ _ _ _ _ _) as [[lb|e] w1] eqn:E;
    intros H; inversion H; subst;
    exact (getLeaderboard_10_maintains_fresh _ _ _ _ _ _ Hc E).
Qed.

Lemma publishLeaderboardUpdate_maintains_fresh fault now u :
  maintains cache_fresh (publishLeaderboardUpdate fault now u).
Proof.
  intros w r w' Hc. rewrite publishLeaderboardUpdate_run.
  destruct (fault _); intros H; inversion H; subst; exact Hc.
Qed.

Lemma getTopUsers_10_fresh fault now w :
  (forall k, fault k = false) ->
  cache_fresh w ->
  exists board w',
    getTopUsers fault now (Int 10) (Int 0) w = (Ok board, w') /\
    map listed board = take 10 (ranking (db w)).
Proof.
  intros Hf Hc.
  destruct (getTopUsers_total fault now (Int 10) (Int 0) w 10 0 Hf
              eq_refl eq_refl) as (board & w' & Hrun).
  exists board, w'. split; [exact Hrun|].
  destruct (getTopUsers_inv _ _ _ _ _ _ _ Hrun)
    as [_ [(_ & snap & El & -> & _) | (Hs & _)]].
  - apply live_Some in El as [ex El]. specialize (Hc _ _ El).
    rewrite (slice0_all snap (Int 10) 10 eq_refl); [exact Hc|].
    rewrite <- (length_map listed), Hc, length_take. lia.
  - destruct Hs as [Hs | Hs]; [discriminate Hs|].
    destruct (getTopUsers_store_listing _ _ _ _ _ _ _ Hrun (or_intror Hs))
      as (lim & off & Hl & Ho & Hlist & _).
    rewrite pg_bound_Int in Hl, Ho by lia.
    inversion Hl; inversion Ho; subst. exact Hlist.
Qed.

(** X12.  No stale leaderboard survives a mutation.  On a store and a
    cache that answer, after a mutation request that is answered with
    success (the participant's score being a safe integer),
    [getTopUsers(10, 0)] asked at any later time is answered and, the
    database having no tied scores, lists the first ten of the ranking of
    the database as the mutation left it: the old snapshot was deleted,
    and a snapshot the broadcast may have cached since was computed after
    the commit. *)
Theorem X12_listing_after_a_mutation_is_current
    fault now now' req w data w' :
  (forall k, fault k = false) ->
  tx w = None ->
  safe_request (db w) req ->
  updateUserScore fault now req w = (Success data, w') ->
  exists board w2,
    getTopUsers fault now' (Int 10) (Int 0) w' = (Ok board, w2) /\
    (untied (db w') -> map listed board = take 10 (ranking (db w'))).
Proof.
  intros Hf Htx _ Hrun.
  cut (exists board w2,
         getTopUsers fault now' (Int 10) (Int 0) w' = (Ok board, w2) /\
         map listed board = take 10 (ranking (db w'))).
  { intros (board & w2 & Hg & Hl). exists board, w2. auto. }
  apply getTopUsers_10_fresh; [exact Hf|].
  apply updateUserScore_success_inv in Hrun
    as (user & res & w1 & w2 & _ & _ & Hupd & _ & Hw2 & Hpost & _ & _).
  subst w2.
  destruct (updateScore_healthy _ _ _ _ _ _ _ _ _ _ Hf Htx Hupd) as [Hr _].
  assert (Hc1 : cache_fresh (log_event (log_event w1 PgRank) PgTop10)).
  { intros snap ex Hs. cbn in Hs. rewrite Hr in Hs. discriminate Hs. }
  revert Hpost. destruct (sur_is_top_10 data).
  - intros Hpost.
    assert (Hm : maintains cache_fresh
              (broadcastLeaderboardUpdate fault now (Some (userId user)) ;;
               publishLeaderboardUpdate fault now (userId user))).
    { apply maintains_bind;
        [apply broadcastLeaderboardUpdate_maintains_fresh | intros _].
      apply publishLeaderboardUpdate_maintains_fresh. }
    exact (Hm _ _ _ Hc1 Hpost).
  - intros Hpost. inversion Hpost; subst. exact Hc1.
Qed.

Lemma X12_witness :
  exists data w' board w2,
    updateUserScore no_fault server_time (request_of "u4" (Int 300) None)
      (idle four_players) = (Success data, w') /\
    getTopUsers no_fault (server_time + 5) (Int 10) (Int 0) w'
      = (Ok board, w2) /\
    map listed board = take 10 (ranking (db w')).
Proof.
  eassert (Hrun : updateUserScore no_fault server_time
                    (request_of "u4" (Int 300) None) (idle four_players)
                  = (Success _, _)) by (vm_compute; reflexivity).
  destruct (X12_listing_after_a_mutation_is_current no_fault server_time
              (server_time + 5) (request_of "u4" (Int 300) None)
              (idle four_players) _ _ (fun _ => eq_refl) eq_refl
              ltac:(intros user Hu; injection Hu as <-;
                    split; vm_compute; discriminate)
              Hrun)
    as (board & w2 & Hg & Hl).
  eexists _, _, board, w2. split; [exact Hrun|]. split; [exact Hg |].
  apply Hl. apply (bool_decide_unpack _). vm_compute. exact I.
Defined.

(** ** The broadcast to the observers of this process *)

Lemma getLeaderboard_healthy fault now u w :
  (forall k, fault k = false) ->
  cache_fresh w ->
  exists lb w1,
    getLeaderboard fault now (Int 10) (Int 0) u w = (Ok lb, w1) /\
    map listed (lr_leaderboard lb) = take 10 (ranking (db w)) /\
    lr_userRank lb = (fun x => rank_query_coalesce (db w) x) <$> truthy_string u /\
    lr_totalUsers lb = count_query (db w) /\
    lr_lastUpdated lb = now /\
    db w1 = db w /\ wss w1 = wss w /\
    leaderboard_updates (redis w1) = leaderboard_updates (redis w).
Proof.
  intros Hf Hc.
  destruct (getTopUsers_10_fresh fault now w Hf Hc) as (board & w0 & Htop & Hl).
  pose proof (getTopUsers_keeps db _ _ _ _ untraced_db uncached_db _ _ _ Htop)
    as Hd0.
  pose proof (getTopUsers_keeps wss _ _ _ _ untraced_wss uncached_wss _ _ _ Htop)
    as Hw0.
  pose proof (getTopUsers_keeps _ _ _ _ _ untraced_updates uncached_updates
                _ _ _ Htop) as Hu0.
  cbn beta in Hu0.
  unfold getLeaderboard, bind. rewrite Htop.
  unfold getTotalUsers, try_catch, pool_query, call, ret. rewrite Hf.
  destruct (truthy_string u) as [x|]; cbn.
  - rewrite Hf. cbn. eexists _, _. split; [reflexivity|]. cbn.
    rewrite Hd0. repeat split; assumption.
  - eexists _, _. split; [reflexivity|]. cbn.
    rewrite Hd0. repeat split; assumption.
Qed.

Lemma rank_query_coalesce_pos d u : 0 < rank_query_coalesce d u.
Proof. unfold rank_query_coalesce. lia. Qed.

Lemma broadcast_healthy fault now u w cs :
  (forall k, fault k = false) ->
  cache_fresh w ->
  wss w = Some cs ->
  u <> "" ->
  exists msg w',
    broadcastLeaderboardUpdate fault now (Some u) w = (Ok tt, w') /\
    map listed (su_leaderboard msg) = take 10 (ranking (db w)) /\
    su_updated_user msg = Some (u, rank_query_coalesce (db w) u) /\
    su_timestamp msg = now /\
    db w' = db w /\
    leaderboard_updates (redis w') = leaderboard_updates (redis w) /\
    cache_fresh w' /\
    wss w' = Some (map (send_if_open msg) cs).
Proof.
  intros Hf Hc Hw Hu.
  destruct (getLeaderboard_healthy fault now (Some u) w Hf Hc)
    as (lb & w1 & Hrun & Hl & Hrank & _ & _ & Hd1 & Hw1 & Hu1).
  pose proof (getLeaderboard_10_maintains_fresh _ _ _ _ _ _ Hc Hrun) as Hc1.
  assert (Htr : truthy_string (Some u) = Some u).
  { cbn. apply String.eqb_neq in Hu. rewrite Hu. reflexivity. }
  rewrite Htr in Hrank. cbn in Hrank.
  exists {| su_leaderboard := lr_leaderboard lb;
            su_updated_user := updated_user (Some u) (lr_userRank lb);
            su_timestamp := now |}.
  eexists. unfold broadcastLeaderboardUpdate. rewrite Hw.
  unfold try_catch, bind. rewrite Hrun. split; [reflexivity|].
  cbn [su_leaderboard su_updated_user su_timestamp db set_wss wss redis].
  split; [exact Hl|]. split.
  { unfold updated_user. rewrite Htr, Hrank.
    pose proof (rank_query_coalesce_pos (db w) u).
    destruct (rank_query_coalesce (db w) u =? 0) eqn:E; [| reflexivity].
    apply Z.eqb_eq in E. lia. }
  split; [reflexivity|]. split; [exact Hd1|]. split; [exact Hu1|].
  split; [exact Hc1|].
  rewrite Hw1, Hw. reflexivity.
Qed.

(** The same without an assumption on the cache. *)
Lemma getTopUsers_10_shown fault now w :
  (forall k, fault k = false) ->
  exists board w',
    getTopUsers fault now (Int 10) (Int 0) w = (Ok board, w') /\
    shown_top10 now w board.
Proof.
  intros Hf.
  destruct (getTopUsers_total fault now (Int 10) (Int 0) w 10 0 Hf
              eq_refl eq_refl) as (board & w' & Hrun).
  exists board, w'. split; [exact Hrun|]. unfold shown_top10.
  destruct (getTopUsers_inv _ _ _ _ _ _ _ Hrun)
    as [_ [(_ & snap & El & -> & _) | (Hs & _)]].
  - rewrite El. reflexivity.
  - destruct Hs as [Hs | Hs]; [discriminate Hs|]. rewrite Hs. intros _.
    destruct (getTopUsers_store_listing _ _ _ _ _ _ _ Hrun (or_intror Hs))
      as (lim & off & Hl & Ho & Hlist & _).
    rewrite pg_bound_Int in Hl, Ho by lia.
    inversion Hl; inversion Ho; subst. exact Hlist.
Qed.

Lemma getLeaderboard_shown fault now u w :
  (forall k, fault k = false) ->
  exists lb w1,
    getLeaderboard fault now (Int 10) (Int 0) u w = (Ok lb, w1) /\
    shown_top10 now w (lr_leaderboard lb) /\
    lr_userRank lb = (fun x => rank_query_coalesce (db w) x) <$> truthy_string u /\
    lr_totalUsers lb = count_query (db w) /\
    lr_lastUpdated lb = now /\
    db w1 = db w /\ wss w1 = wss w /\
    leaderboard_updates (redis w1) = leaderboard_updates (redis w).
Proof.
  intros Hf.
  destruct (getTopUsers_10_shown fault now w Hf) as (board & w0 & Htop & Hl).
  pose proof (getTopUsers_keeps db _ _ _ _ untraced_db uncached_db _ _ _ Htop)
    as Hd0.
  pose proof (getTopUsers_keeps wss _ _ _ _ untraced_wss uncached_wss _ _ _ Htop)
    as Hw0.
  pose proof (getTopUsers_keeps _ _ _ _ _ untraced_updates uncached_updates
                _ _ _ Htop) as Hu0.
  cbn beta in Hu0.
  unfold getLeaderboard, bind. rewrite Htop.
  unfold getTotalUsers, try_catch, pool_query, call, ret. rewrite Hf.
  destruct (truthy_string u) as [x|]; cbn.
  - rewrite Hf. cbn. eexists _, _. split; [reflexivity|]. cbn.
    rewrite Hd0. repeat split; assumption.
  - eexists _, _. split; [reflexivity|]. cbn.
    rewrite Hd0. repeat split; assumption.
Qed.

Lemma broadcast_shown fault now u w cs :
  (forall k, fault k = false) ->
  wss w = Some cs ->
  u <> "" ->
  exists msg w',
    broadcastLeaderboardUpdate fault now (Some u) w = (Ok tt, w') /\
    shown_top10 now w (su_leaderboard msg) /\
    su_updated_user msg = Some (u, rank_query_coalesce (db w) u) /\
    su_timestamp msg = now /\
    db w' = db w /\
    leaderboard_updates (redis w') = leaderboard_updates (redis w) /\
    wss w' = Some (map (send_if_open msg) cs).
Proof.
  intros Hf Hw Hu.
  destruct (getLeaderboard_shown fault now (Some u) w Hf)
    as (lb & w1 & Hrun & Hl & Hrank & _ & _ & Hd1 & Hw1 & Hu1).
  assert (Htr : truthy_string (Some u) = Some u).
  { cbn. apply String.eqb_neq in Hu. rewrite Hu. reflexivity. }
  rewrite Htr in Hrank. cbn in Hrank.
  exists {| su_leaderboard := lr_leaderboard lb;
            su_updated_user := updated_user (Some u) (lr_userRank lb);
            su_timestamp := now |}.
  eexists. unfold broadcastLeaderboardUpdate. rewrite Hw.
  unfold try_catch, bind. rewrite Hrun. split; [reflexivity|].
  cbn [su_leaderboard su_updated_user su_timestamp db set_wss wss redis].
  split; [exact Hl|]. split.
  { unfold updated_user. rewrite Htr, Hrank.
    pose proof (rank_query_coalesce_pos (db w) u).
    destruct (rank_query_coalesce (db w) u =? 0) eqn:E; [| reflexivity].
    apply Z.eqb_eq in E. lia. }
  split; [reflexivity|]. split; [exact Hd1|]. split; [exact Hu1|].
  rewrite Hw1, Hw. reflexivity.
Qed.

(** X13.  A broadcast reaches every open observer once.  On a store and a
    cache that answer, with the WebSocket server started,
    [broadcastLeaderboardUpdate] for a participant sends one message: it
    lists what a reader of the first ten is shown (the live snapshot of
    the cache if there is one, else the first ten of the ranking of a
    store without tied scores), names the participant with the
    personalised rank, and is appended once to what each open client was
    sent; closed clients get nothing, no client is added or dropped, and
    the database is not written. *)
Theorem X13_broadcast_reaches_every_open_client fault now u w cs :
  (forall k, fault k = false) ->
  wss w = Some cs ->
  u <> "" ->
  exists msg w',
    broadcastLeaderboardUpdate fault now (Some u) w = (Ok tt, w') /\
    shown_top10 now w (su_leaderboard msg) /\
    su_updated_user msg = Some (u, rank_query_coalesce (db w) u) /\
    su_timestamp msg = now /\
    db w' = db w /\
    exists cs',
      wss w' = Some cs' /\ length cs' = length cs /\
      forall i c, cs !! i = Some c ->
        exists c', cs' !! i = Some c' /\
                   ws_open c' = ws_open c /\
                   ws_sent c' = ws_sent c ++ (if ws_open c then [msg] else []).
Proof.
  intros Hf Hw Hu.
  destruct (broadcast_shown fault now u w cs Hf Hw Hu)
    as (msg & w' & Hrun & Hl & Hr & Ht & Hd & _ & Hw').
  exists msg, w'. split; [exact Hrun|]. split; [exact Hl|].
  split; [exact Hr|]. split; [exact Ht|]. split; [exact Hd|].
  eexists. split; [exact Hw'|]. split; [apply length_map|].
  intros i c Hi.
  change (map ?f cs) with (f <$> cs). rewrite list_lookup_fmap, Hi. cbn.
  eexists. split; [reflexivity|]. unfold send_if_open.
  destruct (ws_open c) eqn:Eo; cbn; rewrite ?Eo, ?app_nil_r; split;
    reflexivity.
Qed.

Lemma idle_cache_fresh d : cache_fresh (idle d).
Proof. intros snap ex H. discriminate H. Qed.

Lemma X13_witness :
  exists msg w',
    broadcastLeaderboardUpdate no_fault server_time (Some "u3")
      (set_wss (idle four_players) (Some two_clients)) = (Ok tt, w') /\
    map listed (su_leaderboard msg) = take 10 (ranking four_players) /\
    su_updated_user msg = Some ("u3", 3) /\
    wss w' = Some [ {| ws_open := true; ws_sent := [msg] |};
                    {| ws_open := false; ws_sent := [] |} ].
Proof.
  destruct (X13_broadcast_reaches_every_open_client no_fault server_time "u3"
              (set_wss (idle four_players) (Some two_clients)) two_clients
              (fun _ => eq_refl) eq_refl ltac:(discriminate))
    as (msg & w' & Hrun & Hl & Hu & _ & _ & cs' & Hw & Hlen & Hcl).
  exists msg, w'. split; [exact Hrun|].
  split; [apply Hl; apply (bool_decide_unpack _); vm_compute; exact I|].
  split; [exact Hu|].
  rewrite Hw. f_equal.
  destruct cs' as [|c1 [|c2 [|c3 cs']]]; try discriminate Hlen.
  destruct (Hcl 0%nat _ eq_refl) as (c1' & H1 & Ho1 & Hs1).
  destruct (Hcl 1%nat _ eq_refl) as (c2' & H2 & Ho2 & Hs2).
  cbn in H1, H2. inversion H1; inversion H2; subst.
  destruct c1', c2'. cbn in *. subst. reflexivity.
Defined.

(** X14.  The broadcast is best effort.  Whatever fails,
    [broadcastLeaderboardUpdate] returns without throwing and writes
    neither the database nor the channel; before the WebSocket server is
    started it does nothing at all, not even a call on the cache or the
    store; and when the leaderboard cannot be fetched no observer is sent
    anything. *)
Theorem X14_broadcast_is_best_effort fault now u w r w' :
  broadcastLeaderboardUpdate fault now u w = (r, w') ->
  r = Ok tt /\
  db w' = db w /\
  leaderboard_updates (redis w') = leaderboard_updates (redis w) /\
  (wss w = None -> w' = w) /\
  (forall e w1,
     getLeaderboard fault now (Int 10) (Int 0) u w = (Throw e, w1) ->
     wss w' = wss w).
Proof.
  intros Hrun.
  pose proof (broadcastLeaderboardUpdate_keeps db fault now u untraced_db
                uncached_db unobserved_db _ _ _ Hrun) as Hdb.
  pose proof (broadcastLeaderboardUpdate_keeps _ fault now u untraced_updates
                uncached_updates unobserved_updates _ _ _ Hrun) as Hup.
  cbn beta in Hup.
  destruct (broadcastLeaderboardUpdate_total fault now u w) as [w0 Htot].
  rewrite Htot in Hrun. inversion Hrun; subst r w0; clear Hrun.
  split; [reflexivity|]. split; [exact Hdb|]. split; [exact Hup|].
  revert Htot. unfold broadcastLeaderboardUpdate. split.
  - intros Hn. rewrite Hn in Htot. inversion Htot. reflexivity.
  - intros e w1 Hthrow. revert Htot.
    destruct (wss w) eqn:Hw; [| intros H; inversion H; subst; exact Hw].
    unfold try_catch, bind. rewrite Hthrow. cbn. intros H; inversion H; subst.
    pose proof (getLeaderboard_keeps wss _ _ _ _ _ untraced_wss uncached_wss
                  _ _ _ Hthrow) as Hk.
    congruence.
Qed.

Lemma X14_witness :
  exists w',
    broadcastLeaderboardUpdate (fun _ => true) server_time (Some "u3")
      (set_wss (idle four_players) (Some two_clients)) = (Ok tt, w') /\
    wss w' = Some two_clients /\ db w' = four_players.
Proof.
  eassert (Hrun : broadcastLeaderboardUpdate (fun _ => true) server_time
                    (Some "u3")
                    (set_wss (idle four_players) (Some two_clients))
                  = (_, _)) by (vm_compute; reflexivity).
  destruct (X14_broadcast_is_best_effort (fun _ => true) server_time
              (Some "u3") (set_wss (idle four_players) (Some two_clients))
              _ _ Hrun) as (_ & Hdb & _ & _ & Hfail).
  eexists. split; [exact Hrun|]. split; [| exact Hdb].
  eapply Hfail. vm_compute. reflexivity.
Defined.

(** ** The relay between processes *)

(** X15.  What is published is what the subscriber relays.  On a store
    and a cache that answer, [publishLeaderboardUpdate] appends one
    message with the participant and the time to the channel; handed to
    the subscriber's handler on [leaderboard:updates], that message makes
    every open observer of the process receive one update that names the
    participant with the personalised rank and lists what a reader of the
    first ten is shown then.  A message on any other channel, or one that
    does not parse, changes nothing. *)
Theorem X15_published_message_is_relayed_to_observers
    fault now now' u w r w1 cs :
  (forall k, fault k = false) ->
  wss w = Some cs ->
  u <> "" ->
  publishLeaderboardUpdate fault now u w = (r, w1) ->
  let m := {| msg_userId := u; msg_timestamp := now |} in
  leaderboard_updates (redis w1) = leaderboard_updates (redis w) ++ [m] /\
  (exists msg w2,
     messageHandler fault now' (Some m) "leaderboard:updates" w1 = (Ok tt, w2) /\
     su_updated_user msg = Some (u, rank_query_coalesce (db w) u) /\
     shown_top10 now' w (su_leaderboard msg) /\
     wss w2 = Some (map (send_if_open msg) cs)) /\
  (forall channel,
     channel <> "leaderboard:updates" ->
     messageHandler fault now' (Some m) channel w1 = (Ok tt, w1)) /\
  messageHandler fault now' None "leaderboard:updates" w1 = (Ok tt, w1).
Proof.
  intros Hf Hw Hu Hpub m.
  rewrite publishLeaderboardUpdate_run, Hf in Hpub.
  inversion Hpub; subst r w1; clear Hpub.
  split; [reflexivity|]. split; [| split].
  - set (w1 := set_redis _ _).
    destruct (broadcast_shown fault now' u w1 cs Hf Hw Hu)
      as (msg & w2 & Hrun & Hl & Hr & _ & _ & _ & Hw2).
    exists msg, w2. unfold messageHandler. cbn [msg_userId m].
    split; [exact Hrun|]. split; [exact Hr|]. split; [exact Hl | exact Hw2].
  - intros channel Hch. unfold messageHandler.
    apply String.eqb_neq in Hch. rewrite Hch. reflexivity.
  - reflexivity.
Qed.

Lemma X15_witness :
  exists r w1 msg w2,
    publishLeaderboardUpdate no_fault server_time "u3"
      (set_wss (idle four_players) (Some two_clients)) = (r, w1) /\
    leaderboard_updates (redis w1) =
      [{| msg_userId := "u3"; msg_timestamp := server_time |}] /\
    messageHandler no_fault server_time
      (Some {| msg_userId := "u3"; msg_timestamp := server_time |})
      "leaderboard:updates" w1 = (Ok tt, w2) /\
    wss w2 = Some (map (send_if_open msg) two_clients).
Proof.
  eassert (Hpub : publishLeaderboardUpdate no_fault server_time "u3"
                    (set_wss (idle four_players) (Some two_clients))
                  = (_, _)) by (vm_compute; reflexivity).
  destruct (X15_published_message_is_relayed_to_observers no_fault
              server_time server_time "u3"
              (set_wss (idle four_players) (Some two_clients)) _ _ two_clients
              (fun _ => eq_refl) eq_refl
              ltac:(discriminate) Hpub)
    as (Hch & (msg & w2 & Hh & _ & _ & Hw2) & _).
  eexists _, _, msg, w2. split; [exact Hpub|]. split; [exact Hch|].
  split; [exact Hh | exact Hw2].
Defined.

(** X16.  The instance that handles a mutation pushes the update twice.
    On a store and a cache that answer, after a successful mutation of a
    participant in the top ten (the participant's score being a safe
    integer) the open observers of the handling process have been sent
    one update by the controller's own broadcast; when the message the
    controller published comes back to the subscriber of the same
    process, they are sent a second update: the database having no tied
    scores, both list the first ten of the ranking after the commit. *)
Theorem X16_handling_instance_pushes_the_update_twice
    fault now now' req w data w' cs :
  (forall k, fault k = false) ->
  tx w = None ->
  wss w = Some cs ->
  safe_request (db w) req ->
  updateUserScore fault now req w = (Success data, w') ->
  sur_is_top_10 data = true ->
  sur_user_id data <> "" ->
  exists m1 m2 w'',
    wss w' = Some (map (send_if_open m1) cs) /\
    messageHandler fault now'
      (Some {| msg_userId := sur_user_id data; msg_timestamp := now |})
      "leaderboard:updates" w' = (Ok tt, w'') /\
    wss w'' = Some (map (send_if_open m2) (map (send_if_open m1) cs)) /\
    (untied (db w') ->
     map listed (su_leaderboard m1) = take 10 (ranking (db w')) /\
     map listed (su_leaderboard m2) = take 10 (ranking (db w'))).
Proof.
  intros Hf Htx Hw _ Hrun Htop Hu.
  apply updateUserScore_success_inv in Hrun
    as (user & res & w1 & w2 & _ & _ & Hupd & _ & Hw2 & Hpost & _ & Hdata).
  subst w2. rewrite Hdata in Hu. cbn [sur_user_id] in Hu.
  rewrite Hdata. cbn [sur_user_id].
  destruct (updateScore_healthy _ _ _ _ _ _ _ _ _ _ Hf Htx Hupd) as [Hr _].
  destruct (updateScore_spec _ _ _ _ _ _ _ _ _ _ Htx Hupd)
    as (Hw1 & _).
  set (w2 := log_event (log_event w1 PgRank) PgTop10) in *.
  assert (Hc2 : cache_fresh w2).
  { intros snap ex Hs. cbn in Hs. rewrite Hr in Hs. discriminate Hs. }
  assert (Hws2 : wss w2 = Some cs) by (cbn; congruence).
  rewrite Htop in Hpost.
  apply bind_ok_inv in Hpost as ([] & w3 & Hb & Hp).
  destruct (broadcast_healthy fault now (userId user) w2 cs Hf Hc2 Hws2 Hu)
    as (m1 & w3' & Hb' & Hl1 & _ & _ & Hd3 & _ & Hc3 & Hw3).
  rewrite Hb in Hb'. inversion Hb'; subst w3'; clear Hb'.
  rewrite publishLeaderboardUpdate_run, Hf in Hp.
  injection Hp as Hw'.
  assert (Hc' : cache_fresh w') by (subst w'; exact Hc3).
  assert (Hws' : wss w' = Some (map (send_if_open m1) cs))
    by (subst w'; exact Hw3).
  assert (Hd' : db w' = db w2) by (subst w'; exact Hd3).
  destruct (broadcast_healthy fault now' (userId user) w' _ Hf Hc' Hws' Hu)
    as (m2 & w'' & Hb2 & Hl2 & _ & _ & _ & _ & _ & Hw'').
  exists m1, m2, w''. split; [exact Hws'|].
  split; [exact Hb2|]. split; [exact Hw''|].
  intros _. split; [rewrite Hd'; exact Hl1 | exact Hl2].
Qed.

Lemma X16_witness :
  exists data w' m1 m2 w'',
    updateUserScore no_fault server_time (request_of "u3" (Int 50) None)
      (set_wss (idle four_players) (Some two_clients)) = (Success data, w') /\
    messageHandler no_fault server_time
      (Some {| msg_userId := "u3"; msg_timestamp := server_time |})
      "leaderboard:updates" w' = (Ok tt, w'') /\
    wss w'' = Some [ {| ws_open := true; ws_sent := [m1; m2] |};
                     {| ws_open := false; ws_sent := [] |} ] /\
    map listed (su_leaderboard m2) = take 10 (ranking (db w')).
Proof.
  eassert (Hrun : updateUserScore no_fault server_time
                    (request_of "u3" (Int 50) None)
                    (set_wss (idle four_players) (Some two_clients))
                  = (Success _, _)) by (vm_compute; reflexivity).
  destruct (X16_handling_instance_pushes_the_update_twice no_fault
              server_time server_time (request_of "u3" (Int 50) None)
              (set_wss (idle four_players) (Some two_clients)) _ _ two_clients
              (fun _ => eq_refl) eq_refl eq_refl
              ltac:(intros user Hu; injection Hu as <-;
                    split; vm_compute; discriminate)
              Hrun eq_refl
              ltac:(discriminate))
    as (m1 & m2 & w'' & _ & Hh & Hw & Hl).
  eexists _, _, m1, m2, w''. split; [exact Hrun|]. split; [exact Hh|].
  split; [exact Hw|].
  apply Hl. apply (bool_decide_unpack _). vm_compute. exact I.
Defined.

(** ** Authentication *)

Lemma payload_eta p :
  {| userId := userId p; payload_username := payload_username p |} = p.
Proof. destruct p. reflexivity. Qed.

Lemma auth_middlewares_agree verify authorization :
  match authenticateToken verify authorization with
  | Next user =>
      (exists p, user = Some p) /\
      optionalAuth verify authorization = Next user
  | Respond status code message =>
      status = 401 /\ code = "UNAUTHORIZED" /\
      optionalAuth verify authorization = Next None
  end.
Proof.
  unfold authenticateToken, optionalAuth.
  destruct (truthy_string (second_word authorization)) as [t|]; [| auto].
  destruct (verify t) as [p|]; [| auto].
  split; [eauto | reflexivity].
Qed.

(** X17.  The two authentication middlewares agree.  [authenticateToken]
    either answers 401 or attaches a user, and [optionalAuth] never
    answers: it attaches the same user when [authenticateToken] lets the
    request through and none when it answers 401. *)
Theorem X17_optional_auth_follows_required_auth verify authorization :
  match authenticateToken verify authorization with
  | Next user =>
      (exists p, user = Some p) /\
      optionalAuth verify authorization = Next user
  | Respond status code message =>
      status = 401 /\ code = "UNAUTHORIZED" /\
      optionalAuth verify authorization = Next None
  end.
Proof. exact (auth_middlewares_agree verify authorization). Qed.

Lemma split_space_no_space s : has_space s = false -> split_space s = [s].
Proof.
  induction s as [|c r IH]; [reflexivity|]. cbn.
  destruct (Ascii.eqb c " "); [discriminate|]. cbn.
  intros H. rewrite (IH H). reflexivity.
Qed.

Lemma split_space_app a b :
  has_space a = false ->
  split_space (a ++ String " " b)%string = a :: split_space b.
Proof.
  induction a as [|c r IH]; intros H; [reflexivity|].
  cbn [has_space] in H.
  destruct (Ascii.eqb c " ") eqn:E; [discriminate H|].
  change (String c r ++ String " " b)%string
    with (String c (r ++ String " " b)%string).
  cbn [split_space]. rewrite E, (IH H). reflexivity.
Qed.

(** X18.  How the authorization header is read.  The token is the second
    of the words the header splits into at spaces, and the first word is
    not looked at: for every scheme word and every token without spaces
    the header [scheme token] is decided by the verifier on [token]
    alone, so that [Bearer t], [Basic t] and [ t] are treated alike.  A
    missing header, an empty one and one of a single word are answered
    401 "Authentication token required" without asking the verifier. *)
Theorem X18_authorization_header_is_split_at_spaces verify scheme token :
  has_space scheme = false ->
  has_space token = false ->
  token <> "" ->
  authenticateToken verify (Some (scheme ++ String " " token)%string) =
    match verify token with
    | Some p => Next (Some p)
    | None => Respond 401 "UNAUTHORIZED" "Invalid or expired token"
    end /\
  authenticateToken verify (Some scheme) =
    Respond 401 "UNAUTHORIZED" "Authentication token required" /\
  authenticateToken verify None =
    Respond 401 "UNAUTHORIZED" "Authentication token required".
Proof.
  intros Hs Ht Hne. split; [| split].
  - unfold authenticateToken, second_word.
    assert (String.eqb (scheme ++ String " " token) "" = false) as ->.
    { destruct scheme; reflexivity. }
    rewrite (split_space_app _ _ Hs), (split_space_no_space _ Ht). cbn.
    apply String.eqb_neq in Hne. rewrite Hne.
    destruct (verify token) as [p|]; [| reflexivity].
    rewrite payload_eta. reflexivity.
  - unfold authenticateToken, second_word.
    destruct (String.eqb scheme "") eqn:E; [reflexivity|].
    rewrite (split_space_no_space _ Hs). reflexivity.
  - reflexivity.
Qed.

Lemma X18_witness :
  authenticateToken toy_verify (Some "Bearer good") =
    Next (Some {| userId := "u3"; payload_username := "cat" |}) /\
  authenticateToken toy_verify (Some "Basic good") =
    Next (Some {| userId := "u3"; payload_username := "cat" |}) /\
  authenticateToken toy_verify (Some "Bearer") =
    Respond 401 "UNAUTHORIZED" "Authentication token required".
Proof.
  destruct (X18_authorization_header_is_split_at_spaces toy_verify
              "Bearer" "good" eq_refl eq_refl ltac:(discriminate))
    as (H1 & H2 & _).
  destruct (X18_authorization_header_is_split_at_spaces toy_verify
              "Basic" "good" eq_refl eq_refl ltac:(discriminate))
    as (H3 & _ & _).
  split; [exact H1|]. split; [exact H3 | exact H2].
Defined.

(** ** The read endpoints behind their middleware *)

Lemma getUserScore_reported fault now u w :
  (forall k, fault k = false) ->
  exists w1,
    getUserScore fault now u w = (Ok (reported_score now w u), w1) /\
    db w1 = db w /\
    trace w1 = trace w ++
      match live now (user_score (redis w) !! u) with
      | Some _ => [RedisEnsureConnected; RedisGet]
      | None => [RedisEnsureConnected; RedisGet; PgSelectScore; RedisSetEx]
      end.
Proof.
  intros Hf. unfold reported_score.
  destruct (live now (user_score (redis w) !! u)) as [c|] eqn:El.
  - rewrite (getUserScore_hit fault now u w c (Hf _) (Hf _) El).
    eexists. split; [reflexivity|]. cbn. rewrite <- app_assoc.
    split; reflexivity.
  - destruct (getUserScore_miss fault now u w Hf El)
      as (w1 & Hrun & Hdb & _ & _ & Htr).
    exists w1. auto.
Qed.

(** X19.  GET /scores/me.  A request that [authenticateToken] does not
    let through is answered 401 and nothing is called or changed.  For a
    token the verifier accepts, on a store and a cache that answer, the
    answer carries the participant of the token, the score [getUserScore]
    reports (the cached one while it is live, else the store's, 0 without
    a record) and the rank computed from the store, and the database is
    not written. *)
Theorem X19_score_endpoint_behind_authentication
    fault verify now authorization w :
  (forall k, fault k = false) ->
  match authenticateToken verify authorization with
  | Next (Some p) =>
      exists w',
        route_scores_me fault verify now authorization w =
          (Success {| si_user_id := userId p;
                      si_score := reported_score now w (userId p);
                      si_rank := rank_query (db w) (userId p) |}, w') /\
        db w' = db w
  | _ =>
      exists message,
        route_scores_me fault verify now authorization w =
          (Failure 401 "UNAUTHORIZED" message, w)
  end.
Proof.
  intros Hf. unfold route_scores_me.
  pose proof (auth_middlewares_agree verify authorization) as Hshape.
  destruct (authenticateToken verify authorization) as [s c m | [p|]].
  - destruct Hshape as (-> & -> & _). eauto.
  - unfold getUserScoreInfo, bind.
    destruct (getUserScore_reported fault now (userId p) w Hf)
      as (w1 & -> & Hdb & _).
    rewrite getUserRank_run, Hf, Hdb. cbn. eauto.
  - destruct Hshape as [[p Hp] _]. discriminate Hp.
Qed.

Lemma X19_witness :
  (exists w',
     route_scores_me no_fault toy_verify server_time (Some "Bearer good")
       (idle four_players) =
     (Success {| si_user_id := "u3"; si_score := 150; si_rank := 3 |}, w') /\
     db w' = four_players) /\
  (exists message,
     route_scores_me no_fault toy_verify server_time (Some "Bearer bad")
       (idle four_players) =
     (Failure 401 "UNAUTHORIZED" message, idle four_players)).
Proof.
  split.
  - exact (X19_score_endpoint_behind_authentication no_fault toy_verify
             server_time (Some "Bearer good") (idle four_players)
             (fun _ => eq_refl)).
  - exact (X19_score_endpoint_behind_authentication no_fault toy_verify
             server_time (Some "Bearer bad") (idle four_players)
             (fun _ => eq_refl)).
Defined.

Lemma getLeaderboard_anonymous fault now limit offset w lb w' :
  getLeaderboard fault now limit offset None w = (Ok lb, w') ->
  lr_userRank lb = None.
Proof.
  unfold getLeaderboard. intros H.
  apply bind_ok_inv in H as (board & w1 & _ & H).
  apply bind_ok_inv in H as (total & w2 & _ & H).
  apply bind_ok_inv in H as (rk & w3 & Hrk & H).
  inversion H; subst. cbn in *. inversion Hrk. reflexivity.
Qed.

Lemma getLeaderboardData_inv fault now req w resp w' :
  getLeaderboardData fault now req w = (resp, w') ->
  db w' = db w /\ tx w' = tx w /\
  match resp with
  | Success data =>
      exists w0,
        getLeaderboard fault now
          (parseInt (or_default (query_limit req) "10"))
          (parseInt (or_default (query_offset req) "0"))
          (truthy_string (userId <$> lreq_user req)) w = (Ok data, w')
        /\ w0 = w'
  | Failure status _ _ => status = 400 \/ status = 500
  end.
Proof.
  unfold getLeaderboardData.
  destruct (_ || _).
  - intros H; inversion H; subst. auto.
  - destruct (getLeaderboard _ _ _ _ _ _) as [[d|e] w1] eqn:E;
      intros H; inversion H; subst;
      (split; [exact (getLeaderboard_keeps db _ _ _ _ _ untraced_db
                        uncached_db _ _ _ E)|]);
      (split; [exact (getLeaderboard_keeps tx _ _ _ _ _ untraced_tx
                        uncached_tx _ _ _ E)|]); eauto.
Qed.

(** X20.  The leaderboard is public.  Behind [optionalAuth] the
    leaderboard route never answers 401 and never writes the database;
    a request whose token [authenticateToken] would refuse is served as an
    anonymous one, its listing carrying no personal rank. *)
Theorem X20_leaderboard_route_serves_bad_tokens_anonymously
    fault verify now authorization limit offset w resp w' :
  route_leaderboard fault verify now authorization limit offset w
    = (resp, w') ->
  (forall code message, resp <> Failure 401 code message) /\
  db w' = db w /\
  (forall status code message data,
     authenticateToken verify authorization = Respond status code message ->
     resp = Success data ->
     lr_userRank data = None).
Proof.
  unfold route_leaderboard. intros Hrun.
  pose proof (auth_middlewares_agree verify authorization) as Hag.
  destruct (optionalAuth verify authorization) as [s c m | user] eqn:Eo.
  { exfalso. destruct (authenticateToken verify authorization);
      [destruct Hag as (_ & _ & H) | destruct Hag as (_ & H)]; discriminate H. }
  destruct (getLeaderboardData_inv _ _ _ _ _ _ Hrun) as (Hdb & _ & Hresp).
  split; [| split; [exact Hdb|]].
  - intros code message ->. destruct Hresp; discriminate.
  - intros status code message data Hrej ->.
    rewrite Hrej in Hag. destruct Hag as (_ & _ & Hnone).
    inversion Hnone; subst user.
    destruct Hresp as (w0 & Hlb & _). cbn in Hlb.
    exact (getLeaderboard_anonymous _ _ _ _ _ _ _ Hlb).
Qed.

Lemma X20_witness :
  exists data w',
    route_leaderboard no_fault toy_verify server_time (Some "Bearer bad")
      None None (idle four_players) = (Success data, w') /\
    lr_userRank data = None /\ db w' = four_players.
Proof.
  eassert (Hrun : route_leaderboard no_fault toy_verify server_time
                    (Some "Bearer bad") None None (idle four_players)
                  = (Success _, _)) by (vm_compute; reflexivity).
  destruct (X20_leaderboard_route_serves_bad_tokens_anonymously no_fault
              toy_verify server_time (Some "Bearer bad") None None
              (idle four_players) _ _ Hrun) as (_ & Hdb & Hanon).
  eexists _, _. split; [exact Hrun|]. split; [| exact Hdb].
  exact (Hanon 401 "UNAUTHORIZED" "Invalid or expired token" _ eq_refl
           eq_refl).
Defined.

Lemma pg_bound_Int_inv n lim : pg_bound (Int n) = Some lim -> lim = Z.to_nat n.
Proof.
  intros H. apply pg_bound_inv in H as (_ & _ & ->).
  unfold Int, int_value. rewrite Z.div_1_r. reflexivity.
Qed.

Lemma getTopUsers_length fault now n offset w board w' :
  0 <= n ->
  getTopUsers fault now (Int n) offset w = (Ok board, w') ->
  (length board <= Z.to_nat n)%nat.
Proof.
  intros Hn Hrun.
  destruct (getTopUsers_inv _ _ _ _ _ _ _ Hrun)
    as [_ [(_ & snap & _ & -> & _) | (Hs & _)]].
  - unfold slice0, slice_end, Int. rewrite Z.quot_1_r.
    assert ((n <? 0) = false) as -> by (apply Z.ltb_ge; lia).
    rewrite length_take.
    etransitivity; [apply Nat.le_min_l | apply Nat.le_min_l].
  - destruct (getTopUsers_inv _ _ _ _ _ _ _ Hrun)
      as [_ [(E0 & snap & El & _) | (_ & rows & Hq & -> & _)]].
    + destruct Hs; congruence.
    + destruct (leaderboard_query_listed _ _ _ _ Hq)
        as (lim & off & Hl & _ & Hm).
      apply pg_bound_Int_inv in Hl. subst lim.
      rewrite <- (length_map listed), Hm, length_take. lia.
Qed.

(** X21.  A well-formed leaderboard query is answered.  On a store and a
    cache that answer, a query whose limit reads as an integer of 1..100
    and whose offset reads as a non-negative safe integer (10 and 0 when
    the parameters are absent or empty) succeeds: the listing has at most
    [limit] entries, for a non-zero offset and a store without tied scores
    it is the window of the store's ranking from [offset] on, the total is
    the number of score rows, and the database is not written. *)
Theorem X21_valid_leaderboard_query_is_answered fault now req n m w :
  (forall k, fault k = false) ->
  parseInt (or_default (query_limit req) "10") = Int n ->
  1 <= n <= 100 ->
  parseInt (or_default (query_offset req) "0") = Int m ->
  0 <= m <= MAX_SAFE_INTEGER ->
  exists data w',
    getLeaderboardData fault now req w = (Success data, w') /\
    (length (lr_leaderboard data) <= Z.to_nat n)%nat /\
    (0 < m ->
     untied (db w) ->
     map listed (lr_leaderboard data) =
       take (Z.to_nat n) (drop (Z.to_nat m) (ranking (db w)))) /\
    lr_totalUsers data = count_query (db w) /\
    lr_lastUpdated data = now /\
    db w' = db w.
Proof.
  intros Hf Hl Hn Ho Hm. unfold MAX_SAFE_INTEGER in Hm.
  destruct (getTopUsers_total fault now (Int n) (Int m) w _ _ Hf
              (pg_bound_Int n ltac:(lia)) (pg_bound_Int m ltac:(lia)))
    as (board & w0 & Htop).
  pose proof (getTopUsers_keeps db _ _ _ _ untraced_db uncached_db _ _ _ Htop)
    as Hd0.
  assert (Hrun : exists lb w1,
    getLeaderboard fault now (Int n) (Int m)
      (truthy_string (userId <$> lreq_user req)) w = (Ok lb, w1) /\
    lr_leaderboard lb = board /\
    lr_totalUsers lb = count_query (db w) /\
    lr_lastUpdated lb = now /\ db w1 = db w).
  { unfold getLeaderboard, bind. rewrite Htop.
    unfold getTotalUsers, try_catch, pool_query, call, ret. rewrite Hf.
    destruct (truthy_string (truthy_string _)) as [x|]; cbn.
    - rewrite Hf. cbn. eexists _, _. split; [reflexivity|]. cbn.
      rewrite Hd0. repeat split.
    - eexists _, _. split; [reflexivity|]. cbn. rewrite Hd0. repeat split. }
  destruct Hrun as (lb & w1 & Hrun & Hb & Ht & Hlu & Hd1).
  exists lb, w1. unfold getLeaderboardData. rewrite Hl, Ho.
  assert (num_lt (Int n) (Int 1) || num_gt (Int n) (Int 100) = false) as ->.
  { unfold num_gt, num_lt, Int. apply orb_false_iff.
    split; apply Z.ltb_ge; lia. }
  rewrite Hrun. split; [reflexivity|]. rewrite Hb.
  split; [apply (getTopUsers_length fault now n (Int m) w board w0);
          [lia | exact Htop]|].
  split; [| auto].
  intros Hpos _.
  destruct (getTopUsers_store_listing _ _ _ _ _ _ _ Htop)
    as (lim & off & Hlim & Hoff & Hlist & _).
  { left. rewrite num_eq_Int_0. apply Z.eqb_neq. lia. }
  rewrite !pg_bound_Int in * by lia.
  inversion Hlim; inversion Hoff; subst. exact Hlist.
Qed.

Lemma X21_witness :
  exists data w',
    getLeaderboardData no_fault server_time
      {| lreq_user := None; query_limit := Some "2"; query_offset := Some "1" |}
      (idle four_players) = (Success data, w') /\
    map listed (lr_leaderboard data) =
      [("u2", "bob", 450); ("u3", "cat", 150)] /\
    lr_totalUsers data = 4.
Proof.
  destruct (X21_valid_leaderboard_query_is_answered no_fault server_time
              {| lreq_user := None; query_limit := Some "2";
                 query_offset := Some "1" |} 2 1 (idle four_players)
              (fun _ => eq_refl) eq_refl ltac:(lia) eq_refl
              ltac:(split; vm_compute; discriminate))
    as (data & w' & Hrun & _ & Hwin & Ht & _).
  exists data, w'. split; [exact Hrun|]. split; [| exact Ht].
  rewrite (Hwin ltac:(lia)
             ltac:(apply (bool_decide_unpack _); vm_compute; exact I)).
  reflexivity.
Defined.

(** ** The observers' registry *)

Lemma registry_total_insert u s (conns : Registry) :
  conns !! u = None ->
  registry_total (<[u := s]> conns) = (registry_total conns + size s)%nat.
Proof.
  intros H. unfold registry_total.
  rewrite map_fold_insert_L; [reflexivity | intros; lia | exact H].
Qed.

Lemma registry_total_lookup u s (conns : Registry) :
  conns !! u = Some s ->
  registry_total conns = (registry_total (delete u conns) + size s)%nat.
Proof.
  intros H. unfold registry_total.
  rewrite (map_fold_delete_L _ _ u s conns); [reflexivity | intros; lia | exact H].
Qed.

Lemma registry_total_replace u s (conns : Registry) :
  (registry_total (<[u := s]> conns) + size (default ∅ (conns !! u)))%nat =
  (registry_total conns + size s)%nat.
Proof.
  rewrite <- (insert_delete_eq conns).
  rewrite registry_total_insert by apply lookup_delete_eq.
  destruct (conns !! u) as [s0|] eqn:E; cbn.
  - rewrite (registry_total_lookup u s0 conns E). lia.
  - rewrite delete_id by exact E. rewrite size_empty. lia.
Qed.

Lemma registry_ok_insert u s (conns : Registry) :
  s <> ∅ -> registry_ok conns -> registry_ok (<[u := s]> conns).
Proof.
  intros Hs Hok v x. destruct (decide (u = v)) as [->|Hne].
  - rewrite lookup_insert_eq. intros [= <-]. exact Hs.
  - rewrite lookup_insert_ne by exact Hne. apply Hok.
Qed.

Lemma registry_ok_delete u (conns : Registry) :
  registry_ok conns -> registry_ok (delete u conns).
Proof.
  intros Hok v x. destruct (decide (u = v)) as [->|Hne].
  - rewrite lookup_delete_eq. discriminate.
  - rewrite lookup_delete_ne by exact Hne. apply Hok.
Qed.

Lemma registry_users_le_total (conns : Registry) :
  registry_ok conns -> (size conns <= registry_total conns)%nat.
Proof.
  induction conns as [|u s conns Hu IH] using map_ind; intros Hok.
  - rewrite map_size_empty. lia.
  - rewrite map_size_insert_None by exact Hu.
    rewrite registry_total_insert by exact Hu.
    assert (Hs : s <> ∅) by (apply (Hok u); apply lookup_insert_eq).
    assert (size s <> 0%nat) by (intros E; apply size_empty_inv in E;
                                 apply Hs; apply leibniz_equiv; exact E).
    assert (registry_ok conns).
    { intros v x Hv. apply (Hok v).
      rewrite lookup_insert_ne; [exact Hv | congruence]. }
    specialize (IH ltac:(assumption)). lia.
Qed.

Lemma difference_absent (s : gset nat) ws : ws ∉ s -> s ∖ {[ws]} = s.
Proof.
  intros Hws. apply set_eq. intros x.
  rewrite elem_of_difference, elem_of_singleton.
  split; [intros [Hx _]; exact Hx |].
  intros Hx. split; [exact Hx | intros ->; contradiction].
Qed.

Lemma add_then_remove (s : gset nat) ws :
  ws ∉ s -> ({[ws]} ∪ s) ∖ {[ws]} = s.
Proof.
  intros Hws. apply set_eq. intros x.
  rewrite elem_of_difference, elem_of_union, elem_of_singleton.
  split; [intros [[Hx|Hx] Hn]; [contradiction | exact Hx] |].
  intros Hx. split; [right; exact Hx | intros ->; contradiction].
Qed.

Lemma add_non_empty (s : gset nat) ws : {[ws]} ∪ s <> ∅.
Proof.
  intros E.
  assert (H : ws ∈ ({[ws]} ∪ s))
    by (apply elem_of_union_l, elem_of_singleton; reflexivity).
  rewrite E in H. exact (not_elem_of_empty ws H).
Qed.

Lemma removed_absent (s : gset nat) ws : ws ∉ s ∖ {[ws]}.
Proof.
  rewrite elem_of_difference, elem_of_singleton.
  intros [_ H]. apply H. reflexivity.
Qed.

Lemma last_socket (s : gset nat) ws :
  ws ∈ s -> s ∖ {[ws]} ≡ ∅ -> s = {[ws]}.
Proof.
  intros Hws E. apply set_eq. intros x. rewrite elem_of_singleton.
  split; [| intros ->; exact Hws].
  intros Hx. destruct (decide (x = ws)) as [Heq|Hne]; [exact Heq|].
  exfalso. apply (not_elem_of_empty (C:=gset nat) x). rewrite <- E.
  rewrite elem_of_difference, elem_of_singleton. split; assumption.
Qed.

Lemma on_close_absent u ws (conns : Registry) :
  registry_ok conns ->
  ws ∉ default ∅ (conns !! u) ->
  on_close u ws conns = conns.
Proof.
  intros Hok Hws. unfold on_close.
  destruct (conns !! u) as [s|] eqn:E; [| reflexivity]. cbn in Hws.
  rewrite (difference_absent s ws Hws).
  assert (Hs : size s <> 0%nat).
  { intros E0. apply size_empty_inv in E0. apply (Hok u s E).
    apply leibniz_equiv. exact E0. }
  apply Nat.eqb_neq in Hs. rewrite Hs. apply insert_id. exact E.
Qed.

(** X23.  Registering a socket.  On a registry without empty sets,
    attaching a socket that is not yet registered under the user adds it
    to that user's set and to no other, raises the number of connections
    the statistics report by one, keeps the registry free of empty sets
    and the number of users at most the number of connections, and is
    undone by the socket's close handler. *)
Theorem X23_registered_socket_is_counted_once M u ws (conns : Registry) :
  registry_ok conns ->
  ws ∉ default ∅ (conns !! u) ->
  ws ∈ default ∅ (registry_add u ws conns !! u) /\
  (forall v, v <> u -> registry_add u ws conns !! v = conns !! v) /\
  registry_ok (registry_add u ws conns) /\
  totalConnections (getConnectionStats M (registry_add u ws conns)) =
    S (totalConnections (getConnectionStats M conns)) /\
  (uniqueUsers (getConnectionStats M (registry_add u ws conns)) <=
   totalConnections (getConnectionStats M (registry_add u ws conns)))%nat /\
  on_close u ws (registry_add u ws conns) = conns.
Proof.
  intros Hok Hws.
  pose proof (add_non_empty (default ∅ (conns !! u)) ws) as Hne.
  assert (Hok' : registry_ok (registry_add u ws conns))
    by (apply registry_ok_insert; assumption).
  split; [unfold registry_add; rewrite lookup_insert_eq; cbn;
          apply elem_of_union_l, elem_of_singleton; reflexivity|].
  split; [intros v Hv; unfold registry_add;
          rewrite lookup_insert_ne; [reflexivity | congruence]|].
  split; [exact Hok'|].
  split.
  { cbn. fold (registry_total (registry_add u ws conns)).
    fold (registry_total conns).
    pose proof (registry_total_replace u
                  ({[ws]} ∪ default ∅ (conns !! u)) conns) as H.
    rewrite size_union in H by (apply disjoint_singleton_l; exact Hws).
    rewrite size_singleton in H. unfold registry_add. lia. }
  split; [apply (registry_users_le_total _ Hok')|].
  unfold on_close, registry_add. rewrite lookup_insert_eq.
  rewrite (add_then_remove _ ws Hws).
  destruct (conns !! u) as [s|] eqn:E; cbn.
  - assert (Hs : size s <> 0%nat).
    { intros E0. apply size_empty_inv in E0. apply (Hok u s E).
      apply leibniz_equiv. exact E0. }
    apply Nat.eqb_neq in Hs. rewrite Hs.
    rewrite insert_insert_eq. apply insert_id. exact E.
  - rewrite size_empty. cbn. apply delete_insert_id. exact E.
Qed.

Lemma X23_witness :
  totalConnections
    (getConnectionStats 1000 (registry_add "u1" 2 {["u1" := {[1%nat]}]})) =
    S (totalConnections (getConnectionStats 1000 {["u1" := {[1%nat]}]})) /\
  on_close "u1" 2 (registry_add "u1" 2 {["u1" := {[1%nat]}]}) =
    {["u1" := {[1%nat]}]}.
Proof.
  assert (Hok : registry_ok ({["u1" := {[1%nat]}]} : Registry)).
  { intros v s Hv. apply lookup_singleton_Some in Hv as [_ <-].
    apply (non_empty_singleton_L 1%nat). }
  assert (Hws : 2%nat ∉ default (∅ : gset nat)
                  (({["u1" := {[1%nat]}]} : Registry) !! "u1")).
  { rewrite lookup_singleton_eq. cbn. apply not_elem_of_singleton. lia. }
  destruct (X23_registered_socket_is_counted_once 1000 "u1" 2%nat
              {["u1" := {[1%nat]}]} Hok Hws)
    as (_ & _ & _ & Ht & _ & Hc).
  split; [exact Ht | exact Hc].
Defined.

(** X24.  Closing a socket.  On a registry without empty sets, the close
    handler of a registered socket removes that socket and no other,
    lowers the number of connections by one, drops the user's entry
    exactly when it was the user's last socket, and leaves no empty set
    behind; run a second time, the handler changes nothing. *)
Theorem X24_closed_socket_leaves_the_registry M u ws s (conns : Registry) :
  registry_ok conns ->
  conns !! u = Some s ->
  ws ∈ s ->
  default ∅ (on_close u ws conns !! u) = s ∖ {[ws]} /\
  (on_close u ws conns !! u = None <-> s = {[ws]}) /\
  (forall v, v <> u -> on_close u ws conns !! v = conns !! v) /\
  registry_ok (on_close u ws conns) /\
  S (totalConnections (getConnectionStats M (on_close u ws conns))) =
    totalConnections (getConnectionStats M conns) /\
  on_close u ws (on_close u ws conns) = on_close u ws conns.
Proof.
  intros Hok E Hws.
  assert (Hsz : size s = S (size (s ∖ {[ws]}))).
  { rewrite (union_difference_L {[ws]} s) at 1
      by (apply singleton_subseteq_l; exact Hws).
    rewrite size_union
      by (apply disjoint_singleton_l; apply removed_absent).
    rewrite size_singleton. reflexivity. }
  assert (Hok' : registry_ok (on_close u ws conns)).
  { unfold on_close. rewrite E.
    destruct (size (s ∖ {[ws]}) =? 0)%nat eqn:Z0.
    - apply registry_ok_delete. exact Hok.
    - apply registry_ok_insert; [| exact Hok].
      intros E0. rewrite E0, size_empty in Z0. discriminate. }
  assert (Hother : forall v, v <> u -> on_close u ws conns !! v = conns !! v).
  { intros v Hv. unfold on_close. rewrite E.
    destruct (size (s ∖ {[ws]}) =? 0)%nat.
    - rewrite lookup_delete_ne; [reflexivity | congruence].
    - rewrite lookup_insert_ne; [reflexivity | congruence]. }
  assert (Hmine : default ∅ (on_close u ws conns !! u) = s ∖ {[ws]}).
  { unfold on_close. rewrite E.
    destruct (size (s ∖ {[ws]}) =? 0)%nat eqn:Z0.
    - rewrite lookup_delete_eq. cbn. apply Nat.eqb_eq in Z0.
      apply size_empty_inv in Z0. symmetry. apply leibniz_equiv. exact Z0.
    - rewrite lookup_insert_eq. reflexivity. }
  split; [exact Hmine|].
  split.
  { unfold on_close. rewrite E.
    destruct (size (s ∖ {[ws]}) =? 0)%nat eqn:Z0.
    - rewrite lookup_delete_eq. split; [intros _ | reflexivity].
      apply Nat.eqb_eq in Z0. apply size_empty_inv in Z0.
      apply last_socket; assumption.
    - rewrite lookup_insert_eq. split; [discriminate|].
      intros ->. exfalso.
      rewrite difference_diag_L, size_empty in Z0. discriminate. }
  split; [exact Hother|].
  split; [exact Hok'|].
  split.
  { cbn. fold (registry_total (on_close u ws conns)).
    fold (registry_total conns).
    unfold on_close. rewrite E.
    destruct (size (s ∖ {[ws]}) =? 0)%nat eqn:Z0.
    - rewrite (registry_total_lookup u s conns E).
      apply Nat.eqb_eq in Z0. lia.
    - pose proof (registry_total_replace u (s ∖ {[ws]}) conns) as H.
      rewrite E in H. cbn in H. lia. }
  apply on_close_absent; [exact Hok'|]. rewrite Hmine. apply removed_absent.
Qed.

Lemma X24_witness :
  on_close "u1" 1 {["u1" := {[1%nat]}]} !! "u1" = None /\
  S (totalConnections
       (getConnectionStats 1000 (on_close "u1" 1 {["u1" := {[1%nat]}]}))) =
    totalConnections (getConnectionStats 1000 {["u1" := {[1%nat]}]}).
Proof.
  assert (Hok : registry_ok ({["u1" := {[1%nat]}]} : Registry)).
  { intros v s Hv. apply lookup_singleton_Some in Hv as [_ <-].
    apply (non_empty_singleton_L 1%nat). }
  destruct (X24_closed_socket_leaves_the_registry 1000 "u1" 1%nat {[1%nat]}
              {["u1" := {[1%nat]}]} Hok (lookup_singleton_eq _ _)
              (proj2 (elem_of_singleton 1%nat 1%nat) eq_refl))
    as (_ & Hn & _ & _ & Ht & _).
  split; [apply (proj2 Hn); reflexivity | exact Ht].
Defined.

(** ** The handshake of an observer *)

Lemma truthy_string_idem x : truthy_string (truthy_string x) = truthy_string x.
Proof.
  destruct x as [s|]; [| reflexivity]. cbn.
  destruct (String.eqb s "") eqn:E; [reflexivity|]. cbn. rewrite E.
  reflexivity.
Qed.

Lemma connection_token_query q h t :
  truthy_string q = Some t ->
  truthy_string (connection_token q h) = Some t.
Proof.
  intros Hq. unfold connection_token. rewrite Hq, <- Hq.
  apply truthy_string_idem.
Qed.

(** X22.  An observer is attached only with a token the verifier accepts.
    A handshake never writes the database.  When the URL of the request
    cannot be built, the handler throws before anything else and leaves
    the socket, the registry and the state as they were.  Otherwise it
    refuses the socket with code 1008, and leaves the registry and the
    state as they were, exactly when the request carries no token or one
    the verifier rejects; else it registers the socket under the user of
    the token and under no other; a non-empty token in the query string is
    the one that is verified, whatever the authorization header says; and
    on a store and a cache that answer, the socket is sent what a reader
    of the first ten is shown, together with the user's own rank. *)
Theorem X22_observer_is_attached_only_with_an_accepted_token
    fault verify now ws url h conns w hs conns' w' :
  handleConnection fault verify now ws url h conns w = (hs, conns', w') ->
  db w' = db w /\
  match hs with
  | Unhandled => url = None /\ conns' = conns /\ w' = w
  | Refused code reason =>
      code = 1008 /\ conns' = conns /\ w' = w /\
      exists q,
        url = Some q /\
        forall t, truthy_string (connection_token q h) = Some t ->
                  verify t = None
  | Attached u initial =>
      (exists q t p,
         url = Some q /\
         truthy_string (connection_token q h) = Some t /\
         (forall tq, truthy_string q = Some tq -> t = tq) /\
         verify t = Some p /\ u = userId p) /\
      conns' = registry_add u ws conns /\
      ws ∈ default ∅ (conns' !! u) /\
      (forall v, v <> u -> conns' !! v = conns !! v) /\
      ((forall k, fault k = false) ->
       exists lb,
         initial = Some lb /\
         shown_top10 now w (lr_leaderboard lb) /\
         lr_userRank lb =
           (fun x => rank_query_coalesce (db w) x) <$> truthy_string (Some u))
  end.
Proof.
  intros Hrun. unfold handleConnection in Hrun.
  destruct url as [q|].
  2:{ inversion Hrun; subst. repeat split. }
  destruct (truthy_string (connection_token q h)) as [t|] eqn:Et.
  2:{ inversion Hrun; subst. split; [reflexivity|].
      split; [reflexivity|]. split; [reflexivity|]. split; [reflexivity|].
      exists q. split; [reflexivity|].
      intros t Ht. rewrite Et in Ht. discriminate Ht. }
  destruct (verify t) as [p|] eqn:Ev.
  2:{ inversion Hrun; subst. split; [reflexivity|].
      split; [reflexivity|]. split; [reflexivity|]. split; [reflexivity|].
      exists q. split; [reflexivity|].
      intros t' Ht'. rewrite Et in Ht'. injection Ht' as <-. exact Ev. }
  assert (Hshape : forall initial w1,
    getLeaderboard fault now (Int 10) (Int 0) (Some (userId p)) w
      = (initial, w1) ->
    db w1 = db w).
  { intros initial w1 Hg.
    exact (getLeaderboard_keeps db _ _ _ _ _ untraced_db uncached_db _ _ _ Hg). }
  assert (Hreg : forall init,
    (forall lbo w1,
       getLeaderboard fault now (Int 10) (Int 0) (Some (userId p)) w
         = (lbo, w1) ->
       init = match lbo with Ok lb => Some lb | Throw _ => None end) ->
    (exists q0 t0 p0,
       Some q = Some q0 /\
       truthy_string (connection_token q0 h) = Some t0 /\
       (forall tq, truthy_string q0 = Some tq -> t0 = tq) /\
       verify t0 = Some p0 /\ userId p = userId p0) /\
    registry_add (userId p) ws conns = registry_add (userId p) ws conns /\
    ws ∈ default ∅ (registry_add (userId p) ws conns !! userId p) /\
    (forall v, v <> userId p ->
               registry_add (userId p) ws conns !! v = conns !! v) /\
    ((forall k, fault k = false) ->
     exists lb,
       init = Some lb /\
       shown_top10 now w (lr_leaderboard lb) /\
       lr_userRank lb =
         (fun x => rank_query_coalesce (db w) x)
           <$> truthy_string (Some (userId p)))).
  { intros init Hinit.
    split.
    { exists q, t, p. split; [reflexivity|]. split; [exact Et|].
      split; [| auto].
      intros tq Hq. rewrite (connection_token_query q h tq Hq) in Et.
      injection Et as ->. reflexivity. }
    split; [reflexivity|].
    split; [unfold registry_add; rewrite lookup_insert_eq; cbn;
            apply elem_of_union_l, elem_of_singleton; reflexivity|].
    split; [intros v Hv; unfold registry_add;
            rewrite lookup_insert_ne; [reflexivity | congruence]|].
    intros Hf.
    destruct (getLeaderboard_shown fault now (Some (userId p)) w Hf)
      as (lb & w1 & Hg & Hl & Hr & _).
    exists lb. split; [exact (Hinit _ _ Hg)|]. split; assumption. }
  destruct (getLeaderboard fault now (Int 10) (Int 0) (Some (userId p)) w)
    as [[lb|e] w1] eqn:Hg; inversion Hrun; subst; clear Hrun.
  - split; [exact (Hshape _ _ eq_refl)|]. apply Hreg.
    intros lbo w2 H. inversion H; subst. reflexivity.
  - split; [exact (Hshape _ _ eq_refl)|]. apply Hreg.
    intros lbo w2 H. inversion H; subst. reflexivity.
Qed.

Lemma X22_witness :
  exists lb conns' w',
    handleConnection no_fault toy_verify server_time 7
      (Some (Some "good")) (Some "Bearer bad") ∅ (idle four_players)
    = (Attached "u3" (Some lb), conns', w') /\
    db w' = four_players /\
    conns' = registry_add "u3" 7 ∅ /\
    lr_userRank lb = Some 3.
Proof.
  eassert (Hrun : handleConnection no_fault toy_verify server_time 7
                    (Some (Some "good")) (Some "Bearer bad") ∅
                    (idle four_players)
                  = (Attached "u3" (Some _), _, _))
    by (vm_compute; reflexivity).
  match type of Hrun with
  | _ = (Attached _ (Some ?lb), ?c, ?w1) =>
      destruct (X22_observer_is_attached_only_with_an_accepted_token
                  no_fault toy_verify server_time 7 (Some (Some "good"))
                  (Some "Bearer bad") ∅ (idle four_players)
                  (Attached "u3" (Some lb)) c w1 Hrun)
        as (Hdb & _ & Hc & _ & _ & Hinit);
      exists lb, c, w1
  end.
  split; [exact Hrun|]. split; [exact Hdb|]. split; [exact Hc|].
  destruct (Hinit (fun _ => eq_refl)) as (lb' & Hlb & _ & Hr).
  injection Hlb as <-. rewrite Hr. vm_compute. reflexivity.
Defined.

(** ** Validation, in full *)

(** X25.  What [validateScoreUpdateRequest] accepts.  For a timestamp of
    magnitude below 10^21 (one that is printed in plain decimal notation)
    it returns [true] exactly for an increment that is an integer of
    1..1000 with a timestamp that is absent, 0, or within five minutes of
    the server time; it throws the increment's message exactly when the
    increment is not such an integer, whatever the timestamp; it throws
    the timestamp's message exactly for a good increment with a timestamp
    other than 0 outside the window; and it never returns [false]. *)
Theorem X25_validation_outcomes now x ts :
  (forall t, ts = Some t -> plain_decimal t) ->
  (validateScoreUpdateRequest now x ts = Ok true <->
   good_increment x /\
   (forall t, ts = Some t -> t <> 0 -> in_window now t)) /\
  (validateScoreUpdateRequest now x ts =
     Throw (ValidationError "Score increment must be between 1 and 1000") <->
   ~ good_increment x) /\
  (validateScoreUpdateRequest now x ts =
     Throw (ValidationError "Invalid timestamp - possible replay attack") <->
   good_increment x /\
   exists t, ts = Some t /\ t <> 0 /\ ~ in_window now t) /\
  validateScoreUpdateRequest now x ts <> Ok false.
Proof.
  intros Hplain.
  unfold good_increment, in_window, validateScoreUpdateRequest.
  fold (increment_rejected x).
  pose proof (increment_accepted_iff x) as Hinc.
  destruct (increment_rejected x) eqn:Ei.
  { assert (Hno : ~ exists i, 1 <= i <= 1000 /\ denotes x i).
    { intros H. apply Hinc in H. discriminate H. }
    split; [split; [discriminate | intros [H _]; contradiction]|].
    split; [split; [intros _; exact Hno | reflexivity]|].
    split; [split; [discriminate | intros [H _]; contradiction]|].
    discriminate. }
  assert (Hyes : exists i, 1 <= i <= 1000 /\ denotes x i)
    by (apply Hinc; reflexivity).
  destruct ts as [t|]; cbn [truthy_timestamp].
  2:{ cbn. split; [split; [intros _; split; [exact Hyes | discriminate]
                          | reflexivity]|].
      split; [split; [discriminate | intros H; contradiction]|].
      split; [split; [discriminate | intros (_ & t & Ht & _); discriminate Ht]|].
      discriminate. }
  destruct (Z.eqb_spec t 0) as [->|Hne]; cbn [negb andb].
  { split; [split; [intros _; split; [exact Hyes |]| reflexivity]|].
    { intros t Ht Hne. injection Ht as <-. contradiction. }
    split; [split; [discriminate | intros H; contradiction]|].
    split; [split; [discriminate |]|].
    { intros (_ & t & Ht & Hne & _). injection Ht as <-. contradiction. }
    discriminate. }
  pose proof (validateTimestamp_window now t Hne (Hplain t eq_refl)) as Hw.
  destruct (validateTimestamp now (Some t)) eqn:Ev; cbn [negb].
  - assert (Hin : now - maxTimeDiff <= t <= now + maxTimeDiff)
      by (apply Hw; reflexivity).
    split; [split; [intros _; split; [exact Hyes |]| reflexivity]|].
    { intros t' Ht' _. injection Ht' as <-. exact Hin. }
    split; [split; [discriminate | intros H; contradiction]|].
    split; [split; [discriminate |]|].
    { intros (_ & t' & Ht' & _ & Hout). injection Ht' as <-. contradiction. }
    discriminate.
  - assert (Hout : ~ (now - maxTimeDiff <= t <= now + maxTimeDiff)).
    { intros H. apply Hw in H. discriminate H. }
    split; [split; [discriminate |]|].
    { intros (_ & H). exfalso. exact (Hout (H t eq_refl Hne)). }
    split; [split; [discriminate | intros H; contradiction]|].
    split; [split; [intros _; split; [exact Hyes | exists t; auto]
                   | reflexivity]|].
    discriminate.
Qed.

Lemma X25_witness :
  validateScoreUpdateRequest server_time (Int 50) (Some (server_time - 1000))
    = Ok true /\
  validateScoreUpdateRequest server_time (Int 50) (Some (server_time - 400000))
    = Throw (ValidationError "Invalid timestamp - possible replay attack").
Proof.
  split.
  - apply (X25_validation_outcomes server_time (Int 50)
             (Some (server_time - 1000))).
    + intros t Ht. injection Ht as <-. vm_compute. reflexivity.
    + split; [exists 50; split; [lia | apply denotes_Int]|].
      intros t Ht _. injection Ht as <-. vm_compute.
      split; discriminate.
  - apply (X25_validation_outcomes server_time (Int 50)
             (Some (server_time - 400000))).
    + intros t Ht. injection Ht as <-. vm_compute. reflexivity.
    + split; [exists 50; split; [lia | apply denotes_Int]|].
      exists (server_time - 400000). split; [reflexivity|].
      split; [vm_compute; discriminate|].
      vm_compute. intros [H _]. apply H. reflexivity.
Defined.

(** ** The leaderboard when the store fails in part *)

(** X26.  The leaderboard degrades instead of failing.  Once the listing
    has been read, [getLeaderboard] returns whatever the store does next:
    the total is the number of score rows, or 0 when the count query
    fails; the personal rank, asked for a non-empty user, is the rank of
    the store, or none when the rank query fails, and none without a
    user; the listing is the one that was read; and the database is not
    written. *)
Theorem X26_leaderboard_survives_failing_count_and_rank
    fault now limit offset u w board w0 :
  getTopUsers fault now limit offset w = (Ok board, w0) ->
  exists lb w',
    getLeaderboard fault now limit offset u w = (Ok lb, w') /\
    lr_leaderboard lb = board /\
    lr_totalUsers lb =
      (if fault (length (trace w0)) then 0 else count_query (db w)) /\
    lr_userRank lb =
      match truthy_string u with
      | Some x =>
          if fault (S (length (trace w0))) then None
          else Some (rank_query_coalesce (db w) x)
      | None => None
      end /\
    db w' = db w.
Proof.
  intros Htop.
  pose proof (getTopUsers_keeps db _ _ _ _ untraced_db uncached_db _ _ _ Htop)
    as Hd0.
  assert (Hpos : length (trace w0 ++ [PgCount]) = S (length (trace w0)))
    by (rewrite length_app; cbn; lia).
  unfold getLeaderboard, bind. rewrite Htop.
  unfold getTotalUsers, try_catch, pool_query, call, ret.
  destruct (fault (length (trace w0))) eqn:F0; cbn;
    destruct (truthy_string u) as [x|] eqn:Eu; cbn; rewrite ?Hpos;
    try (destruct (fault (S (length (trace w0)))) eqn:F1; cbn);
    eexists _, _; (split; [reflexivity|]); cbn; rewrite ?Hd0;
    repeat split.
Qed.

Lemma X26_witness :
  exists lb w',
    getLeaderboard (fun k => Nat.leb 3 k) server_time (Int 10) (Int 0)
      (Some "u3") (idle four_players) = (Ok lb, w') /\
    length (lr_leaderboard lb) = 4%nat /\
    lr_totalUsers lb = 0 /\
    lr_userRank lb = None /\
    db w' = four_players.
Proof.
  eassert (Htop : getTopUsers (fun k => Nat.leb 3 k) server_time (Int 10)
                    (Int 0) (idle four_players) = (Ok _, _))
    by (vm_compute; reflexivity).
  match type of Htop with
  | _ = (Ok ?board, ?w0) =>
      destruct (X26_leaderboard_survives_failing_count_and_rank
                  (fun k => Nat.leb 3 k) server_time (Int 10) (Int 0)
                  (Some "u3") (idle four_players) board w0 Htop)
        as (lb & w' & Hrun & Hb & Ht & Hr & Hd)
  end.
  exists lb, w'. split; [exact Hrun|].
  split; [rewrite Hb; reflexivity|].
  split; [exact Ht|]. split; [exact Hr | exact Hd].
Defined.

(** ** An error response after the commit *)

(** X27.  An error response does not mean that nothing was written.  When
    the unit of work of [updateScore] has committed (the participant's
    score being a safe integer) and the rank query that follows fails,
    [updateUserScore] answers 500, and the participant's score and the
    history keep the mutation. *)
Theorem X27_error_response_after_the_commit
    fault now req user w r w1 e w2 :
  req_user req = Some user ->
  validateScoreUpdateRequest now (body_score_increment req)
    (body_timestamp req) = Ok true ->
  tx w = None ->
  safe_score (db w) (userId user) ->
  updateScore fault now (userId user) (int_value (body_score_increment req))
    (body_action_id req) (req_ip req) (req_user_agent req) w = (Ok r, w1) ->
  getUserRank fault (userId user) w1 = (Throw e, w2) ->
  updateUserScore fault now req w =
    (Failure 500 "INTERNAL_ERROR" "An error occurred while updating the score",
     w2) /\
  current_score (db w2) (userId user) =
    current_score (db w) (userId user) + int_value (body_score_increment req) /\
  length (score_history (db w2)) = S (length (score_history (db w))).
Proof.
  intros Hu Hv Htx Hsafe Hupd Hrank.
  split.
  { unfold updateUserScore. rewrite Hu, Hv. unfold bind.
    rewrite Hupd, Hrank. reflexivity. }
  rewrite (getUserRank_keeps_db _ _ _ _ _ Hrank).
  pose proof (safe_score_storable _ _ _ Hsafe (validated_increment _ _ _ Hv))
    as (_ & _ & Hsum).
  destruct (updateScore_committed _ _ _ _ _ _ _ _ _ _ Htx Hupd Hsum)
    as (_ & _ & _ & Hcur & Hhist).
  split; [exact Hcur|].
  rewrite Hhist, length_app. cbn. lia.
Qed.

Lemma X27_witness :
  exists w',
    updateUserScore (fun k => Nat.eqb k 10) server_time
      (request_of "u3" (Int 50) None) (idle four_players) =
    (Failure 500 "INTERNAL_ERROR" "An error occurred while updating the score",
     w') /\
    current_score (db w') "u3" = 200 /\
    length (score_history (db w')) = 1%nat.
Proof.
  eassert (Hupd : updateScore (fun k => Nat.eqb k 10) server_time "u3" 50
                    (Some "action-1") (Some "127.0.0.1") (Some "jest")
                    (idle four_players) = (Ok _, _))
    by (vm_compute; reflexivity).
  match type of Hupd with
  | _ = (Ok ?r, ?w1) =>
      eassert (Hrank : getUserRank (fun k => Nat.eqb k 10) "u3" w1
                       = (Throw _, _)) by (vm_compute; reflexivity);
      match type of Hrank with
      | _ = (Throw ?e, ?w2) =>
          destruct (X27_error_response_after_the_commit
                      (fun k => Nat.eqb k 10) server_time
                      (request_of "u3" (Int 50) None)
                      {| userId := "u3"; payload_username := "u3" |}
                      (idle four_players) r w1 e w2
                      eq_refl eq_refl eq_refl
                      ltac:(split; vm_compute; discriminate) Hupd Hrank)
            as (Hrun & Hs & Hh);
          exists w2
      end
  end.
  split; [exact Hrun|]. split; [exact Hs | exact Hh].
Defined.
